(** * maptoposter: font resolution (font_management.py)

    A shallow embedding of [download_google_font], [load_fonts_from_path]
    and [load_fonts], together with the pieces of Python they rest on:
    insertion-ordered dictionaries, [re.search] / [re.split] with
    backtracking, [pathlib] names and suffixes, a file system, a network
    and the standard output.

    Text is modelled by [string], one [ascii] per code point below 256;
    integers by [Z] (Python integers do not wrap). *)

From Stdlib Require Import String Ascii List ZArith Lia Bool Arith.
Import ListNotations.

Local Open Scope string_scope.
Local Open Scope list_scope.

Set Implicit Arguments.

(* ================================================================== *)
(** * Exceptions *)

Inductive Exn : Type :=
| Timeout
| ConnectionError
| HTTPError (status : Z)
| OSError
| LookupError                    (* KeyError, IndexError *)
| ValueError
| RuntimeError.

(** What a piece of code yields: a value, or the exception it raises. *)
Inductive Result (A : Type) : Type :=
| Ok (a : A)
| Raised (e : Exn).
Arguments Raised {A} e.

(* ================================================================== *)
(** * Python strings *)

Module Str.

Definition code (c : ascii) : nat := nat_of_ascii c.

(** [str.lower] on code points below 256: A-Z, and the Latin-1 capitals
    U+00C0-U+00DE without the multiplication sign U+00D7. *)
Definition is_upper (c : ascii) : bool :=
  let n := code c in
  (Nat.leb 65 n && Nat.leb n 90)
  || (Nat.leb 192 n && Nat.leb n 222 && negb (Nat.eqb n 215)).

Definition lower_char (c : ascii) : ascii :=
  if is_upper c then ascii_of_nat (code c + 32) else c.

Fixpoint map (f : ascii -> ascii) (s : string) : string :=
  match s with
  | EmptyString => EmptyString
  | String c s' => String (f c) (map f s')
  end.

Definition lower (s : string) : string := map lower_char s.

(** [s.replace(a, b)] for one-character [a] and [b]. *)
Definition replace_char (a b : ascii) (s : string) : string :=
  map (fun c => if Ascii.eqb c a then b else c) s.

Definition endswith (s suffix : string) : bool :=
  let n := String.length s in
  let m := String.length suffix in
  Nat.leb m n && String.eqb (substring (n - m) m s) suffix.

Definition nonempty (s : string) : bool :=
  match s with EmptyString => false | String _ _ => true end.

(** [s.split(sep)] for a one-character separator. *)
Fixpoint split_char (sep : ascii) (s : string) : list string :=
  match s with
  | EmptyString => [EmptyString]
  | String c s' =>
      if Ascii.eqb c sep then EmptyString :: split_char sep s'
      else match split_char sep s' with
           | [] => [String c EmptyString]
           | p :: ps => String c p :: ps
           end
  end.

(** [s.rfind(c)], [None] for Python's [-1]. *)
Fixpoint rfind (c : ascii) (s : string) : option nat :=
  match s with
  | EmptyString => None
  | String c' s' =>
      match rfind c s' with
      | Some i => Some (S i)
      | None => if Ascii.eqb c' c then Some 0 else None
      end
  end.

Definition is_digit (c : ascii) : bool :=
  let n := code c in Nat.leb 48 n && Nat.leb n 57.

(** Unicode white space below U+0100, the class [\s] of a [str] pattern. *)
Definition is_space (c : ascii) : bool :=
  let n := code c in
  (Nat.leb 9 n && Nat.leb n 13) || (Nat.leb 28 n && Nat.leb n 32)
  || Nat.eqb n 133 || Nat.eqb n 160.

(** The value of a string of decimal digits. *)
Fixpoint int_digits (acc : Z) (s : string) : Z :=
  match s with
  | EmptyString => acc
  | String c s' => int_digits (acc * 10 + Z.of_nat (code c - 48)) s'
  end.

(** CPython converts no decimal string of more digits than this
    ([sys.get_int_max_str_digits()], 4300 unless the interpreter is told
    otherwise); leading zeros count. *)
Definition INT_MAX_STR_DIGITS : nat := 4300.

(** [int(s)] on a string of decimal digits: the value, or the
    [ValueError] for a string beyond the limit. *)
Definition int (s : string) : Result Z :=
  if Nat.ltb INT_MAX_STR_DIGITS (String.length s) then Raised ValueError
  else Ok (int_digits 0%Z s).

End Str.

(* ================================================================== *)
(** * Regular expressions: the fragment of [re] the module uses *)

Module Re.

Inductive regex : Type :=
| Lit (c : ascii)                  (* a literal character *)
| Class (p : ascii -> bool)        (* \s, \d, [^)] *)
| Bol                              (* ^ (no MULTILINE flag) *)
| Cat (r1 r2 : regex)
| Or (r1 r2 : regex)               (* r1|r2, r1 tried first *)
| Star (r : regex)                 (* r*, greedy *)
| Group (i : nat) (r : regex).     (* the i-th capturing group *)

Definition Plus (r : regex) : regex := Cat r (Star r).

(** The literal string [s] as a pattern. *)
Fixpoint Text (s : string) : regex :=
  match s with
  | EmptyString => Star (Class (fun _ => false))
  | String c EmptyString => Lit c
  | String c s' => Cat (Lit c) (Text s')
  end.

Definition Caps := list (nat * string).

Fixpoint group (caps : Caps) (i : nat) : option string :=
  match caps with
  | [] => None
  | (j, s) :: caps' => if Nat.eqb i j then Some s else group caps' i
  end.

Section Matcher.
Variable R : Type.

(** Backtracking match of [r] at position [pos], where [s] is the text
    from [pos] on; [k] continues with the rest of the pattern.  The
    first success in Python's order of preference is returned. *)
Fixpoint rx (r : regex) (pos : nat) (s : string) (caps : Caps)
         (k : nat -> string -> Caps -> option R) {struct r} : option R :=
  match r with
  | Lit c =>
      match s with
      | String c' s' => if Ascii.eqb c c' then k (S pos) s' caps else None
      | EmptyString => None
      end
  | Class p =>
      match s with
      | String c' s' => if p c' then k (S pos) s' caps else None
      | EmptyString => None
      end
  | Bol => if Nat.eqb pos 0 then k pos s caps else None
  | Cat r1 r2 =>
      rx r1 pos s caps (fun pos' s' caps' => rx r2 pos' s' caps' k)
  | Or r1 r2 =>
      match rx r1 pos s caps k with
      | Some x => Some x
      | None => rx r2 pos s caps k
      end
  | Star r1 =>
      (fix loop (fuel : nat) (pos : nat) (s : string) (caps : Caps)
         {struct fuel} : option R :=
         match fuel with
         | O => k pos s caps
         | S fuel' =>
             match rx r1 pos s caps
                      (fun pos' s' caps' =>
                         if Nat.ltb pos pos' then loop fuel' pos' s' caps'
                         else None) with
             | Some x => Some x
             | None => k pos s caps
             end
         end) (S (String.length s)) pos s caps
  | Group i r1 =>
      rx r1 pos s caps
         (fun pos' s' caps' =>
            k pos' s' ((i, substring 0 (pos' - pos) s) :: caps'))
  end.
End Matcher.

(** A match object: where it starts and ends, the text before and after
    it, and its groups. *)
Record rmatch : Type := mkMatch {
  m_start : nat;
  m_end : nat;
  m_before : string;
  m_after : string;
  m_groups : Caps
}.

Definition match_at (r : regex) (pos : nat) (s : string) : option rmatch :=
  rx r pos s [] (fun e rest caps => Some (mkMatch pos e "" rest caps)).

(** The leftmost match at or after [pos]. *)
Fixpoint search_at (r : regex) (pos : nat) (s : string) : option rmatch :=
  match match_at r pos s with
  | Some m => Some m
  | None =>
      match s with
      | EmptyString => None
      | String c s' =>
          option_map
            (fun m => mkMatch (m_start m) (m_end m)
                              (String c (m_before m)) (m_after m) (m_groups m))
            (search_at r (S pos) s')
      end
  end.

(** [re.search(r, s)] *)
Definition search (r : regex) (s : string) : option rmatch :=
  search_at r 0 s.

(** [re.split(r, s)] for a pattern without groups that matches no empty
    string: the pieces between successive leftmost matches. *)
Fixpoint split_loop (fuel : nat) (r : regex) (pos : nat) (s : string)
  : list string :=
  match fuel with
  | O => [s]
  | S fuel' =>
      match search_at r pos s with
      | None => [s]
      | Some m =>
          if Nat.ltb (m_start m) (m_end m)
          then m_before m :: split_loop fuel' r (m_end m) (m_after m)
          else [s]
      end
  end.

Definition split (r : regex) (s : string) : list string :=
  split_loop (String.length s) r 0 s.

End Re.

(* ================================================================== *)
(** * Python dictionaries: insertion-ordered association lists *)

Module Dict.
Section Dict.
Variables K V : Type.
Variable eqb : K -> K -> bool.

Definition t := list (K * V).

(** [d.get(k)] *)
Fixpoint get (d : t) (k : K) : option V :=
  match d with
  | [] => None
  | (k', v) :: d' => if eqb k k' then Some v else get d' k
  end.

(** [d[k] = v]: an existing key keeps its place, a new one goes last. *)
Fixpoint set (d : t) (k : K) (v : V) : t :=
  match d with
  | [] => [(k, v)]
  | (k', v') :: d' =>
      if eqb k k' then (k', v) :: d' else (k', v') :: set d' k v
  end.

(** [k in d] *)
Definition mem (d : t) (k : K) : bool :=
  match get d k with Some _ => true | None => false end.

Definition keys (d : t) : list K := List.map fst d.
Definition values (d : t) : list V := List.map snd d.

(** Truth value of a dictionary: non-empty. *)
Definition truthy (d : t) : bool :=
  match d with [] => false | _ :: _ => true end.
End Dict.
End Dict.

(** One step of the scan of [min]: a later element replaces the best so
    far only when its key is smaller. *)
Definition min_step (A : Type) (key : A -> Z) (best y : A) : A :=
  if Z.ltb (key y) (key best) then y else best.

(** [min(xs, key=f)]; [None] stands for the [ValueError] on an empty
    sequence. *)
Definition py_min (A : Type) (key : A -> Z) (xs : list A) : option A :=
  match xs with
  | [] => None
  | x :: xs' => Some (fold_left (min_step key) xs' x)
  end.

(* ================================================================== *)
(** * pathlib (POSIX flavour) *)

Module Pathlib.

(** A pure path: the anchor (empty, [/] or [//]) and the components. *)
Record path : Type := mkPath { anchor : string; parts : list string }.

Fixpoint leading_slashes (s : string) : nat :=
  match s with
  | String "/"%char s' => S (leading_slashes s')
  | _ => 0
  end.

Definition proper (c : string) : bool :=
  negb (String.eqb c "" || String.eqb c ".").

(** [PurePosixPath(s)] *)
Definition of_string (s : string) : path :=
  mkPath (match leading_slashes s with
          | 0 => ""
          | 2 => "//"
          | _ => "/"
          end)
         (filter proper (Str.split_char "/" s)).

Fixpoint join_parts (ps : list string) : string :=
  match ps with
  | [] => ""
  | [p] => p
  | p :: ps' => p ++ "/" ++ join_parts ps'
  end.

(** [str(p)] *)
Definition str (p : path) : string :=
  match anchor p, parts p with
  | "", [] => "."
  | a, ps => a ++ join_parts ps
  end.

(** [p / s] *)
Definition div (p : path) (s : string) : path :=
  let q := of_string s in
  if Str.nonempty (anchor q) then q
  else mkPath (anchor p) (parts p ++ parts q).

(** [p.name] *)
Definition name (p : path) : string := last (parts p) "".

(** The index of the dot that starts the suffix of a file name: the last
    dot, unless it is the first or the last character. *)
Definition suffix_dot (nm : string) : option nat :=
  match Str.rfind "." nm with
  | Some i =>
      if Nat.ltb 0 i && Nat.ltb i (String.length nm - 1) then Some i else None
  | None => None
  end.

Definition name_suffix (nm : string) : string :=
  match suffix_dot nm with
  | Some i => substring i (String.length nm - i) nm
  | None => ""
  end.

Definition name_stem (nm : string) : string :=
  match suffix_dot nm with
  | Some i => substring 0 i nm
  | None => nm
  end.

(** [p.suffix] and [p.stem] *)
Definition suffix (p : path) : string := name_suffix (name p).
Definition stem (p : path) : string := name_stem (name p).

(** A resolved path: absolute, its components canonical. *)
Definition resolved (k : list string) : path := mkPath "/" k.

End Pathlib.

(* ================================================================== *)
(** * The world: file system, network, standard output *)

Inductive Node : Type :=
| File (content : string)
| Dir
| Special.                       (* a device, a socket, ... *)

(** The two kinds of request the module sends. *)
Inductive Request : Type :=
| GetCss (family : string) (weights : list Z)
    (* GET https://fonts.googleapis.com/css2, family=<family>:wght@<w;w;..>,
       User-Agent: Mozilla/5.0, timeout 10 *)
| GetUrl (url : string).
    (* GET <url>, timeout 10 *)

Inductive Reply : Type :=
| TimedOut
| Unreachable
| Response (status : Z) (body : string).

(** Everything the module prints, one constructor per [print]. *)
Inductive Msg : Type :=
| MsgUsingWeight (closest : Z) (key : string) (requested : Z)
    (* "  Using weight {closest_weight} for {weight_key} (requested ...)" *)
| MsgDownloading (family key : string) (weight : Z)
| MsgDownloadFailed (key : string) (e : Exn)     (* "  ⚠ Failed to download" *)
| MsgUsingCached (family key : string)
| MsgAsRegular (key : string)
| MsgRegularAsBold
| MsgRegularAsLight
| MsgGoogleError (family : string) (e : Exn)     (* "⚠ Error downloading" *)
| MsgPathMissing (p : string)                    (* "⚠ Font path does not exist" *)
| MsgUnsupported (suffix : string)               (* "⚠ Unsupported font format" *)
| MsgLoadedFile (p : string)                     (* "✓ Loaded font from" *)
| MsgNoFontFiles (p : string)                    (* "⚠ No font files found in" *)
| MsgLoadedDir (p : string)                      (* "✓ Loaded fonts from directory" *)
| MsgDirEntry (weight name : string)
| MsgNoSuitable (p : string)                     (* "⚠ Could not find suitable fonts" *)
| MsgInvalidPath (p : string)                    (* "⚠ Invalid path" *)
| MsgLoadingGoogle (family : string)
| MsgFontLoaded (family : string)                (* "✓ Font ... loaded successfully" *)
| MsgFailedTryLocal (family : string)            (* "⚠ Failed to load ..." *)
| MsgFailedPath                                  (* "⚠ Failed to load from font path" *)
| MsgFontNotFound (p : string).                  (* "⚠ Font not found" *)

(** The messages the source marks with the warning sign. *)
Definition is_warning (m : Msg) : bool :=
  match m with
  | MsgDownloadFailed _ _ | MsgGoogleError _ _ | MsgPathMissing _
  | MsgUnsupported _ | MsgNoFontFiles _ | MsgNoSuitable _ | MsgInvalidPath _
  | MsgFailedTryLocal _ | MsgFailedPath | MsgFontNotFound _ => true
  | _ => false
  end.

Definition Key := list string.

Record World : Type := mkWorld {
  (** the reply to the n-th request sent (n counts from 0) *)
  net : nat -> Request -> Reply;
  (** the canonical absolute components of a path string, as
      [Path(s).expanduser().resolve()] and the system calls see it *)
  realpath : string -> Key;
  (** the exception in which [Path(s).expanduser().resolve()] ends on
      [s], if it does: [RuntimeError] for a [~user] without home
      directory, [ValueError] for an embedded NUL.  The code obtains no
      path from such an [s], and [realpath s] is a place without entry *)
  resolve_error : string -> option Exn;
  (** the exception [stat] fails with at a place where it finds no entry,
      when that failure is none of those pathlib answers with [False]
      (ENOENT, ENOTDIR, EBADF, ELOOP): a name too long, a directory that
      may not be searched *)
  stat_error : Key -> option Exn;
  (** the entries of the file system, in enumeration order *)
  nodes : list (Key * Node);
  (** requests sent, newest first *)
  sent : list Request;
  (** lines printed, newest first *)
  stdout : list Msg
}.

Fixpoint key_eqb (a b : Key) : bool :=
  match a, b with
  | [], [] => true
  | x :: a', y :: b' => String.eqb x y && key_eqb a' b'
  | _, _ => false
  end.

Definition node_at (w : World) (k : Key) : option Node :=
  match k with
  | [] => Some Dir
  | _ => Dict.get key_eqb (nodes w) k
  end.

Definition set_nodes (w : World) (ns : list (Key * Node)) : World :=
  mkWorld (net w) (realpath w) (resolve_error w) (stat_error w) ns (sent w)
          (stdout w).

(** ** The monad: state and exceptions *)

Definition M (A : Type) : Type := World -> Result A * World.

Definition ret (A : Type) (a : A) : M A := fun w => (Ok a, w).

Definition bind (A B : Type) (c : M A) (k : A -> M B) : M B :=
  fun w =>
    match c w with
    | (Ok a, w') => k a w'
    | (Raised e, w') => (Raised e, w')
    end.

Definition raise (A : Type) (e : Exn) : M A := fun w => (Raised e, w).
Arguments raise {A} e.

(** [try: c except Exception as e: h e] *)
Definition try_except (A : Type) (c : M A) (h : Exn -> M A) : M A :=
  fun w =>
    match c w with
    | (Ok a, w') => (Ok a, w')
    | (Raised e, w') => h e w'
    end.

Notation "x <- c1 ;; c2" := (bind c1 (fun x => c2))
  (at level 61, c1 at next level, right associativity).
Notation "c1 ;; c2" := (bind c1 (fun _ => c2))
  (at level 61, right associativity).

(** Code without effect that yields [r]. *)
Definition of_result (A : Type) (r : Result A) : M A := fun w => (r, w).

(** [for x in xs: s = body s x] *)
Fixpoint for_each (A S : Type) (xs : list A) (body : S -> A -> M S) (s : S)
  : M S :=
  match xs with
  | [] => ret s
  | x :: xs' => s' <- body s x ;; for_each xs' body s'
  end.

Definition print (m : Msg) : M unit :=
  fun w => (Ok tt, mkWorld (net w) (realpath w) (resolve_error w)
                           (stat_error w) (nodes w) (sent w) (m :: stdout w)).

(** [requests.get]: the exceptions of a request that gets no response. *)
Definition requests_get (req : Request) : M (Z * string) :=
  fun w =>
    let w' := mkWorld (net w) (realpath w) (resolve_error w) (stat_error w)
                      (nodes w) (req :: sent w) (stdout w) in
    match net w (List.length (sent w)) req with
    | TimedOut => (Raised Timeout, w')
    | Unreachable => (Raised ConnectionError, w')
    | Response status body => (Ok (status, body), w')
    end.

(** [response.raise_for_status()]: [HTTPError] for 4xx and 5xx. *)
Definition raise_for_status (response : Z * string) : M unit :=
  let status := fst response in
  if Z.leb 400 status && Z.ltb status 600 then raise (HTTPError status)
  else ret tt.

(** ** System calls *)

(** [stat] as pathlib uses it: the entry, [None] for the failures that
    pathlib takes for "not there", and the exception for any other. *)
Definition stat (k : Key) : M (option Node) :=
  fun w =>
    match node_at w k with
    | Some n => (Ok (Some n), w)
    | None =>
        match stat_error w k with
        | Some e => (Raised e, w)
        | None => (Ok None, w)
        end
    end.

(** [p.exists()], [p.is_file()], [p.is_dir()] of a [Path] *)
Definition path_exists (k : Key) : M bool :=
  fun w =>
    match stat k w with
    | (Ok n, w') => (Ok (match n with Some _ => true | None => false end), w')
    | (Raised e, w') => (Raised e, w')
    end.

Definition is_file (k : Key) : M bool :=
  fun w =>
    match stat k w with
    | (Ok n, w') =>
        (Ok (match n with Some (File _) => true | _ => false end), w')
    | (Raised e, w') => (Raised e, w')
    end.

Definition is_dir (k : Key) : M bool :=
  fun w =>
    match stat k w with
    | (Ok n, w') => (Ok (match n with Some Dir => true | _ => false end), w')
    | (Raised e, w') => (Raised e, w')
    end.

(** [os.path.exists(p)]: every failure of [stat] is answered [False]. *)
Definition os_path_exists (k : Key) : M bool :=
  fun w => (Ok (match node_at w k with Some _ => true | None => false end), w).

(** [Path(s).expanduser().resolve()]: the resolved path, or the exception
    of a string that leads to no entry and does not resolve. *)
Definition resolve (s : string) : M Key :=
  fun w =>
    match node_at w (realpath w s), resolve_error w s with
    | None, Some e => (Raised e, w)
    | _, _ => (Ok (realpath w s), w)
    end.

(** [p.iterdir()]: the entries directly below [k], in enumeration order. *)
Definition children (ns : list (Key * Node)) (k : Key) : list Key :=
  List.map fst
    (filter (fun e => match fst e with
                      | [] => false
                      | _ => key_eqb (removelast (fst e)) k
                      end) ns).

Definition iterdir (k : Key) : M (list Key) :=
  fun w => (Ok (children (nodes w) k), w).

(** [p.mkdir(parents=True, exist_ok=True)]: every missing directory on the
    way is created; a non-directory on the way is an [OSError]. *)
Fixpoint mkdir_walk (prefix rest : Key) (ns : list (Key * Node))
  : option (list (Key * Node)) :=
  match rest with
  | [] => Some ns
  | c :: rest' =>
      let p := prefix ++ [c] in
      match Dict.get key_eqb ns p with
      | Some Dir => mkdir_walk p rest' ns
      | Some _ => None
      | None => mkdir_walk p rest' (ns ++ [(p, Dir)])
      end
  end.

Definition mkdir_parents (k : Key) : M unit :=
  fun w =>
    match mkdir_walk [] k (nodes w) with
    | Some ns => (Ok tt, set_nodes w ns)
    | None => (Raised OSError, w)
    end.

(** [p.write_bytes(content)]: the parent must be a directory and [p] no
    directory itself. *)
Definition write_bytes (k : Key) (content : string) : M unit :=
  fun w =>
    match k, node_at w (removelast k), node_at w k with
    | _ :: _, Some Dir, None
    | _ :: _, Some Dir, Some (File _) =>
        (Ok tt, set_nodes w (Dict.set key_eqb (nodes w) k (File content)))
    | _, _, _ => (Raised OSError, w)
    end.

(** The key under which the system finds the (relative) path [p]. *)
Definition locate (p : string) : M Key :=
  fun w => (Ok (realpath w p), w).

(* ================================================================== *)
(** * font_management.py *)

Definition FontFiles := Dict.t string string.

Definition FONTS_DIR : string := "fonts".
Definition FONTS_CACHE_DIR : Pathlib.path :=
  Pathlib.div (Pathlib.of_string FONTS_DIR) "cache".

(** Truth value of an optional string ([None] and the empty string are
    false) and of an optional dictionary. *)
Definition truthy_str (u : option string) : bool :=
  match u with Some s => Str.nonempty s | None => false end.

Definition truthy_fonts (d : option FontFiles) : bool :=
  match d with Some d => Dict.truthy d | None => false end.

(** ** download_google_font *)

(** [@font-face\s*\{] *)
Definition font_face_re : Re.regex :=
  Re.Cat (Re.Text "@font-face")
         (Re.Cat (Re.Star (Re.Class Str.is_space)) (Re.Lit "{")).

(** [font-weight:\s*(\d+)] *)
Definition font_weight_re : Re.regex :=
  Re.Cat (Re.Text "font-weight:")
         (Re.Cat (Re.Star (Re.Class Str.is_space))
                 (Re.Group 1 (Re.Plus (Re.Class Str.is_digit)))).

(** [url\((https://[^)]+\.(woff2|ttf))\)] *)
Definition url_re : Re.regex :=
  Re.Cat (Re.Text "url(")
    (Re.Cat
       (Re.Group 1
          (Re.Cat (Re.Text "https://")
             (Re.Cat (Re.Plus (Re.Class (fun c => negb (Ascii.eqb c ")"))))
                (Re.Cat (Re.Lit ".")
                   (Re.Group 2 (Re.Or (Re.Text "woff2") (Re.Text "ttf")))))))
       (Re.Lit ")")).

(** [m.group(1)] *)
Definition group1 (m : Re.rmatch) : string :=
  match Re.group (Re.m_groups m) 1 with Some s => s | None => "" end.

(** Lines 62-66: the weight a block declares.  [None] when line 62 finds
    none; otherwise what [int] makes of the digits, which is the
    [ValueError] of line 66 when they are too many. *)
Definition block_weight (block : string) : option (Result Z) :=
  option_map (fun m => Str.int (group1 m)) (Re.search font_weight_re block).

(** Line 69: the URL extracted from a block. *)
Definition block_url (block : string) : option string :=
  option_map group1 (Re.search url_re block).

(** Lines 60-71, the body of the loop over the blocks. *)
Definition parse_block (weight_url_map : Dict.t Z string) (block : string)
  : Result (Dict.t Z string) :=
  match block_weight block with
  | None => Ok weight_url_map                                 (* continue *)
  | Some (Raised e) => Raised e
  | Some (Ok weight) =>
      match block_url block with
      | Some url => Ok (Dict.set Z.eqb weight_url_map weight url)
      | None => Ok weight_url_map
      end
  end.

Definition font_face_blocks (css_content : string) : list string :=
  Re.split font_face_re css_content.

(** Lines 60-71, the loop over the blocks: it ends where a block raises. *)
Fixpoint parse_blocks (blocks : list string) (weight_url_map : Dict.t Z string)
  : Result (Dict.t Z string) :=
  match blocks with
  | [] => Ok weight_url_map
  | block :: rest =>
      match parse_block weight_url_map block with
      | Ok weight_url_map => parse_blocks rest weight_url_map
      | Raised e => Raised e
      end
  end.

(** Lines 55-71. *)
Definition parse_css (css_content : string) : Result (Dict.t Z string) :=
  parse_blocks (tl (font_face_blocks css_content)) [].

Definition weight_map : Dict.t Z string :=
  [(300%Z, "light"); (400%Z, "regular"); (700%Z, "bold")].

(** [weight_map.get(weight, "regular")] *)
Definition weight_key_of (weight : Z) : string :=
  match Dict.get Z.eqb weight_map weight with
  | Some key => key
  | None => "regular"
  end.

(** Lines 86-88: [min(weight_url_map.keys(), key=lambda x: abs(x - weight))] *)
Definition closest_weight (weight_url_map : Dict.t Z string) (weight : Z)
  : option Z :=
  py_min (fun x => Z.abs (x - weight)) (Dict.keys weight_url_map).

(** Lines 80-92: the URL for a requested weight. *)
Definition find_weight_url (weight_url_map : Dict.t Z string)
           (weight_key : string) (weight : Z) : M (option string) :=
  let weight_url := Dict.get Z.eqb weight_url_map weight in
  if negb (truthy_str weight_url) && Dict.truthy weight_url_map then
    match closest_weight weight_url_map weight with
    | None => raise ValueError
    | Some closest =>
        match Dict.get Z.eqb weight_url_map closest with
        | None => raise LookupError
        | Some url =>
            print (MsgUsingWeight closest weight_key weight) ;;
            ret (Some url)
        end
    end
  else ret weight_url.

Definition file_ext_of (weight_url : string) : string :=
  if Str.endswith weight_url ".woff2" then "woff2" else "ttf".

(** Lines 99-100: the cache path of a role. *)
Definition cache_path (font_name_safe weight_key file_ext : string)
  : Pathlib.path :=
  Pathlib.div FONTS_CACHE_DIR
              (font_name_safe ++ "_" ++ weight_key ++ "." ++ file_ext).

(** Lines 104-110: download and store; [false] when the handler ran. *)
Definition fetch_asset (weight_key weight_url : string) (k : Key) : M bool :=
  try_except
    (font_response <- requests_get (GetUrl weight_url) ;;
     raise_for_status font_response ;;
     write_bytes k (snd font_response) ;;
     ret true)
    (fun e => print (MsgDownloadFailed weight_key e) ;; ret false).

(** Lines 77-114, the body of the loop over the requested weights. *)
Definition download_weight (font_family font_name_safe : string)
           (weight_url_map : Dict.t Z string)
           (font_files : FontFiles) (weight : Z) : M FontFiles :=
  let weight_key := weight_key_of weight in
  weight_url <- find_weight_url weight_url_map weight_key weight ;;
  match weight_url with
  | Some (String _ _ as url) =>
      let file_ext := file_ext_of url in
      let font_path := cache_path font_name_safe weight_key file_ext in
      k <- locate (Pathlib.str font_path) ;;
      present <- path_exists k ;;
      if negb present then
        print (MsgDownloading font_family weight_key weight) ;;
        stored <- fetch_asset weight_key url k ;;
        if stored
        then ret (Dict.set String.eqb font_files weight_key
                           (Pathlib.str font_path))
        else ret font_files                                   (* continue *)
      else
        print (MsgUsingCached font_family weight_key) ;;
        ret (Dict.set String.eqb font_files weight_key (Pathlib.str font_path))
  | _ => ret font_files
  end.

(** [font_files[key] = font_files["regular"]] *)
Definition copy_regular (font_files : FontFiles) (key : string) : M FontFiles :=
  match Dict.get String.eqb font_files "regular" with
  | Some regular => ret (Dict.set String.eqb font_files key regular)
  | None => raise LookupError
  end.

(** Lines 117-120: some role stands in for a missing regular. *)
Definition ensure_regular (font_files : FontFiles) : M FontFiles :=
  if negb (Dict.mem String.eqb font_files "regular") && Dict.truthy font_files
  then
    match Dict.values font_files with
    | [] => raise LookupError
    | first :: _ =>
        let font_files := Dict.set String.eqb font_files "regular" first in
        match Dict.keys font_files with
        | [] => raise LookupError
        | key :: _ => print (MsgAsRegular key) ;; ret font_files
        end
    end
  else ret font_files.

(** Lines 123-125 and 126-128: regular stands in for a missing role. *)
Definition duplicate_regular (key : string) (note : Msg)
           (font_files : FontFiles) : M FontFiles :=
  if negb (Dict.mem String.eqb font_files key)
     && Dict.mem String.eqb font_files "regular"
  then
    font_files <- copy_regular font_files key ;;
    print note ;; ret font_files
  else ret font_files.

(** Lines 116-128. *)
Definition fill_roles (font_files : FontFiles) : M FontFiles :=
  font_files <- ensure_regular font_files ;;
  font_files <- duplicate_regular "bold" MsgRegularAsBold font_files ;;
  duplicate_regular "light" MsgRegularAsLight font_files.

(** Lines 53-130: from the style sheet to the result. *)
Definition download_from_css (font_family font_name_safe : string)
           (weights : list Z) (css_content : string) : M (option FontFiles) :=
  weight_url_map <- of_result (parse_css css_content) ;;
  font_files <-
    for_each weights
             (download_weight font_family font_name_safe weight_url_map) [] ;;
  font_files <- fill_roles font_files ;;
  ret (if Dict.truthy font_files then Some font_files else None).

(** Lines 38-130, the body of the [try]. *)
Definition download_body (font_family font_name_safe : string)
           (weights : list Z) : M (option FontFiles) :=
  response <- requests_get (GetCss font_family weights) ;;
  raise_for_status response ;;
  let css_content := snd response in
  download_from_css font_family font_name_safe weights css_content.

Definition download_google_font (font_family : string)
           (weights : option (list Z)) : M (option FontFiles) :=
  let weights :=
    match weights with
    | None => [300%Z; 400%Z; 700%Z]
    | Some ws => ws
    end in
  k <- locate (Pathlib.str FONTS_CACHE_DIR) ;;
  mkdir_parents k ;;
  let font_name_safe := Str.lower (Str.replace_char " " "_" font_family) in
  try_except
    (download_body font_family font_name_safe weights)
    (fun e => print (MsgGoogleError font_family e) ;; ret None).

(** ** load_fonts_from_path *)

Definition SUPPORTED_EXTS : list string := [".ttf"; ".otf"; ".woff"; ".woff2"].

(** [suffix.lower() in SUPPORTED_EXTS] *)
Definition supported (suffix : string) : bool :=
  existsb (String.eqb (Str.lower suffix)) SUPPORTED_EXTS.

Definition weight_patterns : list (string * list Re.regex) :=
  [ ("bold",    [Re.Text "bold"; Re.Text "700"; Re.Cat Re.Bol (Re.Text "b_")]);
    ("regular", [Re.Text "regular"; Re.Text "400"; Re.Text "normal";
                 Re.Cat Re.Bol (Re.Text "r_")]);
    ("light",   [Re.Text "light"; Re.Text "300"; Re.Text "thin";
                 Re.Cat Re.Bol (Re.Text "l_")]) ].

(** Lines 227-228: [any(re.search(pattern, candidate_name) ...)] *)
Definition matches_any (patterns : list Re.regex) (candidate : Pathlib.path)
  : bool :=
  let candidate_name := Str.lower (Pathlib.stem candidate) in
  existsb (fun pattern =>
             match Re.search pattern candidate_name with
             | Some _ => true
             | None => false
             end) patterns.

(** Lines 226-230, the loop over the candidates with its [break]. *)
Fixpoint assign_first (weight_name : string) (patterns : list Re.regex)
         (font_candidates : list Pathlib.path) (font_files : FontFiles)
  : FontFiles :=
  match font_candidates with
  | [] => font_files
  | candidate :: rest =>
      if matches_any patterns candidate
      then Dict.set String.eqb font_files weight_name (Pathlib.str candidate)
      else assign_first weight_name patterns rest font_files
  end.

(** Lines 225-230. *)
Definition match_weights (font_candidates : list Pathlib.path) : FontFiles :=
  fold_left (fun font_files wp =>
               assign_first (fst wp) (snd wp) font_candidates font_files)
            weight_patterns [].

Definition set_default (font_files : FontFiles) (key value : string)
  : FontFiles :=
  if Dict.mem String.eqb font_files key then font_files
  else Dict.set String.eqb font_files key value.

(** Lines 232-248. *)
Definition fill_from_first (font_candidates : list Pathlib.path)
           (font_files : FontFiles) : FontFiles :=
  match font_candidates with
  | [] => font_files
  | first :: _ =>
      let first_font := Pathlib.str first in
      if Dict.truthy font_files then
        set_default
          (set_default (set_default font_files "regular" first_font)
                       "bold" first_font)
          "light" first_font
      else
        [("bold", first_font); ("regular", first_font); ("light", first_font)]
  end.

(** Lines 194-197. *)
Definition font_candidates_in (k : Key) : M (list Pathlib.path) :=
  entries <- iterdir k ;;
  fun w =>
    (Ok (List.map Pathlib.resolved
           (filter (fun f =>
                      match node_at w f with
                      | Some (File _) =>
                          supported (Pathlib.suffix (Pathlib.resolved f))
                      | _ => false
                      end) entries)), w).

Definition load_fonts_from_path (font_path : string) : M (option FontFiles) :=
  k <- resolve font_path ;;
  let font_path := Pathlib.resolved k in
  present <- path_exists k ;;
  if negb present then
    print (MsgPathMissing (Pathlib.str font_path)) ;; ret None
  else
    file <- is_file k ;;
    if file then
      if negb (supported (Pathlib.suffix font_path)) then
        print (MsgUnsupported (Pathlib.suffix font_path)) ;; ret None
      else
        let font_files :=
          [("bold", Pathlib.str font_path);
           ("regular", Pathlib.str font_path);
           ("light", Pathlib.str font_path)] in
        print (MsgLoadedFile (Pathlib.str font_path)) ;;
        ret (Some font_files)
    else
      dir <- is_dir k ;;
      if dir then
        font_candidates <- font_candidates_in k ;;
        match font_candidates with
        | [] => print (MsgNoFontFiles (Pathlib.str font_path)) ;; ret None
        | _ :: _ =>
            let font_files := match_weights font_candidates in
            let font_files := fill_from_first font_candidates font_files in
            if Dict.truthy font_files then
              print (MsgLoadedDir (Pathlib.str font_path)) ;;
              for_each font_files
                       (fun _ item =>
                          print (MsgDirEntry
                                   (fst item)
                                   (Pathlib.name (Pathlib.of_string (snd item)))))
                       tt ;;
              ret (Some font_files)
            else
              print (MsgNoSuitable (Pathlib.str font_path)) ;; ret None
        end
      else
        print (MsgInvalidPath (Pathlib.str font_path)) ;; ret None.

(** ** load_fonts *)

(** [os.path.join(a, b)] for a relative [b]. *)
Definition os_path_join (a b : string) : string := a ++ "/" ++ b.

(** Lines 300-304. *)
Definition default_fonts : FontFiles :=
  [ ("bold", os_path_join FONTS_DIR "Roboto-Bold.ttf");
    ("regular", os_path_join FONTS_DIR "Roboto-Regular.ttf");
    ("light", os_path_join FONTS_DIR "Roboto-Light.ttf") ].

(** Lines 307-310: [false] when the loop returned early. *)
Fixpoint verify_fonts (items : list (string * string)) : M bool :=
  match items with
  | [] => ret true
  | (_, path) :: rest =>
      k <- locate path ;;
      present <- os_path_exists k ;;
      if negb present then print (MsgFontNotFound path) ;; ret false
      else verify_fonts rest
  end.

(** Lines 299-312, the bundled-default stage. *)
Definition load_default_fonts : M (option FontFiles) :=
  let fonts := default_fonts in
  verified <- verify_fonts fonts ;;
  ret (if verified then Some fonts else None).

(** Lines 292-312. *)
Definition load_local_or_default (font_path : option string)
  : M (option FontFiles) :=
  match font_path with
  | Some (String _ _ as p) =>
      fonts <- load_fonts_from_path p ;;
      if truthy_fonts fonts then ret fonts
      else print MsgFailedPath ;; load_default_fonts
  | _ => load_default_fonts
  end.

Definition load_fonts (font_family font_path : option string)
  : M (option FontFiles) :=
  match font_family with
  | Some (String _ _ as family) =>
      if negb (String.eqb (Str.lower family) "roboto") then
        print (MsgLoadingGoogle family) ;;
        fonts <- download_google_font family None ;;
        if truthy_fonts fonts then
          print (MsgFontLoaded family) ;; ret fonts
        else
          print (MsgFailedTryLocal family) ;;
          load_local_or_default font_path
      else load_local_or_default font_path
  | _ => load_local_or_default font_path
  end.

(* ================================================================== *)
(** * Vocabulary of the properties *)

(** The three roles of a font set. *)
Definition roles : list string := ["light"; "regular"; "bold"].

(** A complete font set: every role is bound to a non-empty path. *)
Definition complete (d : FontFiles) : Prop :=
  forall key, In key roles ->
    exists p, Dict.get String.eqb d key = Some p /\ p <> "".

(** The public functions, as calls. *)
Inductive Call : Type :=
| CallDownload (font_family : string) (weights : option (list Z))
| CallFromPath (font_path : string)
| CallLoad (font_family font_path : option string).

Definition run (c : Call) : M (option FontFiles) :=
  match c with
  | CallDownload font_family weights => download_google_font font_family weights
  | CallFromPath font_path => load_fonts_from_path font_path
  | CallLoad font_family font_path => load_fonts font_family font_path
  end.

(** The world after some more lines have been printed. *)
Definition add_out (msgs : list Msg) (w : World) : World :=
  mkWorld (net w) (realpath w) (resolve_error w) (stat_error w) (nodes w)
          (sent w) (msgs ++ stdout w).

Definition say (m : Msg) (w : World) : World := add_out [m] w.

(** How many downloads were reported as failed. *)
Definition failures (out : list Msg) : nat :=
  List.length (filter (fun m => match m with
                                | MsgDownloadFailed _ _ => true
                                | _ => false
                                end) out).

(** Code that only prints, and reports no failed download. *)
Definition quiet (A : Type) (c : M A) : Prop :=
  exists r msgs, failures msgs = 0 /\ forall w, c w = (r, add_out msgs w).

(** Every value of the dictionary is a non-empty string. *)
Definition nonempty_values (d : FontFiles) : Prop :=
  Forall (fun item => snd item <> "") d.

(** The file system only grows: what exists stays, directories stay
    directories. *)
Definition grows (w w' : World) : Prop :=
  (forall k, node_at w k <> None -> node_at w' k <> None)
  /\ (forall k, node_at w k = Some Dir -> node_at w' k = Some Dir).

(** Network, path resolution and the failures of resolution and [stat]
    are the same in both worlds. *)
Definition same_env (w w' : World) : Prop :=
  net w' = net w /\ realpath w' = realpath w
  /\ resolve_error w' = resolve_error w /\ stat_error w' = stat_error w.

(** The value [find_weight_url] computes. *)
Definition chosen_url (weight_url_map : Dict.t Z string) (weight : Z)
  : option string :=
  let weight_url := Dict.get Z.eqb weight_url_map weight in
  if negb (truthy_str weight_url) && Dict.truthy weight_url_map then
    match closest_weight weight_url_map weight with
    | Some closest => Dict.get Z.eqb weight_url_map closest
    | None => None
    end
  else weight_url.

(** The cache path of a requested weight, when a URL is chosen for it. *)
Definition target (font_name_safe : string) (weight_url_map : Dict.t Z string)
           (weight : Z) : option string :=
  match chosen_url weight_url_map weight with
  | Some (String _ _ as url) =>
      Some (Pathlib.str (cache_path font_name_safe (weight_key_of weight)
                                    (file_ext_of url)))
  | _ => None
  end.

Definition present (w : World) (k : Key) : bool :=
  match node_at w k with Some _ => true | None => false end.

(** All three bundled files are on disk. *)
Definition defaults_present (w : World) : bool :=
  forallb (fun item => present w (realpath w (snd item))) default_fonts.

Definition patterns_of (role : string) : list Re.regex :=
  match Dict.get String.eqb weight_patterns role with
  | Some patterns => patterns
  | None => []
  end.

(** The first candidate, in enumeration order, that matches a role. *)
Definition first_for (role : string) (font_candidates : list Pathlib.path)
  : option Pathlib.path :=
  find (matches_any (patterns_of role)) font_candidates.


(** The reply that makes [download_google_font] give up at line 49-50. *)
Definition failing_reply (r : Reply) : Prop :=
  match r with
  | TimedOut | Unreachable => True
  | Response status _ => (400 <= status < 600)%Z
  end.

(** The exception a failing reply raises at lines 49-50. *)
Definition exception_of (r : Reply) : Exn :=
  match r with
  | TimedOut => Timeout
  | Unreachable => ConnectionError
  | Response status _ => HTTPError status
  end.

(** The weights a call asks for. *)
Definition requested (weights : option (list Z)) : list Z :=
  match weights with
  | None => [300%Z; 400%Z; 700%Z]
  | Some ws => ws
  end.

(** The world once the style sheet has been requested. *)
Definition after_request (font_family : string) (ws : list Z) (w : World)
  : World :=
  mkWorld (net w) (realpath w) (resolve_error w) (stat_error w) (nodes w)
          (GetCss font_family ws :: sent w) (stdout w).

(** Every directory on the way from [prefix] down along [rest] exists. *)
Fixpoint dirs_along (prefix rest : Key) (ns : list (Key * Node)) : Prop :=
  match rest with
  | [] => True
  | c :: rest' =>
      Dict.get key_eqb ns (prefix ++ [c])%list = Some Dir
      /\ dirs_along (prefix ++ [c])%list rest' ns
  end.

(** ** Sample worlds *)

(** A machine on which nothing but a missing entry makes a path fail. *)
Definition no_error (A : Type) (_ : A) : option Exn := None.
Arguments no_error {A} _.

(** Path resolution without links: relative paths start at [cwd]. *)
Definition lexical_realpath (cwd : Key) (s : string) : Key :=
  let p := Pathlib.of_string s in
  if Str.nonempty (Pathlib.anchor p) then Pathlib.parts p
  else (cwd ++ Pathlib.parts p)%list.

Definition demo_css : string :=
"/* latin */
@font-face {
  font-family: 'Demo';
  font-weight: 400;
  src: url(https://fonts.gstatic.com/s/demo/v1/demo-400.woff2) format('woff2');
}
@font-face {
  font-family: 'Demo';
  font-weight: 700;
  src: url(https://fonts.gstatic.com/s/demo/v1/demo-700.woff2) format('woff2');
}
".

(** A style sheet whose only block lists the legacy format first. *)
Definition ttf_first_css : string :=
"@font-face {
  font-family: 'Demo';
  font-weight: 400;
  src: url(https://fonts.gstatic.com/s/demo/v1/demo-400.ttf) format('truetype'),
       url(https://fonts.gstatic.com/s/demo/v1/demo-400.woff2) format('woff2');
}
".

(** A style sheet with two blocks for weight 400. *)
Definition twice_400_css : string :=
"@font-face {
  font-weight: 400;
  src: url(https://fonts.gstatic.com/s/demo/v1/cyrillic.woff2) format('woff2');
}
@font-face {
  font-weight: 0400;
  src: url(https://fonts.gstatic.com/s/demo/v1/latin.woff2) format('woff2');
}
".

(** A network on which everything succeeds with status [status]. *)
Definition demo_net (status : Z) (_ : nat) (req : Request) : Reply :=
  match req with
  | GetCss _ _ => Response status demo_css
  | GetUrl _ => Response 200 "font bytes"
  end.

(** A network on which the bold asset cannot be fetched. *)
Definition flaky_net (_ : nat) (req : Request) : Reply :=
  match req with
  | GetCss _ _ => Response 200 demo_css
  | GetUrl url =>
      if String.eqb url "https://fonts.gstatic.com/s/demo/v1/demo-700.woff2"
      then TimedOut else Response 200 "font bytes"
  end.

Definition demo_nodes : list (Key * Node) :=
  [ (["srv"], Dir);
    (["srv"; "one.Woff2"], File "");
    (["srv"; "faces"], Dir);
    (["srv"; "faces"; "Demo-Bold.TTF"], File "");
    (["srv"; "faces"; "thin_400.otf"], File "");
    (["srv"; "faces"; "readme.txt"], File "") ].

Definition demo_world (status : Z) : World :=
  mkWorld (demo_net status) (lexical_realpath ["srv"]) no_error no_error
          demo_nodes [] [].

Definition flaky_world : World :=
  mkWorld flaky_net (lexical_realpath ["srv"]) no_error no_error
          demo_nodes [] [].

(** A world with the three bundled files. *)
Definition roboto_world : World :=
  mkWorld (demo_net 200) (lexical_realpath ["srv"]) no_error no_error
          [ (["srv"], Dir);
            (["srv"; "fonts"], Dir);
            (["srv"; "fonts"; "Roboto-Bold.ttf"], File "");
            (["srv"; "fonts"; "Roboto-Regular.ttf"], File "");
            (["srv"; "fonts"; "Roboto-Light.ttf"], File "") ]
          [] [].

(** ** Vocabulary of the further properties *)

(** Nothing that exists is changed or removed. *)
Definition keeps (w w' : World) : Prop :=
  forall k n, node_at w k = Some n -> node_at w' k = Some n.

(** Code that raises nothing and does nothing but read and print. *)
Definition reads (A : Type) (c : M A) : Prop :=
  forall w, exists a msgs, c w = (Ok a, add_out msgs w).

(** The candidates of lines 194-197, as a function of the world. *)
Definition candidates_of (w : World) (k : Key) : list Pathlib.path :=
  List.map Pathlib.resolved
    (filter (fun f =>
               match node_at w f with
               | Some (File _) => supported (Pathlib.suffix (Pathlib.resolved f))
               | _ => false
               end) (children (nodes w) k)).




(** What lines 116-128 put under regular: the entry that is there, or
    else the first value of the dictionary. *)
Definition regular_of (d : FontFiles) : option string :=
  match Dict.get String.eqb d "regular" with
  | Some v => Some v
  | None => hd_error (Dict.values d)
  end.

(** A cache path of the family: some role and one of the two formats. *)
Definition cache_path_of (font_name_safe p : string) : Prop :=
  exists role ext,
    In role roles /\ (ext = "woff2" \/ ext = "ttf")
    /\ p = Pathlib.str (cache_path font_name_safe role ext).

(** [font_family.replace(" ", "_").lower()], line 33. *)
Definition safe_name (font_family : string) : string :=
  Str.lower (Str.replace_char " " "_" font_family).

(** Lines 53-130 on a style sheet, under the handler of lines 132-134. *)
Definition handled_css (font_family font_name_safe : string) (ws : list Z)
           (css_content : string) : M (option FontFiles) :=
  try_except (download_from_css font_family font_name_safe ws css_content)
             (fun e => print (MsgGoogleError font_family e) ;; ret None).

(** What lines 116-128 leave under a key. *)
Definition filled (d : FontFiles) (key : string) : option string :=
  if String.eqb key "regular" then regular_of d
  else if String.eqb key "bold" || String.eqb key "light" then
         match Dict.get String.eqb d key with
         | Some v => Some v
         | None => regular_of d
         end
       else Dict.get String.eqb d key.

(** ** A machine on which paths can fail *)

Fixpoint contains_char (c : ascii) (s : string) : bool :=
  match s with
  | EmptyString => false
  | String c' s' => Ascii.eqb c' c || contains_char c s'
  end.

(** A NUL is refused with [ValueError]; [~name] is a user this machine
    does not know, [RuntimeError] ([~] alone is the home directory). *)
Definition strict_resolve_error (s : string) : option Exn :=
  if contains_char (ascii_of_nat 0) s then Some ValueError
  else match s with
       | String "~"%char (String c _) =>
           if Ascii.eqb c "/" then None else Some RuntimeError
       | _ => None
       end.

(** A name of more than 255 characters is too long for [stat]. *)
Definition strict_stat_error (k : Key) : option Exn :=
  if existsb (fun c => Nat.ltb 255 (String.length c)) k then Some OSError
  else None.

Fixpoint repeat_char (c : ascii) (n : nat) : string :=
  match n with
  | 0 => EmptyString
  | S n' => String c (repeat_char c n')
  end.

Definition long_name : string := repeat_char "a" 300.

Definition strict_world : World :=
  mkWorld (demo_net 200) (lexical_realpath ["srv"])
          strict_resolve_error strict_stat_error demo_nodes [] [].

(** A style sheet whose block declares a weight of 4301 digits. *)
Definition overlong_css : string :=
  "@font-face { font-weight: " ++ repeat_char "1" 4301
  ++ "; src: url(https://fonts.gstatic.com/s/demo/v1/demo.woff2); }".

Definition overlong_world : World :=
  mkWorld (fun _ req => match req with
                        | GetCss _ _ => Response 200 overlong_css
                        | GetUrl _ => Response 200 "font bytes"
                        end)
          (lexical_realpath ["srv"]) no_error no_error demo_nodes [] [].

(** A world whose style sheet holds no [@font-face] block. *)
Definition blockless_world : World :=
  mkWorld (fun _ req => match req with
                        | GetCss _ _ => Response 200 "/* no such family */"
                        | GetUrl _ => Response 200 "font bytes"
                        end)
          (lexical_realpath ["srv"]) no_error no_error demo_nodes [] [].

(** The bundled files on a machine without network. *)
Definition offline_world : World :=
  mkWorld (fun _ _ => Unreachable) (realpath roboto_world)
          no_error no_error (nodes roboto_world) [] [].

(** A world in which a file called [fonts] stands in the way of the
    cache directory. *)
Definition blocked_world : World :=
  mkWorld (demo_net 200) (lexical_realpath ["srv"]) no_error no_error
          [ (["srv"], Dir); (["srv"; "fonts"], File "") ] [] [].

(** The loop of [Re.rx] for a starred pattern. *)
Definition star_loop (R : Type) (r1 : Re.regex)
           (k : nat -> string -> Re.Caps -> option R)
  : nat -> nat -> string -> Re.Caps -> option R :=
  fix loop (fuel : nat) (pos : nat) (s : string) (caps : Re.Caps)
      {struct fuel} : option R :=
    match fuel with
    | O => k pos s caps
    | S fuel' =>
        match Re.rx r1 pos s caps
                    (fun pos' s' caps' =>
                       if Nat.ltb pos pos' then loop fuel' pos' s' caps'
                       else None) with
        | Some x => Some x
        | None => k pos s caps
        end
    end.

(** Every character of the string passes the test. *)
Fixpoint all_chars (p : ascii -> bool) (s : string) : bool :=
  match s with
  | EmptyString => true
  | String c s' => p c && all_chars p s'
  end.

(** The URLs line 69 accepts: https, a non-empty middle without closing
    parenthesis, and one of the two extensions. *)
Definition asset_url (u : string) : Prop :=
  exists middle ext,
    u = ("https://" ++ middle ++ "." ++ ext)%string
    /\ middle <> ""
    /\ all_chars (fun c => negb (Ascii.eqb c ")")) middle = true
    /\ (ext = "woff2" \/ ext = "ttf").



(** A family for which [load_fonts] goes to the network: given, not
    empty, and not the bundled one in any letter case. *)
Definition remote_family (font_family : option string) : bool :=
  match font_family with
  | Some (String _ _ as family) =>
      negb (String.eqb (Str.lower family) "roboto")
  | _ => false
  end.

(* ================================================================== *)
(** * fix_unicode.py *)

Module FixUnicode.

(** Text as the script sees it: a sequence of code points.  Files hold
    text (UTF-8 that decodes); the script runs on a POSIX system, where
    writing leaves line feeds as they are. *)
Definition Text := list N.

(** A directory of text files. *)
Definition Files := string -> option Text.

Definition CHECK_MARK : N := 10003.      (* U+2713 *)
Definition WARNING_SIGN : N := 9888.     (* U+26A0 *)
Definition BALLOT_X : N := 10007.        (* U+2717 *)
Definition BLACK_CIRCLE : N := 9679.     (* U+25CF *)

Definition symbols : list N :=
  [CHECK_MARK; WARNING_SIGN; BALLOT_X; BLACK_CIRCLE].

Definition LF : N := 10.
Definition CR : N := 13.

(** The text of an ASCII string. *)
Fixpoint text_of (s : string) : Text :=
  match s with
  | EmptyString => []
  | String c s' => N_of_ascii c :: text_of s'
  end.

(** Reading in text mode: [\r\n] and [\r] arrive as [\n]. *)
Fixpoint universal_newlines (s : Text) : Text :=
  match s with
  | [] => []
  | c :: rest =>
      if N.eqb c CR then
        LF :: match rest with
              | c' :: rest' =>
                  if N.eqb c' LF then universal_newlines rest'
                  else universal_newlines rest
              | [] => []
              end
      else c :: universal_newlines rest
  end.

(** [f.readlines()]: the lines, each with its line feed. *)
Fixpoint readlines (s : Text) : list Text :=
  match s with
  | [] => []
  | c :: s' =>
      if N.eqb c LF then [c] :: readlines s'
      else match readlines s' with
           | [] => [[c]]
           | line :: lines => (c :: line) :: lines
           end
  end.

(** [line.replace(old, new)] for a one-character [old]. *)
Definition replace (old : N) (new : Text) (line : Text) : Text :=
  flat_map (fun c => if N.eqb c old then new else [c]) line.

(** Lines 11-14: the four replacements, in their order. *)
Definition fix_line (line : Text) : Text :=
  let line := replace CHECK_MARK (text_of "[+]") line in
  let line := replace WARNING_SIGN (text_of "[!]") line in
  let line := replace BALLOT_X (text_of "[X]") line in
  let line := replace BLACK_CIRCLE (text_of "*") line in
  line.

Definition FILE : string := "create_map_poster.py".

Definition DONE : string :=
  "Successfully replaced Unicode symbols in create_map_poster.py".

(** The script: the files and the lines printed afterwards, or [None]
    for the [FileNotFoundError] of line 3. *)
Definition fix_unicode (files : Files) : option (Files * list string) :=
  match files FILE with
  | None => None
  | Some content =>
      let lines := readlines (universal_newlines content) in
      let modified_lines := List.map fix_line lines in
      Some (fun name =>
              if String.eqb name FILE then Some (concat modified_lines)
              else files name,
            [DONE])
  end.

(** A file with the four symbols, one of them outside any [print]. *)
Definition sample : Text :=
  (text_of "print('" ++ [CHECK_MARK] ++ text_of " done')"
   ++ [CR; LF] ++ text_of "BULLET = '" ++ [BLACK_CIRCLE] ++ text_of "'"
   ++ [LF] ++ text_of "print('" ++ [WARNING_SIGN; BALLOT_X] ++ text_of "')")%list.

Definition sample_files : Files :=
  fun name => if String.eqb name FILE then Some sample else None.

End FixUnicode.



(** The sample directory on a machine without network and without the
    bundled files. *)
Definition offline_demo_world : World :=
  mkWorld (fun _ _ => Unreachable) (lexical_realpath ["srv"])
          no_error no_error demo_nodes [] [].

(* ================================================================== *)
(** * Facts about dictionaries *)

Section DictFacts.
Variables K V : Type.
Variable eqb : K -> K -> bool.
Hypothesis eqb_eq : forall a b, eqb a b = true <-> a = b.

Lemma eqb_same (k : K) : eqb k k = true.
Proof. now apply eqb_eq. Qed.

Lemma eqb_diff (a b : K) : a <> b -> eqb a b = false.
Proof.
  intro H. destruct (eqb a b) eqn:E; [|reflexivity].
  apply eqb_eq in E. contradiction.
Qed.

Lemma get_set_same (d : Dict.t K V) k v :
  Dict.get eqb (Dict.set eqb d k v) k = Some v.
Proof.
  induction d as [|[k' v'] d IH]; simpl.
  - now rewrite eqb_same.
  - destruct (eqb k k') eqn:E; simpl; rewrite E; auto.
Qed.

Lemma get_set_other (d : Dict.t K V) k k' v :
  k' <> k -> Dict.get eqb (Dict.set eqb d k v) k' = Dict.get eqb d k'.
Proof.
  intro Hne. induction d as [|[k0 v0] d IH]; simpl.
  - now rewrite (eqb_diff Hne).
  - destruct (eqb k k0) eqn:E; simpl.
    + apply eqb_eq in E. subst k0. now rewrite (eqb_diff Hne).
    + now rewrite IH.
Qed.

Lemma get_in_keys (d : Dict.t K V) k :
  In k (Dict.keys d) -> exists v, Dict.get eqb d k = Some v.
Proof.
  induction d as [|[k' v'] d IH]; simpl; [tauto|].
  intros [->|Hin].
  - rewrite eqb_same. eauto.
  - destruct (eqb k k'); eauto.
Qed.

Lemma get_in (d : Dict.t K V) k v :
  Dict.get eqb d k = Some v -> In (k, v) d.
Proof.
  induction d as [|[k' v'] d IH]; simpl; [discriminate|].
  destruct (eqb k k') eqn:E.
  - apply eqb_eq in E. intros [= ->]. left. now subst.
  - auto.
Qed.

Lemma set_nonempty (d : Dict.t K V) k v :
  Dict.truthy (Dict.set eqb d k v) = true.
Proof.
  destruct d as [|[k' v'] d]; simpl; [reflexivity|].
  now destruct (eqb k k').
Qed.

Lemma mem_set (d : Dict.t K V) k k' v :
  Dict.mem eqb (Dict.set eqb d k v) k'
  = if eqb k' k then true else Dict.mem eqb d k'.
Proof.
  unfold Dict.mem. destruct (eqb k' k) eqn:E.
  - apply eqb_eq in E. subst. now rewrite get_set_same.
  - rewrite get_set_other; [reflexivity|].
    intros ->. now rewrite eqb_same in E.
Qed.
End DictFacts.

Lemma key_eqb_eq (a b : Key) : key_eqb a b = true <-> a = b.
Proof.
  revert b. induction a as [|x a IH]; destruct b as [|y b]; simpl;
    try (split; [discriminate|discriminate]); try tauto.
  rewrite andb_true_iff, String.eqb_eq, IH.
  split; [intros [-> ->]; reflexivity | intros [= -> ->]; auto].
Qed.

(* ================================================================== *)
(** * Running monadic code *)

Lemma world_eta (w : World) :
  mkWorld (net w) (realpath w) (resolve_error w) (stat_error w) (nodes w)
          (sent w) (stdout w) = w.
Proof. now destruct w. Qed.

Lemma add_out_nil (w : World) : add_out [] w = w.
Proof. apply world_eta. Qed.

Lemma add_out_app (a b : list Msg) (w : World) :
  add_out a (add_out b w) = add_out (a ++ b) w.
Proof. unfold add_out; simpl. now rewrite app_assoc. Qed.

Lemma print_say (m : Msg) (w : World) : print m w = (Ok tt, say m w).
Proof. reflexivity. Qed.

Lemma bind_inv (A B : Type) (c : M A) (k : A -> M B) (w w' : World)
      (r : Result B) :
  bind c k w = (r, w') ->
  (exists a w1, c w = (Ok a, w1) /\ k a w1 = (r, w'))
  \/ (exists e, c w = (Raised e, w') /\ r = Raised e).
Proof.
  unfold bind. destruct (c w) as [[a|e] w1].
  - intro H. left. eauto.
  - intros [= <- <-]. right. eauto.
Qed.

Lemma bind_ok (A B : Type) (c : M A) (k : A -> M B) (w w1 : World) (a : A) :
  c w = (Ok a, w1) -> bind c k w = k a w1.
Proof. unfold bind. now intros ->. Qed.

Lemma bind_raised (A B : Type) (c : M A) (k : A -> M B) (w w1 : World)
      (e : Exn) :
  c w = (Raised e, w1) -> bind c k w = (Raised e, w1).
Proof. unfold bind. now intros ->. Qed.

(** ** The system calls on a path that names an entry, and on one that
    names none *)

Lemma resolve_found (s : string) (w : World) (n : Node) :
  node_at w (realpath w s) = Some n -> resolve s w = (Ok (realpath w s), w).
Proof. unfold resolve. now intros ->. Qed.

Lemma resolve_absent (s : string) (w : World) :
  node_at w (realpath w s) = None ->
  resolve s w = match resolve_error w s with
                | Some e => (Raised e, w)
                | None => (Ok (realpath w s), w)
                end.
Proof. unfold resolve. now intros ->. Qed.

Lemma stat_found (k : Key) (w : World) (n : Node) :
  node_at w k = Some n -> stat k w = (Ok (Some n), w).
Proof. unfold stat. now intros ->. Qed.

Lemma path_exists_found (k : Key) (w : World) (n : Node) :
  node_at w k = Some n -> path_exists k w = (Ok true, w).
Proof. intro H. unfold path_exists. now rewrite (stat_found k w H). Qed.

Lemma path_exists_absent (k : Key) (w : World) :
  node_at w k = None ->
  path_exists k w = match stat_error w k with
                    | Some e => (Raised e, w)
                    | None => (Ok false, w)
                    end.
Proof.
  intro H. unfold path_exists, stat. rewrite H.
  now destruct (stat_error w k).
Qed.

Lemma is_file_found (k : Key) (w : World) (n : Node) :
  node_at w k = Some n ->
  is_file k w = (Ok (match n with File _ => true | _ => false end), w).
Proof. intro H. unfold is_file. now rewrite (stat_found k w H). Qed.

Lemma is_dir_found (k : Key) (w : World) (n : Node) :
  node_at w k = Some n ->
  is_dir k w = (Ok (match n with Dir => true | _ => false end), w).
Proof. intro H. unfold is_dir. now rewrite (stat_found k w H). Qed.

(* ================================================================== *)
(** * The style sheet: blocks of the same weight *)

Lemma parse_block_get (m m' : Dict.t Z string) (b : string) (w : Z) :
  parse_block m b = Ok m' ->
  Dict.get Z.eqb m' w
  = match block_weight b, block_url b with
    | Some (Ok w'), Some u => if Z.eqb w w' then Some u else Dict.get Z.eqb m w
    | _, _ => Dict.get Z.eqb m w
    end.
Proof.
  unfold parse_block.
  destruct (block_weight b) as [[w'|e]|]; [|discriminate|now intros [= <-]].
  destruct (block_url b) as [u|]; [|now intros [= <-]].
  intros [= <-]. destruct (Z.eqb w w') eqn:E.
  - apply Z.eqb_eq in E. subst. apply get_set_same, Z.eqb_eq.
  - apply get_set_other; [apply Z.eqb_eq|]. intros ->.
    now rewrite Z.eqb_refl in E.
Qed.

Lemma parse_blocks_app (pre post : list string) :
  forall m : Dict.t Z string,
    parse_blocks (pre ++ post) m
    = match parse_blocks pre m with
      | Ok m1 => parse_blocks post m1
      | Raised e => Raised e
      end.
Proof.
  induction pre as [|b pre IH]; intro m; cbn [parse_blocks app];
    [reflexivity|].
  destruct (parse_block m b) as [m1|e]; [apply IH|reflexivity].
Qed.

(** The loop over the blocks runs to its end when no weight is refused
    by [int]. *)
Lemma parse_blocks_completes (blocks : list string) :
  (forall b e, In b blocks -> block_weight b <> Some (Raised e)) ->
  forall m, exists m', parse_blocks blocks m = Ok m'.
Proof.
  induction blocks as [|b blocks IH]; intros Hok m; cbn [parse_blocks];
    [eauto|].
  assert (Hb : exists m1, parse_block m b = Ok m1).
  { unfold parse_block.
    destruct (block_weight b) as [[w|e]|] eqn:Ew; [| |eauto].
    - destruct (block_url b); eauto.
    - destruct (Hok b e (or_introl eq_refl) Ew). }
  destruct Hb as (m1 & ->). apply IH. intros b' e Hin. apply Hok. now right.
Qed.

Lemma parse_blocks_keep (post : list string) (w : Z) :
  (forall b', In b' post -> block_weight b' = Some (Ok w) ->
              block_url b' = None) ->
  forall m m' : Dict.t Z string,
    parse_blocks post m = Ok m' ->
    Dict.get Z.eqb m' w = Dict.get Z.eqb m w.
Proof.
  induction post as [|b post IH]; intros Hpost m m' H; cbn [parse_blocks] in H.
  - now injection H as <-.
  - destruct (parse_block m b) as [m1|e] eqn:Eb; [|discriminate].
    rewrite (IH ltac:(intros; apply Hpost; simpl; auto) m1 m' H).
    rewrite (parse_block_get m b w Eb).
    destruct (block_weight b) as [[w'|e]|] eqn:Ew; try reflexivity.
    destruct (block_url b) as [u|] eqn:Eu; [|reflexivity].
    destruct (Z.eqb w w') eqn:E; [|reflexivity].
    apply Z.eqb_eq in E. subst w'.
    rewrite (Hpost b) in Eu by (simpl; auto). discriminate.
Qed.

(** C10. When several blocks of the style sheet declare the same integer
    weight, the mapping built by lines 55-71 binds that weight to the URL
    of the last of them in document order: a block [b] of weight [w] with
    URL [u], followed by no block of weight [w] from which a URL is
    extracted, leaves [w] bound to [u], whatever came earlier.  The
    mapping is built when the loop runs to its end, that is, when [int]
    at line 66 refuses the weight of no block. *)
Theorem last_block_of_a_weight_wins :
  forall (css_content : string) (pre post : list string) (b : string)
         (w : Z) (u : string),
    tl (font_face_blocks css_content) = (pre ++ b :: post)%list ->
    block_weight b = Some (Ok w) ->
    block_url b = Some u ->
    (forall b', In b' post -> block_weight b' = Some (Ok w) ->
                block_url b' = None) ->
    (forall b' e, In b' (pre ++ post)%list ->
                  block_weight b' <> Some (Raised e)) ->
    exists weight_url_map,
      parse_css css_content = Ok weight_url_map
      /\ Dict.get Z.eqb weight_url_map w = Some u.
Proof.
  intros css pre post b w u Hsplit Hw Hu Hpost Hint.
  unfold parse_css. rewrite Hsplit, parse_blocks_app.
  destruct (@parse_blocks_completes pre) with (m := @nil (Z * string))
    as (m1 & ->).
  { intros b' e Hin. apply Hint, in_or_app. now left. }
  cbn [parse_blocks].
  assert (Hb : parse_block m1 b = Ok (Dict.set Z.eqb m1 w u))
    by (unfold parse_block; now rewrite Hw, Hu).
  rewrite Hb.
  destruct (@parse_blocks_completes post) with (m := Dict.set Z.eqb m1 w u)
    as (m' & Hm').
  { intros b' e Hin. apply Hint, in_or_app. now right. }
  exists m'. split; [exact Hm'|].
  rewrite (parse_blocks_keep post Hpost _ Hm').
  apply get_set_same, Z.eqb_eq.
Qed.

Lemma last_block_of_a_weight_wins_witness :
  let blocks := tl (font_face_blocks twice_400_css) in
  List.map block_weight blocks = [Some (Ok 400%Z); Some (Ok 400%Z)]
  /\ List.map block_url blocks
     = [Some "https://fonts.gstatic.com/s/demo/v1/cyrillic.woff2";
        Some "https://fonts.gstatic.com/s/demo/v1/latin.woff2"]
  /\ exists weight_url_map,
       parse_css twice_400_css = Ok weight_url_map
       /\ Dict.get Z.eqb weight_url_map 400%Z
          = Some "https://fonts.gstatic.com/s/demo/v1/latin.woff2".
Proof.
  cbv zeta. split; [vm_compute; reflexivity|].
  split; [vm_compute; reflexivity|].
  apply (@last_block_of_a_weight_wins twice_400_css
           [nth 0 (tl (font_face_blocks twice_400_css)) ""] []
           (nth 1 (tl (font_face_blocks twice_400_css)) "")).
  - vm_compute. reflexivity.
  - vm_compute. reflexivity.
  - vm_compute. reflexivity.
  - intros b' [].
  - intros b' e [<-|[]]. vm_compute. discriminate.
Defined.

(* ================================================================== *)
(** * The closest weight *)

Section MinScan.
Variable A : Type.
Variable key : A -> Z.

(** The scan returns the first element of least key. *)
Lemma min_scan_first (xs : list A) (x : A) :
  exists l1 l2,
    x :: xs = (l1 ++ fold_left (min_step key) xs x :: l2)%list
    /\ (forall b, In b l1 -> (key (fold_left (min_step key) xs x) < key b)%Z)
    /\ (forall b, In b l2 -> (key (fold_left (min_step key) xs x) <= key b)%Z).
Proof.
  revert x. induction xs as [|y ys IH]; intro x; simpl.
  - exists [], []. simpl. repeat split; intros b [].
  - unfold min_step at 2 4 6. destruct (Z.ltb (key y) (key x)) eqn:E.
    + apply Z.ltb_lt in E.
      destruct (IH y) as (l1 & l2 & Heq & H1 & H2).
      exists (x :: l1), l2. repeat split.
      * simpl. now rewrite <- Heq.
      * intros b [<-|Hb]; [|auto].
        destruct l1 as [|z l1]; simpl in Heq.
        -- injection Heq as Hy _. rewrite <- Hy. exact E.
        -- injection Heq as Hy _. subst z.
           specialize (H1 y (or_introl eq_refl)). lia.
      * exact H2.
    + apply Z.ltb_ge in E.
      destruct (IH x) as (l1 & l2 & Heq & H1 & H2).
      destruct l1 as [|z l1]; simpl in Heq.
      * injection Heq as Hx Hl. exists [], (y :: ys). repeat split.
        -- simpl. now rewrite <- Hx.
        -- intros b [].
        -- intros b [<-|Hb]; [rewrite <- Hx; exact E|].
           apply H2. now rewrite <- Hl.
      * injection Heq as Hz Hl. subst z.
        exists (x :: y :: l1), l2. repeat split.
        -- simpl. now rewrite <- Hl.
        -- intros b [<-|[<-|Hb]].
           ++ apply H1. now left.
           ++ specialize (H1 x (or_introl eq_refl)). lia.
           ++ apply H1. now right.
        -- exact H2.
Qed.

Lemma py_min_first (xs : list A) :
  xs <> [] ->
  exists a l1 l2,
    py_min key xs = Some a
    /\ xs = (l1 ++ a :: l2)%list
    /\ (forall b, In b l1 -> (key a < key b)%Z)
    /\ (forall b, In b l2 -> (key a <= key b)%Z).
Proof.
  destruct xs as [|x xs]; [congruence|]. intros _.
  destruct (min_scan_first xs x) as (l1 & l2 & Heq & H1 & H2).
  exists (fold_left (min_step key) xs x), l1, l2. repeat split; auto.
Qed.
End MinScan.

(** [find_weight_url] does not raise: it yields [chosen_url] and prints at
    most the note about the substitution. *)
Lemma find_weight_url_run (m : Dict.t Z string) (key : string) (weight : Z)
      (w : World) :
  exists msgs,
    find_weight_url m key weight w = (Ok (chosen_url m weight), add_out msgs w)
    /\ failures msgs = 0.
Proof.
  unfold find_weight_url, chosen_url.
  destruct (negb (truthy_str (Dict.get Z.eqb m weight)) && Dict.truthy m)
    eqn:E.
  - apply andb_true_iff in E. destruct E as [_ Hm].
    assert (Hne : Dict.keys m <> []) by (destruct m; [discriminate|easy]).
    destruct (py_min_first (fun x => Z.abs (x - weight)) Hne)
      as (a & l1 & l2 & Hmin & Hkeys & _).
    unfold closest_weight. rewrite Hmin.
    destruct (@get_in_keys Z string Z.eqb Z.eqb_eq m a) as [u Hu].
    { rewrite Hkeys. apply in_or_app. right. now left. }
    rewrite Hu. exists [MsgUsingWeight a key weight]. split; reflexivity.
  - exists []. split; [|reflexivity]. unfold ret. now rewrite add_out_nil.
Qed.

(** C2. For a non-empty weight-to-URL mapping and a requested weight that
    is not one of its keys, lines 84-92 select a key [a] at least
    distance from the requested weight; among the keys at that distance
    it is the one the scan meets first.  The substitution is reported by
    one line that carries no warning sign, nothing is raised, and the
    URL of [a] is used. *)
Theorem closest_weight_substitution :
  forall (weight_url_map : Dict.t Z string) (weight_key : string) (weight : Z)
         (w : World),
    weight_url_map <> [] ->
    Dict.get Z.eqb weight_url_map weight = None ->
    exists a l1 l2 url,
      closest_weight weight_url_map weight = Some a
      /\ Dict.keys weight_url_map = (l1 ++ a :: l2)%list
      /\ (forall b, In b (Dict.keys weight_url_map) ->
                    (Z.abs (a - weight) <= Z.abs (b - weight))%Z)
      /\ (forall b, In b l1 -> (Z.abs (a - weight) < Z.abs (b - weight))%Z)
      /\ Dict.get Z.eqb weight_url_map a = Some url
      /\ find_weight_url weight_url_map weight_key weight w
         = (Ok (Some url), say (MsgUsingWeight a weight_key weight) w)
      /\ is_warning (MsgUsingWeight a weight_key weight) = false.
Proof.
  intros m key weight w Hm Habsent.
  assert (Hne : Dict.keys m <> []) by (destruct m; [congruence|easy]).
  destruct (py_min_first (fun x => Z.abs (x - weight)) Hne)
    as (a & l1 & l2 & Hmin & Hkeys & H1 & H2).
  destruct (@get_in_keys Z string Z.eqb Z.eqb_eq m a) as [u Hu].
  { rewrite Hkeys. apply in_or_app. right. now left. }
  exists a, l1, l2, u. repeat split; auto.
  - intros b Hb. rewrite Hkeys in Hb. apply in_app_or in Hb.
    destruct Hb as [Hb|[<-|Hb]].
    + specialize (H1 b Hb). simpl in H1. lia.
    + lia.
    + exact (H2 b Hb).
  - unfold find_weight_url. rewrite Habsent. simpl.
    destruct m as [|e m]; [congruence|]. simpl Dict.truthy. cbv iota.
    unfold closest_weight in *. rewrite Hmin, Hu. reflexivity.
Qed.

Lemma closest_weight_substitution_witness :
  exists weight_url_map a l1 l2 url,
    parse_css demo_css = Ok weight_url_map
    /\ closest_weight weight_url_map 300%Z = Some a
    /\ Dict.keys weight_url_map = (l1 ++ a :: l2)%list
    /\ (forall b, In b (Dict.keys weight_url_map) ->
                  (Z.abs (a - 300) <= Z.abs (b - 300))%Z)
    /\ (forall b, In b l1 -> (Z.abs (a - 300) < Z.abs (b - 300))%Z)
    /\ Dict.get Z.eqb weight_url_map a = Some url
    /\ find_weight_url weight_url_map "light" 300%Z (demo_world 200)
       = (Ok (Some url), say (MsgUsingWeight a "light" 300%Z) (demo_world 200))
    /\ is_warning (MsgUsingWeight a "light" 300%Z) = false.
Proof.
  destruct (@closest_weight_substitution
              [(400%Z, "https://fonts.gstatic.com/s/demo/v1/demo-400.woff2");
               (700%Z, "https://fonts.gstatic.com/s/demo/v1/demo-700.woff2")]
              "light" 300%Z (demo_world 200))
    as (a & l1 & l2 & url & H).
  - discriminate.
  - reflexivity.
  - eexists _, a, l1, l2, url. split; [vm_compute; reflexivity|exact H].
Defined.

(* ================================================================== *)
(** * The URL of a block *)

(** C3. The block of [ttf_first_css] holds a legacy-format URL and, after
    it, a compressed-format URL; line 69 extracts the first of the two,
    the legacy one, and the mapping binds weight 400 to it. *)
Theorem legacy_url_listed_first_is_extracted :
  let block := nth 1 (font_face_blocks ttf_first_css) "" in
  (exists m, Re.search url_re block = Some m
             /\ group1 m = "https://fonts.gstatic.com/s/demo/v1/demo-400.ttf"
             /\ block_url (Re.m_after m)
                = Some "https://fonts.gstatic.com/s/demo/v1/demo-400.woff2")
  /\ block_url block = Some "https://fonts.gstatic.com/s/demo/v1/demo-400.ttf"
  /\ parse_css ttf_first_css
     = Ok [(400%Z, "https://fonts.gstatic.com/s/demo/v1/demo-400.ttf")].
Proof.
  cbv zeta. split; [|split].
  - eexists. split; [vm_compute; reflexivity|]. split; vm_compute; reflexivity.
  - vm_compute. reflexivity.
  - vm_compute. reflexivity.
Qed.

(* ================================================================== *)
(** * The directory scan *)

Lemma assign_first_find (role : string) (cands : list Pathlib.path)
      (d : FontFiles) :
  assign_first role (patterns_of role) cands d
  = match first_for role cands with
    | Some c => Dict.set String.eqb d role (Pathlib.str c)
    | None => d
    end.
Proof.
  unfold first_for. induction cands as [|c cands IH]; simpl; [reflexivity|].
  now destruct (matches_any (patterns_of role) c).
Qed.

Lemma match_weights_unfold (cands : list Pathlib.path) :
  match_weights cands
  = assign_first "light" (patterns_of "light") cands
      (assign_first "regular" (patterns_of "regular") cands
         (assign_first "bold" (patterns_of "bold") cands [])).
Proof. reflexivity. Qed.

Lemma set_default_keeps (d : FontFiles) (k x role v : string) :
  Dict.get String.eqb d role = Some v ->
  Dict.get String.eqb (set_default d k x) role = Some v.
Proof.
  intro H. unfold set_default, Dict.mem.
  destruct (Dict.get String.eqb d k) eqn:E; [exact H|].
  rewrite get_set_other; [exact H | apply String.eqb_eq | congruence].
Qed.

Lemma fill_from_first_keeps (cands : list Pathlib.path) (d : FontFiles)
      (role v : string) :
  Dict.get String.eqb d role = Some v ->
  Dict.get String.eqb (fill_from_first cands d) role = Some v.
Proof.
  intro H. unfold fill_from_first. destruct cands as [|c cands]; [exact H|].
  destruct d as [|e d]; [discriminate|]. simpl Dict.truthy. cbv iota.
  now do 3 apply set_default_keeps.
Qed.

(** C6. After the scan of lines 225-230 every role is bound to the first
    candidate, in enumeration order, whose lowercased stem matches one of
    the role's patterns, and is unbound when there is none; each role is
    scanned over all the candidates, whatever the other roles took.  The
    roles are entered in the order bold, regular, light.  The fallback of
    lines 232-248 keeps these bindings. *)
Theorem roles_take_first_matching_candidate :
  forall (font_candidates : list Pathlib.path),
    let font_files := match_weights font_candidates in
    (forall role, In role roles ->
       Dict.get String.eqb font_files role
       = option_map Pathlib.str (first_for role font_candidates))
    /\ Dict.keys font_files
       = filter (fun role =>
                   match first_for role font_candidates with
                   | Some _ => true
                   | None => false
                   end) ["bold"; "regular"; "light"]
    /\ (forall role c, In role roles ->
          first_for role font_candidates = Some c ->
          Dict.get String.eqb
                   (fill_from_first font_candidates font_files) role
          = Some (Pathlib.str c)).
Proof.
  intro cands. cbv zeta.
  assert (Hget : forall role, In role roles ->
            Dict.get String.eqb (match_weights cands) role
            = option_map Pathlib.str (first_for role cands)).
  { intros role Hrole. rewrite match_weights_unfold, !assign_first_find.
    destruct (first_for "bold" cands) as [cb|] eqn:Eb;
      destruct (first_for "regular" cands) as [cr|] eqn:Er;
      destruct (first_for "light" cands) as [cl|] eqn:El;
      simpl in Hrole;
      destruct Hrole as [<-|[<-|[<-|[]]]];
      rewrite ?Eb, ?Er, ?El; reflexivity. }
  split; [exact Hget|]. split.
  - rewrite match_weights_unfold, !assign_first_find.
    destruct (first_for "bold" cands) as [cb|] eqn:Eb;
      destruct (first_for "regular" cands) as [cr|] eqn:Er;
      destruct (first_for "light" cands) as [cl|] eqn:El;
      simpl; rewrite ?Eb, ?Er, ?El; reflexivity.
  - intros role c Hrole Hfirst. apply fill_from_first_keeps.
    rewrite Hget by assumption. now rewrite Hfirst.
Qed.

Lemma roles_take_first_matching_candidate_witness :
  let font_candidates :=
    [Pathlib.resolved ["srv"; "faces"; "Demo-Bold.TTF"];
     Pathlib.resolved ["srv"; "faces"; "thin_400.otf"]] in
  Dict.get String.eqb (match_weights font_candidates) "regular"
  = Some "/srv/faces/thin_400.otf"
  /\ Dict.get String.eqb (match_weights font_candidates) "light"
     = Some "/srv/faces/thin_400.otf"
  /\ Dict.keys (match_weights font_candidates) = ["bold"; "regular"; "light"]
  /\ Dict.get String.eqb
              (fill_from_first font_candidates (match_weights font_candidates))
              "bold"
     = Some "/srv/faces/Demo-Bold.TTF".
Proof.
  cbv zeta.
  destruct (roles_take_first_matching_candidate
              [Pathlib.resolved ["srv"; "faces"; "Demo-Bold.TTF"];
               Pathlib.resolved ["srv"; "faces"; "thin_400.otf"]])
    as (Hget & Hkeys & Hfill).
  split; [rewrite Hget by (simpl; tauto); reflexivity|].
  split; [rewrite Hget by (simpl; tauto); reflexivity|].
  split; [rewrite Hkeys; reflexivity|].
  exact (Hfill "bold" (Pathlib.resolved ["srv"; "faces"; "Demo-Bold.TTF"])
               ltac:(simpl; tauto) eq_refl).
Defined.

(* ================================================================== *)
(** * Extensions and letter case *)








(* ================================================================== *)
(** * Code that only prints *)

Lemma failures_app (a b : list Msg) :
  failures (a ++ b) = failures a + failures b.
Proof. unfold failures. now rewrite filter_app, length_app. Qed.

Lemma quiet_ret (A : Type) (a : A) : quiet (ret a).
Proof.
  exists (Ok a), []. split; [reflexivity|].
  intro w. unfold ret. now rewrite add_out_nil.
Qed.

Lemma quiet_raise (A : Type) (e : Exn) : quiet (@raise A e).
Proof.
  exists (Raised e), []. split; [reflexivity|].
  intro w. unfold raise. now rewrite add_out_nil.
Qed.

Lemma quiet_print (m : Msg) : failures [m] = 0 -> quiet (print m).
Proof. intro H. exists (Ok tt), [m]. split; [exact H|reflexivity]. Qed.

Lemma quiet_bind (A B : Type) (c : M A) (k : A -> M B) :
  quiet c -> (forall a, quiet (k a)) -> quiet (bind c k).
Proof.
  intros (r & msgs & Hf & Hc) Hk. destruct r as [a|e].
  - destruct (Hk a) as (r' & msgs' & Hf' & Hk').
    exists r', (msgs' ++ msgs)%list. split.
    + rewrite failures_app. lia.
    + intro w. unfold bind. now rewrite Hc, Hk', add_out_app.
  - exists (Raised e), msgs. split; [exact Hf|].
    intro w. unfold bind. now rewrite Hc.
Qed.

Ltac quiet_tac :=
  repeat first
    [ apply quiet_ret
    | apply quiet_raise
    | apply quiet_print; reflexivity
    | apply quiet_bind; [|intro]
    | match goal with
      | |- quiet (if ?b then _ else _) => destruct b
      | |- quiet (match ?x with _ => _ end) => destruct x
      end ].

Lemma quiet_fill_roles (d : FontFiles) : quiet (fill_roles d).
Proof.
  unfold fill_roles, ensure_regular, duplicate_regular, copy_regular.
  quiet_tac.
Qed.

(* ================================================================== *)
(** * Complete font sets *)

Lemma nonempty_values_set (d : FontFiles) (k v : string) :
  nonempty_values d -> v <> "" ->
  nonempty_values (Dict.set String.eqb d k v).
Proof.
  intros Hd Hv. induction Hd as [|[k' v'] d Hx Hd IH]; simpl.
  - constructor; [exact Hv|constructor].
  - destruct (String.eqb k k'); constructor; auto.
Qed.

(* ================================================================== *)
(** * The loop over the requested weights *)

Lemma grows_refl (w : World) : grows w w.
Proof. split; auto. Qed.

Lemma grows_trans (a b c : World) : grows a b -> grows b c -> grows a c.
Proof. intros [H1 H2] [H3 H4]. split; auto. Qed.

Lemma same_env_refl (w : World) : same_env w w.
Proof. repeat split. Qed.

Lemma same_env_trans (a b c : World) :
  same_env a b -> same_env b c -> same_env a c.
Proof.
  intros (H1 & H2 & H3 & H4) (H5 & H6 & H7 & H8). repeat split; congruence.
Qed.

(** Two worlds that share the environment of a third share theirs. *)
Lemma same_env_both (a b c : World) :
  same_env a b -> same_env a c -> same_env b c.
Proof.
  intros (H1 & H2 & H3 & H4) (H5 & H6 & H7 & H8). repeat split; congruence.
Qed.

Lemma node_at_same_nodes (w w' : World) (k : Key) :
  nodes w' = nodes w -> node_at w' k = node_at w k.
Proof. intro H. unfold node_at. now rewrite H. Qed.

Lemma keeps_refl (w : World) : keeps w w.
Proof. intros k n H. exact H. Qed.

Lemma keeps_trans (a b c : World) : keeps a b -> keeps b c -> keeps a c.
Proof. intros H1 H2 k n H. auto. Qed.

Lemma keeps_same_nodes (w w' : World) : nodes w' = nodes w -> keeps w w'.
Proof. intros H k n Hk. now rewrite (node_at_same_nodes w w' k H). Qed.

Lemma keeps_grows (w w' : World) : keeps w w' -> grows w w'.
Proof.
  intro Hk. split.
  - intros k H. destruct (node_at w k) as [n|] eqn:E; [|congruence].
    rewrite (Hk _ _ E). discriminate.
  - intros k H. exact (Hk _ _ H).
Qed.

Lemma node_at_stored (w : World) (k k' : Key) (n : Node) :
  k <> [] ->
  node_at (set_nodes w (Dict.set key_eqb (nodes w) k n)) k'
  = if key_eqb k' k then Some n else node_at w k'.
Proof.
  intro Hk. unfold node_at. destruct k' as [|c k'].
  - destruct k; [congruence|reflexivity].
  - cbn [nodes set_nodes]. destruct (key_eqb (c :: k') k) eqn:E.
    + apply key_eqb_eq in E. rewrite E.
      apply get_set_same, key_eqb_eq.
    + apply get_set_other; [apply key_eqb_eq|].
      intro H. rewrite H in E.
      assert (key_eqb k k = true) by now apply key_eqb_eq. congruence.
Qed.

Lemma keeps_stored (w w' : World) (k : Key) (n : Node) :
  k <> [] -> node_at w k = None ->
  nodes w' = Dict.set key_eqb (nodes w) k n ->
  keeps w w' /\ node_at w' k = Some n.
Proof.
  intros Hk Habsent Hnodes.
  assert (Hat : forall k', node_at w' k'
                           = if key_eqb k' k then Some n else node_at w k').
  { intro k'. rewrite <- (node_at_stored w k' n Hk).
    unfold node_at. cbn [nodes set_nodes]. now rewrite Hnodes. }
  split.
  - intros k' n' H. rewrite Hat. destruct (key_eqb k' k) eqn:E; [|exact H].
    apply key_eqb_eq in E. subst k'. congruence.
  - rewrite Hat. now assert (key_eqb k k = true) as -> by now apply key_eqb_eq.
Qed.

(** What printed lines leave as it is. *)
Lemma add_out_effects (msgs : list Msg) (w : World) :
  failures msgs = 0 ->
  same_env w (add_out msgs w)
  /\ keeps w (add_out msgs w)
  /\ failures (stdout (add_out msgs w)) = failures (stdout w).
Proof.
  intro H. split; [repeat split|]. split; [now apply keeps_same_nodes|].
  cbn [stdout add_out]. rewrite failures_app. lia.
Qed.

(** A fetch either stores the asset where nothing was, or reports its
    failure and leaves the file system as it is. *)
Lemma fetch_asset_run (weight_key weight_url : string) (k : Key) (w : World) :
  node_at w k = None ->
  exists stored w',
    fetch_asset weight_key weight_url k w = (Ok stored, w')
    /\ same_env w w'
    /\ sent w' = GetUrl weight_url :: sent w
    /\ ((exists content,
            stored = true
            /\ k <> []
            /\ nodes w' = Dict.set key_eqb (nodes w) k (File content)
            /\ stdout w' = stdout w)
        \/ (exists e,
               stored = false
               /\ nodes w' = nodes w
               /\ stdout w' = MsgDownloadFailed weight_key e :: stdout w)).
Proof.
  intro Habsent.
  unfold fetch_asset, try_except, bind, requests_get, raise_for_status.
  set (w1 := mkWorld (net w) (realpath w) (resolve_error w) (stat_error w)
                     (nodes w) (GetUrl weight_url :: sent w) (stdout w)).
  assert (Hfail : forall e,
    exists stored w',
      (print (MsgDownloadFailed weight_key e) ;; ret false) w1 = (Ok stored, w')
      /\ same_env w w'
      /\ sent w' = GetUrl weight_url :: sent w
      /\ ((exists content : string,
              stored = true
              /\ k <> []
              /\ nodes w' = Dict.set key_eqb (nodes w) k (File content)
              /\ stdout w' = stdout w)
          \/ (exists e0,
                 stored = false
                 /\ nodes w' = nodes w
                 /\ stdout w' = MsgDownloadFailed weight_key e0 :: stdout w))).
  { intro e. exists false, (say (MsgDownloadFailed weight_key e) w1).
    split; [reflexivity|]. split; [repeat split|].
    split; [reflexivity|]. right. exists e. repeat split. }
  destruct (net w (List.length (sent w)) (GetUrl weight_url))
    as [| |status body] eqn:Enet;
    [exact (Hfail Timeout) | exact (Hfail ConnectionError) |].
  cbn [fst snd].
  destruct ((400 <=? status)%Z && (status <? 600)%Z);
    [exact (Hfail (HTTPError status))|].
  unfold ret at 1, write_bytes. cbv beta iota.
  destruct k as [|c k]; [exact (Hfail OSError)|].
  assert (Hn : node_at w1 (c :: k) = None) by exact Habsent.
  rewrite Hn.
  destruct (node_at w1 (removelast (c :: k))) as [[| |]|];
    try exact (Hfail OSError).
  exists true,
    (set_nodes w1 (Dict.set key_eqb (nodes w1) (c :: k) (File body))).
  split; [reflexivity|]. split; [repeat split|]. split; [reflexivity|].
  left. exists body. split; [reflexivity|].
  split; [discriminate|]. split; reflexivity.
Qed.

Lemma str_anchored (q : Pathlib.path) :
  Str.nonempty (Pathlib.anchor q) = true -> Pathlib.str q <> "".
Proof.
  destruct q as [a ps]. unfold Pathlib.str. simpl.
  destruct a as [|c a]; [discriminate|]. intros _. discriminate.
Qed.

Lemma cache_path_nonempty (font_name_safe weight_key file_ext : string) :
  Pathlib.str (cache_path font_name_safe weight_key file_ext) <> "".
Proof.
  unfold cache_path, Pathlib.div.
  set (q := Pathlib.of_string _).
  destruct (Str.nonempty (Pathlib.anchor q)) eqn:E.
  - now apply str_anchored.
  - cbv -[q Pathlib.parts]. discriminate.
Qed.

Lemma str_resolved_nonempty (k : Key) :
  Pathlib.str (Pathlib.resolved k) <> "".
Proof. now apply str_anchored. Qed.

Lemma chosen_url_in_map (m : Dict.t Z string) (weight : Z) (u : string) :
  chosen_url m weight = Some u -> In u (Dict.values m).
Proof.
  unfold chosen_url.
  assert (Hget : forall k, Dict.get Z.eqb m k = Some u -> In u (Dict.values m)).
  { intros k H. apply (@get_in _ _ Z.eqb Z.eqb_eq) in H.
    unfold Dict.values. apply in_map_iff. exists (k, u). auto. }
  destruct (negb (truthy_str (Dict.get Z.eqb m weight)) && Dict.truthy m).
  - destruct (closest_weight m weight) as [a|]; [apply Hget|discriminate].
  - apply Hget.
Qed.

Lemma target_cache_path (font_name_safe : string) (m : Dict.t Z string)
      (weight : Z) (p : string) :
  target font_name_safe m weight = Some p -> cache_path_of font_name_safe p.
Proof.
  unfold target.
  destruct (chosen_url m weight) as [[|c url]|]; try discriminate.
  intros [= <-]. exists (weight_key_of weight), (file_ext_of (String c url)).
  split; [|split; [|reflexivity]].
  - unfold weight_key_of, weight_map. simpl.
    destruct (Z.eqb weight 300); [simpl; tauto|].
    destruct (Z.eqb weight 400); [simpl; tauto|].
    destruct (Z.eqb weight 700); simpl; tauto.
  - unfold file_ext_of. destruct (Str.endswith _ _); auto.
Qed.

Lemma target_nonempty (font_name_safe : string) (m : Dict.t Z string)
      (weight : Z) (p : string) :
  target font_name_safe m weight = Some p -> p <> "".
Proof.
  unfold target.
  destruct (chosen_url m weight) as [[|c url]|]; try discriminate.
  intros [= <-]. apply cache_path_nonempty.
Qed.

(** One turn of the loop over the weights, case by case: no URL for the
    weight; the cache path is an entry; [exists()] raises at line 102;
    the asset is fetched, with or without success. *)
Lemma download_weight_step (font_family font_name_safe : string)
      (m : Dict.t Z string) (ff : FontFiles) (weight : Z) (w : World) :
  let key := weight_key_of weight in
  let run := download_weight font_family font_name_safe m ff weight w in
  match target font_name_safe m weight with
  | None => exists msgs, failures msgs = 0 /\ run = (Ok ff, add_out msgs w)
  | Some p =>
      match node_at w (realpath w p) with
      | Some _ =>
          exists msgs,
            failures msgs = 0
            /\ run = (Ok (Dict.set String.eqb ff key p), add_out msgs w)
      | None =>
          match stat_error w (realpath w p) with
          | Some e =>
              exists msgs, failures msgs = 0 /\ run = (Raised e, add_out msgs w)
          | None =>
              exists u (stored : bool) w',
                chosen_url m weight = Some u
                /\ run = (Ok (if stored then Dict.set String.eqb ff key p
                              else ff), w')
                /\ same_env w w'
                /\ sent w' = GetUrl u :: sent w
                /\ if stored
                   then keeps w w'
                        /\ node_at w' (realpath w p) <> None
                        /\ failures (stdout w') = failures (stdout w)
                   else nodes w' = nodes w
                        /\ failures (stdout w') = S (failures (stdout w))
          end
      end
  end.
Proof.
  cbv zeta. unfold download_weight, target.
  destruct (find_weight_url_run m (weight_key_of weight) weight w)
    as (msgs & Hfind & Hquiet).
  rewrite bind_ok with (1 := Hfind).
  destruct (chosen_url m weight) as [[|c url]|] eqn:Eurl.
  - exists msgs. split; [exact Hquiet|reflexivity].
  - set (p := Pathlib.str (cache_path font_name_safe (weight_key_of weight)
                                      (file_ext_of (String c url)))).
    set (k := realpath w p).
    assert (Hloc : locate p (add_out msgs w) = (Ok k, add_out msgs w))
      by reflexivity.
    rewrite bind_ok with (1 := Hloc).
    assert (Hout : failures (msgs ++ stdout w) = failures (stdout w))
      by (rewrite failures_app; lia).
    destruct (node_at w k) as [n|] eqn:Enode.
    + assert (Hn : node_at (add_out msgs w) k = Some n) by exact Enode.
      rewrite bind_ok with (1 := @path_exists_found k _ _ Hn). cbn [negb].
      exists (MsgUsingCached font_family (weight_key_of weight) :: msgs).
      split; [exact Hquiet|reflexivity].
    + assert (Hn : node_at (add_out msgs w) k = None) by exact Enode.
      pose proof (@path_exists_absent k _ Hn) as Hpe.
      change (stat_error (add_out msgs w) k) with (stat_error w k) in Hpe.
      destruct (stat_error w k) as [e|] eqn:Estat.
      * rewrite bind_raised with (1 := Hpe).
        exists msgs. split; [exact Hquiet|reflexivity].
      * rewrite bind_ok with (1 := Hpe). cbn [negb].
        rewrite bind_ok with (1 := print_say _ _).
        set (w1 := say (MsgDownloading font_family (weight_key_of weight)
                                       weight) (add_out msgs w)).
        destruct (@fetch_asset_run (weight_key_of weight) (String c url) k w1
                                   Enode)
          as (stored & w' & Hrun & Henv & Hsent & Hcases).
        rewrite bind_ok with (1 := Hrun).
        destruct Hcases as [(content & -> & Hk & Hnodes & Hstd)
                           |(e & -> & Hnodes & Hstd)].
        -- destruct (@keeps_stored w1 w' k (File content) Hk Enode Hnodes)
             as [Hkeeps Hp].
           exists (String c url), true, w'. split; [reflexivity|].
           split; [reflexivity|]. split; [exact Henv|].
           split; [exact Hsent|]. split; [exact Hkeeps|].
           split; [congruence|]. rewrite Hstd. exact Hout.
        -- exists (String c url), false, w'. split; [reflexivity|].
           split; [reflexivity|]. split; [exact Henv|].
           split; [exact Hsent|]. split; [exact Hnodes|].
           rewrite Hstd. cbn. f_equal. exact Hout.
  - exists msgs. split; [exact Hquiet|reflexivity].
Qed.

(** One turn of the loop over the weights, with all it does whatever
    the case. *)
Lemma download_weight_effects (font_family font_name_safe : string)
      (m : Dict.t Z string) (ff : FontFiles) (weight : Z) (w : World) :
  exists r w',
    download_weight font_family font_name_safe m ff weight w = (r, w')
    /\ same_env w w'
    /\ keeps w w'
    /\ failures (stdout w) <= failures (stdout w')
    /\ (sent w' = sent w
        \/ exists u, chosen_url m weight = Some u
                     /\ sent w' = GetUrl u :: sent w)
    /\ (forall ff', r = Ok ff' ->
          (ff' = ff
           \/ exists p, target font_name_safe m weight = Some p
                        /\ ff' = Dict.set String.eqb ff (weight_key_of weight) p
                        /\ node_at w' (realpath w p) <> None)
          /\ (failures (stdout w') = failures (stdout w) ->
              forall p, target font_name_safe m weight = Some p ->
                        node_at w' (realpath w p) <> None)).
Proof.
  pose proof (download_weight_step font_family font_name_safe m ff weight w)
    as Hstep. cbv zeta in Hstep.
  destruct (target font_name_safe m weight) as [p|] eqn:Etarget.
  2: { destruct Hstep as (msgs & Hq & Hrun).
       destruct (@add_out_effects msgs w Hq) as (He & Hk & Hf).
       eexists _, _. split; [exact Hrun|]. split; [exact He|].
       split; [exact Hk|]. split; [lia|]. split; [now left|].
       intros ff' [= <-]. split; [now left|discriminate]. }
  destruct (node_at w (realpath w p)) as [n|] eqn:Enode.
  { destruct Hstep as (msgs & Hq & Hrun).
    destruct (@add_out_effects msgs w Hq) as (He & Hk & Hf).
    eexists _, _. split; [exact Hrun|]. split; [exact He|].
    split; [exact Hk|]. split; [lia|]. split; [now left|].
    assert (Hp : node_at (add_out msgs w) (realpath w p) <> None)
      by (change (node_at w (realpath w p) <> None); congruence).
    intros ff' [= <-]. split.
    - right. exists p. auto.
    - intros _ p' [= <-]. exact Hp. }
  destruct (stat_error w (realpath w p)) as [e|] eqn:Estat.
  { destruct Hstep as (msgs & Hq & Hrun).
    destruct (@add_out_effects msgs w Hq) as (He & Hk & Hf).
    eexists _, _. split; [exact Hrun|]. split; [exact He|].
    split; [exact Hk|]. split; [lia|]. split; [now left|].
    discriminate. }
  destruct Hstep as (u & stored & w' & Hu & Hrun & He & Hsent & Hcase).
  eexists _, _. split; [exact Hrun|]. split; [exact He|].
  destruct stored.
  - destruct Hcase as (Hk & Hp & Hf).
    split; [exact Hk|]. split; [lia|]. split; [right; eauto|].
    intros ff' [= <-]. split.
    + right. exists p. auto.
    + intros _ p' [= <-]. exact Hp.
  - destruct Hcase as (Hn & Hf).
    split; [now apply keeps_same_nodes|]. split; [lia|].
    split; [right; eauto|].
    intros ff' [= <-]. split; [now left|]. intro H. lia.
Qed.

(** The loop over the weights, with all it does.  It raises only what
    [exists()] raises at line 102; every request is for a URL of the
    mapping; when it ends without a failed download, every cache path of
    a requested weight is an entry. *)
Lemma weights_loop_effects (font_family font_name_safe : string)
      (m : Dict.t Z string) (ws : list Z) :
  forall (ff : FontFiles) (w : World),
  exists r w' reqs,
    for_each ws (download_weight font_family font_name_safe m) ff w = (r, w')
    /\ same_env w w'
    /\ keeps w w'
    /\ failures (stdout w) <= failures (stdout w')
    /\ sent w' = (reqs ++ sent w)%list
    /\ List.length reqs <= List.length ws
    /\ Forall (fun q => exists u, In u (Dict.values m) /\ q = GetUrl u) reqs
    /\ (forall ff', r = Ok ff' ->
          (nonempty_values ff -> nonempty_values ff')
          /\ (forall key p, Dict.get String.eqb ff' key = Some p ->
                Dict.get String.eqb ff key = Some p
                \/ (cache_path_of font_name_safe p
                    /\ node_at w' (realpath w p) <> None))
          /\ (failures (stdout w') = failures (stdout w) ->
              forall weight p, In weight ws ->
                target font_name_safe m weight = Some p ->
                node_at w' (realpath w p) <> None)).
Proof.
  induction ws as [|x ws IH]; intros ff w.
  - exists (Ok ff), w, []. split; [reflexivity|]. split; [apply same_env_refl|].
    split; [apply keeps_refl|]. split; [lia|]. split; [reflexivity|].
    split; [simpl; lia|]. split; [constructor|].
    intros ff' [= <-]. split; [auto|]. split; [auto|]. intros _ weight p [].
  - destruct (download_weight_effects font_family font_name_safe m ff x w)
      as (r1 & w1 & Hrun & Henv1 & Hk1 & Hf1 & Hsent1 & Hok1).
    assert (Hreqs1 : exists reqs1,
               sent w1 = (reqs1 ++ sent w)%list
               /\ List.length reqs1 <= 1
               /\ Forall (fun q => exists u, In u (Dict.values m)
                                             /\ q = GetUrl u) reqs1).
    { destruct Hsent1 as [Hs|(u & Hu & Hs)].
      - exists []. split; [exact Hs|]. split; [simpl; lia|constructor].
      - exists [GetUrl u]. split; [exact Hs|]. split; [simpl; lia|].
        constructor; [|constructor]. exists u. split; [|reflexivity].
        exact (chosen_url_in_map _ _ Hu). }
    destruct Hreqs1 as (reqs1 & Hs1 & Hlen1 & Hall1).
    cbn [for_each]. destruct r1 as [ff1|e].
    2: { exists (Raised e), w1, reqs1.
         split; [now apply bind_raised|]. split; [exact Henv1|].
         split; [exact Hk1|]. split; [exact Hf1|]. split; [exact Hs1|].
         split; [simpl; lia|]. split; [exact Hall1|]. discriminate. }
    rewrite bind_ok with (1 := Hrun).
    destruct (IH ff1 w1)
      as (r & w' & reqs & Hloop & Henv & Hk & Hf & Hsent & Hlen & Hreqs & Hok).
    assert (Hreal : realpath w1 = realpath w) by apply Henv1.
    destruct (Hok1 ff1 eq_refl) as (Hff1 & Hp1).
    exists r, w', (reqs ++ reqs1)%list. split; [exact Hloop|].
    split; [exact (same_env_trans Henv1 Henv)|].
    split; [exact (keeps_trans Hk1 Hk)|]. split; [lia|].
    split; [now rewrite Hsent, Hs1, app_assoc|].
    split; [rewrite length_app; simpl; lia|].
    split; [apply Forall_app; auto|].
    intros ff' Hr. destruct (Hok ff' Hr) as (Hval & Hvals & Hall).
    split; [|split].
    + intro Hff. apply Hval.
      destruct Hff1 as [->|(p1 & Ht & -> & _)]; [exact Hff|].
      apply nonempty_values_set; [exact Hff|].
      exact (target_nonempty _ _ _ Ht).
    + intros key p Hget. destruct (Hvals key p Hget) as [Hin|[Hc Hn]].
      * destruct Hff1 as [->|(p1 & Ht & -> & Hn1)]; [now left|].
        destruct (String.eqb key (weight_key_of x)) eqn:Ekey.
        -- apply String.eqb_eq in Ekey. subst key.
           rewrite (get_set_same _ String.eqb_eq) in Hin.
           injection Hin as <-. right. split.
           ++ exact (target_cache_path _ _ _ Ht).
           ++ destruct (node_at w1 (realpath w p1)) as [n|] eqn:E;
                [|congruence].
              rewrite (Hk _ _ E). discriminate.
        -- rewrite get_set_other in Hin; [now left|apply String.eqb_eq|].
           intros ->. now rewrite String.eqb_refl in Ekey.
      * right. split; [exact Hc|]. now rewrite <- Hreal.
    + intros Hquiet weight p [<-|Hin] Ht.
      * assert (Hn1 : node_at w1 (realpath w p) <> None)
          by (apply Hp1; [lia|exact Ht]).
        destruct (node_at w1 (realpath w p)) as [n|] eqn:E; [|congruence].
        rewrite (Hk _ _ E). discriminate.
      * rewrite <- Hreal. apply (Hall ltac:(lia) weight p Hin Ht).
Qed.

(* ================================================================== *)
(** * Complete font sets: the three functions *)

Lemma nonempty_values_get (d : FontFiles) (k v : string) :
  nonempty_values d -> Dict.get String.eqb d k = Some v -> v <> "".
Proof.
  intros Hd Hget. apply (@get_in _ _ String.eqb String.eqb_eq) in Hget.
  unfold nonempty_values in Hd. rewrite Forall_forall in Hd.
  exact (Hd _ Hget).
Qed.

Lemma complete_intro (d : FontFiles) :
  nonempty_values d ->
  (forall key, In key roles -> Dict.mem String.eqb d key = true) ->
  complete d.
Proof.
  intros Hd Hmem key Hkey. specialize (Hmem key Hkey).
  unfold Dict.mem in Hmem.
  destruct (Dict.get String.eqb d key) as [p|] eqn:E; [|discriminate].
  exists p. split; [reflexivity|]. eapply nonempty_values_get; eauto.
Qed.

Lemma ensure_regular_run (d : FontFiles) (w w' : World)
      (r : Result FontFiles) :
  ensure_regular d w = (r, w') ->
  exists d1,
    r = Ok d1
    /\ (nonempty_values d -> nonempty_values d1)
    /\ (d = [] -> d1 = [])
    /\ (d <> [] -> Dict.mem String.eqb d1 "regular" = true).
Proof.
  unfold ensure_regular.
  destruct (Dict.mem String.eqb d "regular") eqn:Emem.
  - cbn [negb andb]. intros [= <- <-]. exists d. auto.
  - destruct d as [|[k0 v0] d].
    + intros [= <- <-]. exists []. repeat split; auto.
    + cbn [negb andb Dict.truthy Dict.values List.map snd].
      set (d1 := Dict.set String.eqb ((k0, v0) :: d) "regular" v0).
      assert (Hkeys : exists key rest, Dict.keys d1 = key :: rest).
      { pose proof (set_nonempty String.eqb ((k0, v0) :: d) "regular" v0)
          as Hne.
        fold d1 in Hne. destruct d1 as [|[key v] rest]; [discriminate|].
        cbn. eauto. }
      destruct Hkeys as (key & rest & ->).
      intros [= <- <-]. exists d1. split; [reflexivity|]. split; [|split].
      * intro Hd. apply nonempty_values_set; [exact Hd|].
        inversion Hd; assumption.
      * discriminate.
      * intros _. unfold d1. rewrite (mem_set _ String.eqb_eq).
        reflexivity.
Qed.

Lemma duplicate_regular_run (key : string) (note : Msg) (d : FontFiles)
      (w w' : World) (r : Result FontFiles) :
  duplicate_regular key note d w = (r, w') ->
  exists d2,
    r = Ok d2
    /\ (nonempty_values d -> nonempty_values d2)
    /\ (d = [] -> d2 = [])
    /\ (forall k, Dict.mem String.eqb d k = true ->
                  Dict.mem String.eqb d2 k = true)
    /\ (Dict.mem String.eqb d "regular" = true ->
        Dict.mem String.eqb d2 key = true).
Proof.
  unfold duplicate_regular.
  destruct (Dict.mem String.eqb d key) eqn:Ekey.
  - cbn [negb andb]. intros [= <- <-]. exists d. auto.
  - cbn [negb andb].
    destruct (Dict.mem String.eqb d "regular") eqn:Ereg.
    + unfold copy_regular, Dict.mem in *.
      destruct (Dict.get String.eqb d "regular") as [v|] eqn:Eget;
        [|discriminate].
      intros [= <- <-]. exists (Dict.set String.eqb d key v).
      split; [reflexivity|]. split; [|split; [|split]].
      * intro Hd. apply nonempty_values_set; [exact Hd|].
        eapply nonempty_values_get; eauto.
      * intros ->. discriminate.
      * intros k Hk. fold (Dict.mem String.eqb (Dict.set String.eqb d key v) k).
        rewrite (mem_set _ String.eqb_eq). destruct (String.eqb k key); auto.
      * intros _. now rewrite (get_set_same _ String.eqb_eq).
    + intros [= <- <-]. exists d. repeat split; auto. discriminate.
Qed.

(** Lines 116-128 turn any non-empty dictionary of non-empty paths into a
    complete font set, and leave an empty one empty. *)
Lemma fill_roles_run (d : FontFiles) (w w' : World) (r : Result FontFiles) :
  fill_roles d w = (r, w') ->
  nonempty_values d ->
  exists d', r = Ok d' /\ (d = [] -> d' = []) /\ (d <> [] -> complete d').
Proof.
  unfold fill_roles. intros H Hd.
  apply bind_inv in H. destruct H as [(d1 & w1 & H1 & H)|(e & H1 & _)].
  2: { apply ensure_regular_run in H1. destruct H1 as (? & ? & _).
       discriminate. }
  apply ensure_regular_run in H1.
  destruct H1 as (d1' & [= <-] & Hv1 & He1 & Hm1).
  apply bind_inv in H. destruct H as [(d2 & w2 & H2 & H)|(e & H2 & _)].
  2: { apply duplicate_regular_run in H2. destruct H2 as (? & ? & _).
       discriminate. }
  apply duplicate_regular_run in H2.
  destruct H2 as (d2' & [= <-] & Hv2 & He2 & Hk2 & Hm2).
  apply duplicate_regular_run in H.
  destruct H as (d3 & -> & Hv3 & He3 & Hk3 & Hm3).
  exists d3. split; [reflexivity|]. split; [auto|].
  intro Hne. apply complete_intro; [auto|].
  specialize (Hm1 Hne).
  intros key [<-|[<-|[<-|[]]]]; auto.
Qed.

Lemma download_from_css_complete (font_family font_name_safe : string)
      (ws : list Z) (css_content : string) (w w' : World) (d : FontFiles) :
  download_from_css font_family font_name_safe ws css_content w
  = (Ok (Some d), w') ->
  complete d.
Proof.
  unfold download_from_css. intro H.
  apply bind_inv in H. destruct H as [(m & w1 & _ & H)|(e & _ & ?)];
    [|discriminate].
  destruct (weights_loop_effects font_family font_name_safe m ws [] w1)
    as (r & w3 & reqs & Hloop & _ & _ & _ & _ & _ & _ & Hok).
  apply bind_inv in H. destruct H as [(ff & w3' & Hloop' & H)|(e & _ & ?)];
    [|discriminate].
  rewrite Hloop in Hloop'. injection Hloop' as -> ->.
  destruct (Hok ff eq_refl) as (Hval & _).
  apply bind_inv in H. destruct H as [(ff' & w4 & Hfill & H)|(e & _ & ?)];
    [|discriminate].
  apply fill_roles_run in Hfill; [|apply Hval; constructor].
  destruct Hfill as (d' & [= <-] & Hempty & Hcomplete).
  unfold ret in H. destruct ff' as [|item ff']; [discriminate|].
  injection H as <- _. apply Hcomplete.
  intro Hff. apply Hempty in Hff. discriminate.
Qed.

Lemma download_body_complete (font_family font_name_safe : string)
      (ws : list Z) (w w' : World) (d : FontFiles) :
  download_body font_family font_name_safe ws w = (Ok (Some d), w') ->
  complete d.
Proof.
  unfold download_body. intro H.
  apply bind_inv in H. destruct H as [(resp & w1 & _ & H)|(e & _ & ?)];
    [|discriminate].
  apply bind_inv in H. destruct H as [(u & w2 & _ & H)|(e & _ & ?)];
    [|discriminate].
  exact (download_from_css_complete _ _ _ _ _ H).
Qed.

Lemma download_google_font_complete (font_family : string)
      (weights : option (list Z)) (w w' : World) (d : FontFiles) :
  download_google_font font_family weights w = (Ok (Some d), w') ->
  complete d.
Proof.
  unfold download_google_font. intro H.
  apply bind_inv in H. destruct H as [(k & w1 & _ & H)|(e & _ & ?)];
    [|discriminate].
  apply bind_inv in H. destruct H as [(u & w2 & _ & H)|(e & _ & ?)];
    [|discriminate].
  unfold try_except in H.
  destruct (download_body _ _ _ w2) as [[r|e] w3] eqn:Ebody.
  - injection H as -> ->. exact (download_body_complete _ _ _ _ Ebody).
  - discriminate.
Qed.

Lemma set_default_mem (d : FontFiles) (k v k' : string) :
  Dict.mem String.eqb (set_default d k v) k'
  = (String.eqb k' k || Dict.mem String.eqb d k').
Proof.
  unfold set_default.
  destruct (Dict.mem String.eqb d k) eqn:E.
  - destruct (String.eqb k' k) eqn:Ek; [|reflexivity].
    apply String.eqb_eq in Ek. subst. now rewrite E.
  - rewrite (mem_set _ String.eqb_eq). now destruct (String.eqb k' k).
Qed.

Lemma set_default_nonempty_values (d : FontFiles) (k v : string) :
  nonempty_values d -> v <> "" -> nonempty_values (set_default d k v).
Proof.
  intros Hd Hv. unfold set_default.
  destruct (Dict.mem String.eqb d k); [exact Hd|].
  now apply nonempty_values_set.
Qed.

Lemma match_weights_nonempty_values (cands : list Pathlib.path) :
  (forall c, In c cands -> Pathlib.str c <> "") ->
  nonempty_values (match_weights cands).
Proof.
  intro Hc. rewrite match_weights_unfold, !assign_first_find.
  unfold first_for.
  assert (Hstep : forall role d,
    nonempty_values d ->
    nonempty_values
      match find (matches_any (patterns_of role)) cands with
      | Some c => Dict.set String.eqb d role (Pathlib.str c)
      | None => d
      end).
  { intros role d Hd.
    destruct (find (matches_any (patterns_of role)) cands) as [c|] eqn:E;
      [|exact Hd].
    apply find_some in E. apply nonempty_values_set; [exact Hd|].
    apply Hc, E. }
  do 3 apply Hstep. constructor.
Qed.

(** Lines 232-248 leave a complete font set whenever there is a
    candidate. *)
Lemma fill_from_first_complete (cands : list Pathlib.path) :
  cands <> [] ->
  (forall c, In c cands -> Pathlib.str c <> "") ->
  complete (fill_from_first cands (match_weights cands)).
Proof.
  intros Hne Hc. pose proof (match_weights_nonempty_values cands Hc) as Hd.
  unfold fill_from_first. destruct cands as [|c cands]; [congruence|].
  assert (Hstr : Pathlib.str c <> "") by (apply Hc; now left).
  destruct (Dict.truthy (match_weights (c :: cands))).
  - apply complete_intro.
    + do 3 (apply set_default_nonempty_values; [|exact Hstr]). exact Hd.
    + intros key Hkey. rewrite !set_default_mem.
      destruct Hkey as [<-|[<-|[<-|[]]]]; reflexivity.
  - apply complete_intro.
    + repeat constructor; assumption.
    + intros key [<-|[<-|[<-|[]]]]; reflexivity.
Qed.

Lemma complete_truthy (d : FontFiles) : complete d -> Dict.truthy d = true.
Proof.
  intro H. destruct (H "regular") as (p & Hp & _); [simpl; tauto|].
  destruct d; [discriminate|reflexivity].
Qed.

Lemma reads_ret (A : Type) (a : A) : reads (ret a).
Proof. intro w. exists a, []. unfold ret. now rewrite add_out_nil. Qed.

Lemma reads_print (m : Msg) : reads (print m).
Proof. intro w. exists tt, [m]. reflexivity. Qed.

Lemma reads_bind (A B : Type) (c : M A) (k : A -> M B) :
  reads c -> (forall a, reads (k a)) -> reads (bind c k).
Proof.
  intros Hc Hk w. destruct (Hc w) as (a & msgs & Ha).
  destruct (Hk a (add_out msgs w)) as (b & msgs' & Hb).
  exists b, (msgs' ++ msgs)%list.
  rewrite bind_ok with (1 := Ha). now rewrite Hb, add_out_app.
Qed.

Lemma reads_query (A : Type) (f : World -> A) : reads (fun w => (Ok (f w), w)).
Proof. intro w. exists (f w), []. now rewrite add_out_nil. Qed.

Lemma reads_for_each (A S : Type) (body : S -> A -> M S) (xs : list A) :
  (forall s x, reads (body s x)) -> forall s, reads (for_each xs body s).
Proof.
  intro Hbody. induction xs as [|x xs IH]; intro s; cbn [for_each].
  - apply reads_ret.
  - apply reads_bind; [apply Hbody|exact IH].
Qed.

Lemma font_candidates_in_run (k : Key) (w : World) :
  font_candidates_in k w = (Ok (candidates_of w k), w).
Proof. reflexivity. Qed.

Ltac reads_tac :=
  repeat first
    [ apply reads_ret
    | apply reads_print
    | apply reads_bind; [|intro]
    | match goal with
      | |- reads (if ?b then _ else _) => destruct b
      | |- reads (match ?x with _ => _ end) => destruct x
      end ].

(** The run of [load_fonts_from_path], case by case. *)
Lemma load_fonts_from_path_run (font_path : string) (w : World) :
  let k := realpath w font_path in
  let p := Pathlib.str (Pathlib.resolved k) in
  let suffix := Pathlib.suffix (Pathlib.resolved k) in
  let run := load_fonts_from_path font_path w in
  match node_at w k with
  | None =>
      match resolve_error w font_path with
      | Some e => run = (Raised e, w)
      | None =>
          match stat_error w k with
          | Some e => run = (Raised e, w)
          | None => run = (Ok None, say (MsgPathMissing p) w)
          end
      end
  | Some (File _) =>
      if supported suffix
      then run = (Ok (Some [("bold", p); ("regular", p); ("light", p)]),
                  say (MsgLoadedFile p) w)
      else run = (Ok None, say (MsgUnsupported suffix) w)
  | Some Dir =>
      match candidates_of w k with
      | [] => run = (Ok None, say (MsgNoFontFiles p) w)
      | c0 :: rest =>
          exists msgs,
            run = (Ok (Some (fill_from_first (c0 :: rest)
                                             (match_weights (c0 :: rest)))),
                   add_out msgs w)
      end
  | Some Special => run = (Ok None, say (MsgInvalidPath p) w)
  end.
Proof.
  cbv zeta. unfold load_fonts_from_path.
  set (k := realpath w font_path).
  destruct (node_at w k) as [[content| |]|] eqn:Enode.
  - rewrite bind_ok with (1 := @resolve_found font_path w _ Enode).
    rewrite bind_ok with (1 := @path_exists_found _ w _ Enode). cbn [negb].
    rewrite bind_ok with (1 := @is_file_found _ w _ Enode). cbv iota.
    fold k. now destruct (supported (Pathlib.suffix (Pathlib.resolved k))).
  - rewrite bind_ok with (1 := @resolve_found font_path w _ Enode).
    rewrite bind_ok with (1 := @path_exists_found _ w _ Enode). cbn [negb].
    rewrite bind_ok with (1 := @is_file_found _ w _ Enode). cbv iota.
    rewrite bind_ok with (1 := @is_dir_found _ w _ Enode). cbv iota.
    fold k. rewrite bind_ok with (1 := font_candidates_in_run k w).
    destruct (candidates_of w k) as [|c0 rest] eqn:Ecands; [reflexivity|].
    assert (Hcomplete : complete (fill_from_first (c0 :: rest)
                                    (match_weights (c0 :: rest)))).
    { apply fill_from_first_complete; [discriminate|].
      intros c Hin. rewrite <- Ecands in Hin. apply in_map_iff in Hin.
      destruct Hin as (f & <- & _). apply str_resolved_nonempty. }
    rewrite (complete_truthy Hcomplete).
    rewrite bind_ok with (1 := print_say _ w).
    assert (Hloop : reads (for_each (fill_from_first (c0 :: rest)
                                       (match_weights (c0 :: rest)))
                             (fun (_ : unit) (item : string * string) =>
                                print (MsgDirEntry (fst item)
                                         (Pathlib.name
                                            (Pathlib.of_string (snd item)))))
                             tt)).
    { apply reads_for_each. intros s x. apply reads_print. }
    destruct (Hloop (say (MsgLoadedDir (Pathlib.str (Pathlib.resolved k))) w))
      as ([] & msgs & Hrun).
    rewrite bind_ok with (1 := Hrun). unfold ret.
    eexists. unfold say. now rewrite add_out_app.
  - rewrite bind_ok with (1 := @resolve_found font_path w _ Enode).
    rewrite bind_ok with (1 := @path_exists_found _ w _ Enode). cbn [negb].
    rewrite bind_ok with (1 := @is_file_found _ w _ Enode). cbv iota.
    rewrite bind_ok with (1 := @is_dir_found _ w _ Enode). reflexivity.
  - pose proof (@resolve_absent font_path w Enode) as Hres.
    destruct (resolve_error w font_path) as [e|].
    + now rewrite bind_raised with (1 := Hres).
    + rewrite bind_ok with (1 := Hres).
      pose proof (@path_exists_absent k w Enode) as Hpe.
      destruct (stat_error w k) as [e|].
      * now rewrite bind_raised with (1 := Hpe).
      * now rewrite bind_ok with (1 := Hpe).
Qed.

Lemma load_fonts_from_path_complete (font_path : string) (w w' : World)
      (d : FontFiles) :
  load_fonts_from_path font_path w = (Ok (Some d), w') -> complete d.
Proof.
  pose proof (load_fonts_from_path_run font_path w) as Hrun.
  cbv zeta in Hrun. set (k := realpath w font_path) in *.
  destruct (node_at w k) as [[content| |]|].
  - destruct (supported (Pathlib.suffix (Pathlib.resolved k)));
      rewrite Hrun; [|discriminate].
    intros [= <- _]. apply complete_intro.
    + repeat constructor; apply str_resolved_nonempty.
    + intros key [<-|[<-|[<-|[]]]]; reflexivity.
  - destruct (candidates_of w k) as [|c0 rest] eqn:Ecands;
      [rewrite Hrun; discriminate|].
    assert (Hc : forall c, In c (c0 :: rest) -> Pathlib.str c <> "").
    { intros c Hin. rewrite <- Ecands in Hin. apply in_map_iff in Hin.
      destruct Hin as (f & <- & _). apply str_resolved_nonempty. }
    destruct Hrun as (msgs & ->). intros [= <- _].
    exact (@fill_from_first_complete (c0 :: rest) ltac:(discriminate) Hc).
  - rewrite Hrun. discriminate.
  - destruct (resolve_error w font_path); [rewrite Hrun; discriminate|].
    destruct (stat_error w k); rewrite Hrun; discriminate.
Qed.

(** [load_fonts_from_path] returns after printing, or raises and leaves
    the world as it was. *)
Lemma load_fonts_from_path_outcome (font_path : string) (w : World) :
  (exists result msgs,
      load_fonts_from_path font_path w = (Ok result, add_out msgs w))
  \/ (exists e, load_fonts_from_path font_path w = (Raised e, w)).
Proof.
  pose proof (load_fonts_from_path_run font_path w) as Hrun.
  cbv zeta in Hrun. set (k := realpath w font_path) in *.
  destruct (node_at w k) as [[content| |]|].
  - left. destruct (supported (Pathlib.suffix (Pathlib.resolved k)));
      rewrite Hrun; eexists _, [_]; reflexivity.
  - left. destruct (candidates_of w k) as [|c0 rest].
    + rewrite Hrun. eexists _, [_]. reflexivity.
    + destruct Hrun as (msgs & ->). eauto.
  - left. rewrite Hrun. eexists _, [_]. reflexivity.
  - destruct (resolve_error w font_path) as [e|]; [right; eauto|].
    destruct (stat_error w k) as [e|]; [right; eauto|].
    left. rewrite Hrun. eexists _, [_]. reflexivity.
Qed.

Lemma default_fonts_complete : complete default_fonts.
Proof.
  apply complete_intro.
  - repeat constructor; discriminate.
  - intros key [<-|[<-|[<-|[]]]]; reflexivity.
Qed.

Lemma load_default_fonts_complete (w w' : World) (d : FontFiles) :
  load_default_fonts w = (Ok (Some d), w') -> complete d.
Proof.
  unfold load_default_fonts. intro H.
  apply bind_inv in H. destruct H as [([|] & w1 & _ & H)|(e & _ & ?)];
    try discriminate.
  injection H as <- _. apply default_fonts_complete.
Qed.

Lemma load_local_or_default_complete (font_path : option string)
      (w w' : World) (d : FontFiles) :
  load_local_or_default font_path w = (Ok (Some d), w') -> complete d.
Proof.
  unfold load_local_or_default.
  destruct font_path as [[|c p]|];
    try exact (@load_default_fonts_complete w w' d).
  intro H. apply bind_inv in H.
  destruct H as [(fonts & w1 & Hlocal & H)|(e & _ & ?)]; [|discriminate].
  destruct (truthy_fonts fonts) eqn:Etruthy.
  - injection H as -> ->. exact (load_fonts_from_path_complete _ _ Hlocal).
  - apply bind_inv in H.
    destruct H as [(u & w2 & _ & H)|(e & _ & ?)]; [|discriminate].
    exact (load_default_fonts_complete _ H).
Qed.

Lemma load_fonts_complete (font_family font_path : option string)
      (w w' : World) (d : FontFiles) :
  load_fonts font_family font_path w = (Ok (Some d), w') -> complete d.
Proof.
  unfold load_fonts.
  destruct font_family as [[|c family]|];
    try exact (@load_local_or_default_complete font_path w w' d).
  destruct (negb (String.eqb (Str.lower (String c family)) "roboto"));
    [|exact (@load_local_or_default_complete font_path w w' d)].
  intro H. apply bind_inv in H.
  destruct H as [(u & w1 & _ & H)|(e & _ & ?)]; [|discriminate].
  apply bind_inv in H.
  destruct H as [(fonts & w2 & Hremote & H)|(e & _ & ?)]; [|discriminate].
  destruct (truthy_fonts fonts).
  - apply bind_inv in H.
    destruct H as [(u' & w3 & _ & H)|(e & _ & ?)]; [|discriminate].
    injection H as -> _. exact (download_google_font_complete _ _ _ Hremote).
  - apply bind_inv in H.
    destruct H as [(u' & w3 & _ & H)|(e & _ & ?)]; [|discriminate].
    exact (load_local_or_default_complete _ _ H).
Qed.

(** C1. Whenever [download_google_font], [load_fonts_from_path] or
    [load_fonts] returns a font set instead of [None], the set binds each
    of the keys light, regular and bold to a non-empty path. *)
Theorem returned_font_set_is_complete :
  forall (c : Call) (w w' : World) (d : FontFiles),
    run c w = (Ok (Some d), w') -> complete d.
Proof.
  intros [font_family weights|font_path|font_family font_path] w w' d H;
    simpl in H.
  - exact (download_google_font_complete _ _ _ H).
  - exact (load_fonts_from_path_complete _ _ H).
  - exact (load_fonts_complete _ _ _ H).
Qed.

Lemma with_final_world (A : Type) (x : Result A * World) (r : Result A) :
  fst x = r -> x = (r, snd x).
Proof. intros <-. apply surjective_pairing. Qed.

Lemma returned_font_set_is_complete_witness :
  complete [("light", "fonts/cache/demo_sans_light.woff2");
            ("regular", "fonts/cache/demo_sans_regular.woff2");
            ("bold", "fonts/cache/demo_sans_bold.woff2")].
Proof.
  apply (@returned_font_set_is_complete
           (CallLoad (Some "Demo Sans") (Some "faces")) (demo_world 200)
           (snd (run (CallLoad (Some "Demo Sans") (Some "faces"))
                     (demo_world 200)))).
  apply with_final_world. vm_compute. reflexivity.
Defined.

(* ================================================================== *)
(** * The bundled default *)

Lemma load_local_or_default_cases (font_path : option string) (w w' : World)
      (r : Result (option FontFiles)) :
  load_local_or_default font_path w = (r, w') ->
  (exists e, r = Raised e)
  \/ (exists p w1 d, load_fonts_from_path p w = (Ok (Some d), w1)
                     /\ r = Ok (Some d))
  \/ (exists w0, load_default_fonts w0 = (r, w')).
Proof.
  unfold load_local_or_default.
  destruct font_path as [[|c p]|]; try (intro H; right; right; eauto; fail).
  unfold bind at 1.
  destruct (load_fonts_from_path (String c p) w) as [[fonts|e] w1] eqn:Elocal;
    [|intros [= <- _]; left; eauto].
  destruct fonts as [d|]; cbn [truthy_fonts].
  - destruct (Dict.truthy d) eqn:Ed.
    + intros [= <- _]. right. left. eauto.
    + rewrite bind_ok with (1 := print_say _ w1).
      intro H. right. right. eauto.
  - rewrite bind_ok with (1 := print_say _ w1).
    intro H. right. right. eauto.
Qed.

(** C5. The bundled-default stage (lines 299-312) returns the three fixed
    Roboto paths when all three files exist and [None] as soon as one of
    them is absent; it returns nothing else.  A call of [load_fonts]
    that raises nothing returns what the remote or the local stage
    found, or else what this stage returns; a call without family and
    path is this stage. *)
Theorem default_stage_is_all_or_nothing :
  (forall w : World,
      exists w',
        load_default_fonts w
        = (Ok (if defaults_present w then Some default_fonts else None), w'))
  /\ default_fonts = [ ("bold", "fonts/Roboto-Bold.ttf");
                       ("regular", "fonts/Roboto-Regular.ttf");
                       ("light", "fonts/Roboto-Light.ttf") ]
  /\ (forall (font_family font_path : option string) (w w' : World)
             (r : Result (option FontFiles)),
        load_fonts font_family font_path w = (r, w') ->
        (exists e, r = Raised e)
        \/ (exists family w0 w1 d,
               download_google_font family None w0 = (Ok (Some d), w1)
               /\ r = Ok (Some d))
        \/ (exists p w0 w1 d,
               load_fonts_from_path p w0 = (Ok (Some d), w1)
               /\ r = Ok (Some d))
        \/ (exists w0,
               load_default_fonts w0 = (r, w')
               /\ r = Ok (if defaults_present w0 then Some default_fonts
                          else None)))
  /\ (forall w : World, load_fonts None None w = load_default_fonts w).
Proof.
  assert (Hstage : forall w : World,
    exists w',
      load_default_fonts w
      = (Ok (if defaults_present w then Some default_fonts else None), w')).
  { intro w.
    unfold load_default_fonts, defaults_present, default_fonts, present.
    unfold verify_fonts, bind, locate, os_path_exists, ret, print. simpl.
    destruct (node_at w (realpath w (os_path_join FONTS_DIR "Roboto-Bold.ttf")));
      simpl; [|eexists; reflexivity].
    destruct (node_at w
                (realpath w (os_path_join FONTS_DIR "Roboto-Regular.ttf")));
      simpl; [|eexists; reflexivity].
    destruct (node_at w (realpath w (os_path_join FONTS_DIR "Roboto-Light.ttf")));
      simpl; eexists; reflexivity. }
  assert (Hlocal : forall font_path w w' r,
    load_local_or_default font_path w = (r, w') ->
    (exists e, r = Raised e)
    \/ (exists family w0 w1 d,
           download_google_font family None w0 = (Ok (Some d), w1)
           /\ r = Ok (Some d))
    \/ (exists p w0 w1 d,
           load_fonts_from_path p w0 = (Ok (Some d), w1) /\ r = Ok (Some d))
    \/ (exists w0,
           load_default_fonts w0 = (r, w')
           /\ r = Ok (if defaults_present w0 then Some default_fonts
                      else None))).
  { intros font_path w w' r H.
    apply load_local_or_default_cases in H.
    destruct H as [H|[(p & w1 & d & H & ->)|(w0 & H)]].
    - now left.
    - right. right. left. eauto 6.
    - right. right. right. exists w0. split; [exact H|].
      destruct (Hstage w0) as (w0' & Hw0). rewrite Hw0 in H.
      now injection H as <- _. }
  split; [exact Hstage|]. split; [reflexivity|]. split; [|reflexivity].
  intros font_family font_path w w' r. unfold load_fonts.
  destruct font_family as [[|c family]|]; try apply Hlocal.
  destruct (negb (String.eqb (Str.lower (String c family)) "roboto"));
    [|apply Hlocal].
  rewrite bind_ok with (1 := print_say _ w).
  unfold bind at 1.
  destruct (download_google_font (String c family) None
                                 (say (MsgLoadingGoogle (String c family)) w))
    as [[fonts|e] w1] eqn:Eremote; [|intros [= <- _]; left; eauto].
  destruct fonts as [d|]; cbn [truthy_fonts].
  - destruct (Dict.truthy d).
    + rewrite bind_ok with (1 := print_say _ w1).
      intros [= <- _]. right. left. eauto 6.
    + rewrite bind_ok with (1 := print_say _ w1). apply Hlocal.
  - rewrite bind_ok with (1 := print_say _ w1). apply Hlocal.
Qed.

Lemma default_stage_is_all_or_nothing_witness :
  let run := load_fonts (Some "Roboto") (Some "missing") roboto_world in
  (exists w', load_default_fonts roboto_world = (Ok (Some default_fonts), w'))
  /\ (exists w', load_default_fonts (demo_world 200) = (Ok None, w'))
  /\ fst run = Ok (Some default_fonts)
  /\ ((exists e, fst run = Raised e)
      \/ (exists family w0 w1 d,
             download_google_font family None w0 = (Ok (Some d), w1)
             /\ fst run = Ok (Some d))
      \/ (exists p w0 w1 d,
             load_fonts_from_path p w0 = (Ok (Some d), w1)
             /\ fst run = Ok (Some d))
      \/ (exists w0,
             load_default_fonts w0 = (fst run, snd run)
             /\ fst run = Ok (if defaults_present w0 then Some default_fonts
                              else None))).
Proof.
  cbv zeta.
  destruct default_stage_is_all_or_nothing as (Hstage & _ & Hcases & _).
  split; [exact (Hstage roboto_world)|].
  split; [exact (Hstage (demo_world 200))|].
  split; [vm_compute; reflexivity|].
  apply (Hcases (Some "Roboto") (Some "missing") roboto_world).
  apply surjective_pairing.
Defined.

(* ================================================================== *)
(** * The priority of the remote family *)

(** C4. When a family other than the bundled default is given and
    [download_google_font] returns a font set for it, [load_fonts] returns
    that font set at once: after the download it only prints the line of
    success.  The run is the same whether or not a local path is
    supplied, so the local resolver takes no part in it. *)
Theorem remote_success_returns_at_once :
  forall (family : string) (font_path : option string) (w w1 : World)
         (d : FontFiles),
    family <> "" ->
    Str.lower family <> "roboto" ->
    download_google_font family None (say (MsgLoadingGoogle family) w)
    = (Ok (Some d), w1) ->
    load_fonts (Some family) font_path w
    = (Ok (Some d), say (MsgFontLoaded family) w1)
    /\ load_fonts (Some family) font_path w = load_fonts (Some family) None w.
Proof.
  intros family font_path w w1 d Hne Hlow Hremote.
  assert (Htruthy : truthy_fonts (Some d) = true).
  { apply complete_truthy. exact (download_google_font_complete _ _ _ Hremote). }
  assert (Hrun : forall fp,
             load_fonts (Some family) fp w
             = (Ok (Some d), say (MsgFontLoaded family) w1)).
  { intro fp. unfold load_fonts.
    destruct family as [|c family]; [congruence|].
    apply String.eqb_neq in Hlow. rewrite Hlow. cbn [negb].
    rewrite bind_ok with (1 := print_say _ w).
    rewrite bind_ok with (1 := Hremote).
    rewrite Htruthy. reflexivity. }
  split; [apply Hrun|]. now rewrite !Hrun.
Qed.

Lemma remote_success_returns_at_once_witness :
  let w := demo_world 200 in
  let r := download_google_font "Demo Sans" None
                                (say (MsgLoadingGoogle "Demo Sans") w) in
  fst (load_fonts_from_path "one.Woff2" w)
  = Ok (Some [("bold", "/srv/one.Woff2"); ("regular", "/srv/one.Woff2");
              ("light", "/srv/one.Woff2")])
  /\ load_fonts (Some "Demo Sans") (Some "one.Woff2") w
     = (Ok (Some [("light", "fonts/cache/demo_sans_light.woff2");
                  ("regular", "fonts/cache/demo_sans_regular.woff2");
                  ("bold", "fonts/cache/demo_sans_bold.woff2")]),
        say (MsgFontLoaded "Demo Sans") (snd r))
  /\ load_fonts (Some "Demo Sans") (Some "one.Woff2") w
     = load_fonts (Some "Demo Sans") None w.
Proof.
  cbv zeta. split; [vm_compute; reflexivity|].
  apply remote_success_returns_at_once.
  - discriminate.
  - vm_compute. discriminate.
  - apply with_final_world. vm_compute. reflexivity.
Defined.

(* ================================================================== *)
(** * A failing style-sheet request *)

Lemma download_body_start (font_family font_name_safe : string)
      (ws : list Z) (w : World) :
  download_body font_family font_name_safe ws w
  = let wq := mkWorld (net w) (realpath w) (resolve_error w) (stat_error w) (nodes w)
                      (GetCss font_family ws :: sent w) (stdout w) in
    match net w (List.length (sent w)) (GetCss font_family ws) with
    | TimedOut => (Raised Timeout, wq)
    | Unreachable => (Raised ConnectionError, wq)
    | Response status body =>
        if Z.leb 400 status && Z.ltb status 600
        then (Raised (HTTPError status), wq)
        else download_from_css font_family font_name_safe ws body wq
    end.
Proof.
  unfold download_body, bind, requests_get, raise_for_status.
  destruct (net w (List.length (sent w)) (GetCss font_family ws))
    as [| |status body]; try reflexivity.
  cbn [fst snd]. now destruct (Z.leb 400 status && Z.ltb status 600).
Qed.

(** A failing reply makes the body of the [try] raise at lines 49-50. *)
Lemma download_body_failing (font_family font_name_safe : string)
      (ws : list Z) (w : World) :
  failing_reply (net w (List.length (sent w)) (GetCss font_family ws)) ->
  download_body font_family font_name_safe ws w
  = (Raised (exception_of
               (net w (List.length (sent w)) (GetCss font_family ws))),
     after_request font_family ws w).
Proof.
  intro Hfail. rewrite download_body_start. cbv zeta.
  destruct (net w (List.length (sent w)) (GetCss font_family ws))
    as [| |status body]; try reflexivity.
  simpl in Hfail.
  assert (Z.leb 400 status && Z.ltb status 600 = true) as ->
      by (apply andb_true_iff; split; [apply Z.leb_le|apply Z.ltb_lt]; lia).
  reflexivity.
Qed.

(** The handler of lines 132-134 at work. *)
Lemma download_google_font_handled (font_family : string)
      (weights : option (list Z)) (w w0 w1 : World) (e : Exn) :
  mkdir_parents (realpath w (Pathlib.str FONTS_CACHE_DIR)) w = (Ok tt, w0) ->
  download_body font_family
                (Str.lower (Str.replace_char " " "_" font_family))
                (requested weights) w0
  = (Raised e, w1) ->
  download_google_font font_family weights w
  = (Ok None, say (MsgGoogleError font_family e) w1).
Proof.
  intros Hmkdir Hbody.
  unfold download_google_font. fold (requested weights).
  unfold bind at 1, locate at 1. cbv beta iota.
  rewrite bind_ok with (1 := Hmkdir).
  unfold try_except. rewrite Hbody. reflexivity.
Qed.

Lemma download_google_font_css_failure (font_family : string)
      (weights : option (list Z)) (w w0 : World) :
  mkdir_parents (realpath w (Pathlib.str FONTS_CACHE_DIR)) w = (Ok tt, w0) ->
  failing_reply (net w0 (List.length (sent w0))
                     (GetCss font_family (requested weights))) ->
  download_google_font font_family weights w
  = (Ok None,
     say (MsgGoogleError font_family
            (exception_of (net w0 (List.length (sent w0))
                               (GetCss font_family (requested weights)))))
         (after_request font_family (requested weights) w0)).
Proof.
  intros Hmkdir Hfail.
  apply download_google_font_handled with (1 := Hmkdir).
  now apply download_body_failing.
Qed.

(** C8, for the replies that are failures.  When the cache directory can
    be made, so that the style sheet is requested, and the request times
    out, fails at the network level or is answered with a 4xx or 5xx
    status, [download_google_font] returns [None] after printing one
    warning; no exception leaves it. *)
Theorem failed_css_request_returns_none :
  forall (font_family : string) (weights : option (list Z)) (w w0 : World),
    let ws := requested weights in
    let reply := net w0 (List.length (sent w0)) (GetCss font_family ws) in
    mkdir_parents (realpath w (Pathlib.str FONTS_CACHE_DIR)) w = (Ok tt, w0) ->
    failing_reply reply ->
    download_google_font font_family weights w
    = (Ok None,
       say (MsgGoogleError font_family (exception_of reply))
           (after_request font_family ws w0))
    /\ is_warning (MsgGoogleError font_family (exception_of reply)) = true.
Proof.
  intros font_family weights w w0 ws reply Hmkdir Hfail.
  split; [|reflexivity].
  unfold download_google_font. fold (requested weights). fold ws.
  unfold bind at 1, locate at 1. cbv beta iota.
  rewrite bind_ok with (1 := Hmkdir).
  unfold try_except.
  rewrite (@download_body_failing font_family _ ws w0 Hfail).
  reflexivity.
Qed.

Lemma failed_css_request_returns_none_witness :
  let w := demo_world 404 in
  let w0 := snd (mkdir_parents (realpath w (Pathlib.str FONTS_CACHE_DIR)) w) in
  download_google_font "Demo Sans" None w
  = (Ok None,
     say (MsgGoogleError "Demo Sans" (HTTPError 404))
         (after_request "Demo Sans" [300%Z; 400%Z; 700%Z] w0))
  /\ is_warning (MsgGoogleError "Demo Sans" (HTTPError 404)) = true.
Proof.
  cbv zeta.
  apply (@failed_css_request_returns_none "Demo Sans" None (demo_world 404)).
  - apply with_final_world. vm_compute. reflexivity.
  - change (400 <= 404 < 600)%Z. lia.
Defined.

(** C8 as it is worded fails for a status that is neither 2xx nor an
    error for [raise_for_status]: a reply with status 300 is parsed like
    any other, and the call returns a font set. *)
Lemma status_300_is_parsed :
  let w := demo_world 300 in
  net w 0 (GetCss "Demo Sans" [300%Z; 400%Z; 700%Z]) = Response 300 demo_css
  /\ ~ (200 <= 300 < 300)%Z
  /\ fst (download_google_font "Demo Sans" None w)
     = Ok (Some [("light", "fonts/cache/demo_sans_light.woff2");
                 ("regular", "fonts/cache/demo_sans_regular.woff2");
                 ("bold", "fonts/cache/demo_sans_bold.woff2")])
  /\ fst (download_google_font "Demo Sans" None w) <> Ok None.
Proof.
  cbv zeta. split; [reflexivity|]. split; [lia|].
  assert (H : fst (download_google_font "Demo Sans" None (demo_world 300))
              = Ok (Some [("light", "fonts/cache/demo_sans_light.woff2");
                          ("regular", "fonts/cache/demo_sans_regular.woff2");
                          ("bold", "fonts/cache/demo_sans_bold.woff2")]))
    by (vm_compute; reflexivity).
  split; [exact H|]. rewrite H. discriminate.
Qed.

(* ================================================================== *)
(** * Making the cache directory *)

Lemma get_app_last (ns : list (Key * Node)) (p k : Key) (n : Node) :
  Dict.get key_eqb (ns ++ [(p, n)]) k
  = match Dict.get key_eqb ns k with
    | Some x => Some x
    | None => if key_eqb k p then Some n else None
    end.
Proof.
  induction ns as [|[k' n'] ns IH]; simpl; [reflexivity|].
  now destruct (key_eqb k k').
Qed.

Lemma mkdir_walk_extends (rest : Key) :
  forall (prefix : Key) (ns ns' : list (Key * Node)),
    mkdir_walk prefix rest ns = Some ns' ->
    forall k n, Dict.get key_eqb ns k = Some n ->
                Dict.get key_eqb ns' k = Some n.
Proof.
  induction rest as [|c rest IH]; intros prefix ns ns' H k n Hk; simpl in H.
  - now injection H as <-.
  - destruct (Dict.get key_eqb ns (prefix ++ [c])) as [[| |]|] eqn:E;
      try discriminate.
    + exact (IH _ _ _ H k n Hk).
    + apply (IH _ _ _ H k n). rewrite get_app_last. now rewrite Hk.
Qed.

Lemma mkdir_walk_dirs (rest : Key) :
  forall (prefix : Key) (ns ns' : list (Key * Node)),
    mkdir_walk prefix rest ns = Some ns' -> dirs_along prefix rest ns'.
Proof.
  induction rest as [|c rest IH]; intros prefix ns ns' H; simpl in *;
    [exact I|].
  destruct (Dict.get key_eqb ns (prefix ++ [c])) as [[| |]|] eqn:E;
    try discriminate.
  - split; [|exact (IH _ _ _ H)].
    exact (mkdir_walk_extends _ _ _ H _ E).
  - split; [|exact (IH _ _ _ H)].
    apply (mkdir_walk_extends _ _ _ H). rewrite get_app_last, E.
    now assert (key_eqb (prefix ++ [c]) (prefix ++ [c]) = true) as ->
        by now apply key_eqb_eq.
Qed.

Lemma mkdir_walk_idem (rest : Key) :
  forall (prefix : Key) (ns : list (Key * Node)),
    dirs_along prefix rest ns -> mkdir_walk prefix rest ns = Some ns.
Proof.
  induction rest as [|c rest IH]; intros prefix ns H; simpl in *;
    [reflexivity|].
  destruct H as [Hc Hrest]. rewrite Hc. now apply IH.
Qed.

Lemma node_at_snoc (w : World) (prefix : Key) (c : string) :
  node_at w (prefix ++ [c]) = Dict.get key_eqb (nodes w) (prefix ++ [c]).
Proof. unfold node_at. now destruct prefix. Qed.

Lemma dirs_along_grows (w w' : World) (rest : Key) :
  grows w w' ->
  forall prefix, dirs_along prefix rest (nodes w) ->
                 dirs_along prefix rest (nodes w').
Proof.
  intros [_ Hdir]. induction rest as [|c rest IH]; intros prefix H; simpl in *;
    [exact I|].
  destruct H as [Hc Hrest]. split; [|now apply IH].
  rewrite <- node_at_snoc in *. now apply Hdir.
Qed.

(** Once the cache directory has been made, making it again changes
    nothing. *)
Lemma mkdir_parents_again (k : Key) (w : World) :
  dirs_along [] k (nodes w) -> mkdir_parents k w = (Ok tt, w).
Proof.
  intro H. unfold mkdir_parents. rewrite (mkdir_walk_idem _ _ _ H).
  unfold set_nodes. now rewrite world_eta.
Qed.

Lemma mkdir_parents_run (k : Key) (w : World) :
  (mkdir_parents k w = (Raised OSError, w))
  \/ (exists w0,
         mkdir_parents k w = (Ok tt, w0)
         /\ dirs_along [] k (nodes w0)
         /\ net w0 = net w /\ realpath w0 = realpath w
         /\ sent w0 = sent w /\ stdout w0 = stdout w).
Proof.
  unfold mkdir_parents.
  destruct (mkdir_walk [] k (nodes w)) as [ns|] eqn:E; [right|now left].
  exists (set_nodes w ns). split; [reflexivity|].
  split; [exact (mkdir_walk_dirs _ _ _ E)|]. repeat split.
Qed.

(** A call whose style-sheet request is answered, and not with a 4xx or
    5xx status, is the run of lines 53-130 on the answer, under the
    handler of lines 132-134. *)
Lemma download_google_font_answered (font_family : string)
      (weights : option (list Z)) (w w0 : World) (status : Z) (body : string) :
  mkdir_parents (realpath w (Pathlib.str FONTS_CACHE_DIR)) w = (Ok tt, w0) ->
  net w0 (List.length (sent w0)) (GetCss font_family (requested weights))
  = Response status body ->
  Z.leb 400 status && Z.ltb status 600 = false ->
  download_google_font font_family weights w
  = handled_css font_family (safe_name font_family) (requested weights) body
                (after_request font_family (requested weights) w0).
Proof.
  intros Hmkdir Hreply Hstatus.
  unfold download_google_font. fold (requested weights).
  unfold bind at 1, locate at 1. cbv beta iota.
  rewrite bind_ok with (1 := Hmkdir).
  unfold handled_css, try_except. rewrite download_body_start. cbv zeta.
  rewrite Hreply, Hstatus. reflexivity.
Qed.

Lemma download_google_font_no_dir (font_family : string)
      (weights : option (list Z)) (w : World) :
  mkdir_parents (realpath w (Pathlib.str FONTS_CACHE_DIR)) w
  = (Raised OSError, w) ->
  download_google_font font_family weights w = (Raised OSError, w).
Proof.
  intro H. unfold download_google_font.
  unfold bind at 1, locate at 1. cbv beta iota.
  now rewrite bind_raised with (1 := H).
Qed.

(* ================================================================== *)
(** * The local resolver: what it leaves alone, when it fails *)

(** X1. [load_fonts_from_path] sends nothing and writes nothing:
    whatever its outcome, the world afterwards differs from the world
    before by printed lines at most, and by none when an exception
    leaves the function.  No [try] stands around lines 161 and 164: when
    the path names no entry and its resolution or [exists()] fails with
    an exception, that exception leaves the function. *)
Theorem local_resolution_only_reads :
  forall (font_path : string) (w : World),
    (exists r msgs,
        load_fonts_from_path font_path w = (r, add_out msgs w)
        /\ forall e, r = Raised e -> msgs = [])
    /\ (forall e,
          node_at w (realpath w font_path) = None ->
          resolve_error w font_path = Some e
          \/ (resolve_error w font_path = None
              /\ stat_error w (realpath w font_path) = Some e) ->
          load_fonts_from_path font_path w = (Raised e, w)).
Proof.
  intros font_path w. split.
  - destruct (load_fonts_from_path_outcome font_path w)
      as [(result & msgs & ->)|(e & ->)].
    + exists (Ok result), msgs. split; [reflexivity|discriminate].
    + exists (Raised e), []. now rewrite add_out_nil.
  - intros e Hnode Hwhy.
    pose proof (load_fonts_from_path_run font_path w) as Hrun.
    cbv zeta in Hrun. rewrite Hnode in Hrun.
    destruct Hwhy as [Hres|[Hres Hstat]]; rewrite Hres in Hrun;
      [exact Hrun|].
    now rewrite Hstat in Hrun.
Qed.


(** X2. Whenever [load_fonts_from_path] returns, what it returns goes
    by the entry the resolved path names.  It returns [None] in four
    cases and in no other: there is no entry, the entry is a file whose
    suffix is not supported, it is a directory without font file, or it
    is neither file nor directory; each time it has printed one line, a
    warning that names the case.  For a file with a supported suffix and
    for a directory with a font file it returns a font set. *)
Theorem local_resolution_failures :
  forall (font_path : string) (w w' : World) (result : option FontFiles),
    let k := realpath w font_path in
    let p := Pathlib.str (Pathlib.resolved k) in
    let suffix := Pathlib.suffix (Pathlib.resolved k) in
    load_fonts_from_path font_path w = (Ok result, w') ->
    match node_at w k with
    | None => result = None /\ w' = say (MsgPathMissing p) w
    | Some (File _) =>
        if supported suffix
        then result = Some [("bold", p); ("regular", p); ("light", p)]
             /\ w' = say (MsgLoadedFile p) w
        else result = None /\ w' = say (MsgUnsupported suffix) w
    | Some Dir =>
        match candidates_of w k with
        | [] => result = None /\ w' = say (MsgNoFontFiles p) w
        | c0 :: rest =>
            result = Some (fill_from_first (c0 :: rest)
                                           (match_weights (c0 :: rest)))
            /\ exists msgs, w' = add_out msgs w
        end
    | Some Special => result = None /\ w' = say (MsgInvalidPath p) w
    end
    /\ is_warning (MsgPathMissing p) = true
    /\ is_warning (MsgUnsupported suffix) = true
    /\ is_warning (MsgNoFontFiles p) = true
    /\ is_warning (MsgInvalidPath p) = true.
Proof.
  intros font_path w w' result k p suffix Hret. split; [|repeat split].
  pose proof (load_fonts_from_path_run font_path w) as Hrun.
  cbv zeta in Hrun. fold k in Hrun. fold p in Hrun. fold suffix in Hrun.
  destruct (node_at w k) as [[content| |]|].
  - destruct (supported suffix); rewrite Hrun in Hret;
      injection Hret as <- <-; split; reflexivity.
  - destruct (candidates_of w k) as [|c0 rest].
    + rewrite Hrun in Hret. injection Hret as <- <-. split; reflexivity.
    + destruct Hrun as (msgs & Hrun). rewrite Hrun in Hret.
      injection Hret as <- <-. split; [reflexivity|eauto].
  - rewrite Hrun in Hret. injection Hret as <- <-. split; reflexivity.
  - destruct (resolve_error w font_path) as [e|];
      [rewrite Hrun in Hret; discriminate|].
    destruct (stat_error w k) as [e|]; rewrite Hrun in Hret;
      [discriminate|].
    injection Hret as <- <-. split; reflexivity.
Qed.

Lemma local_resolution_failures_witness :
  let w := demo_world 200 in
  fst (load_fonts_from_path "faces/readme.txt" w) = Ok None
  /\ snd (load_fonts_from_path "faces/readme.txt" w)
     = say (MsgUnsupported ".txt") w.
Proof.
  cbv zeta.
  assert (Hrun : fst (load_fonts_from_path "faces/readme.txt" (demo_world 200))
                 = Ok None) by (vm_compute; reflexivity).
  split; [exact Hrun|].
  destruct (@local_resolution_failures
              "faces/readme.txt" (demo_world 200)
              (snd (load_fonts_from_path "faces/readme.txt" (demo_world 200)))
              None (with_final_world _ Hrun))
    as (Hcase & _).
  assert (Hnode : node_at (demo_world 200)
                          (realpath (demo_world 200) "faces/readme.txt")
                  = Some (File "")) by reflexivity.
  rewrite Hnode in Hcase.
  assert (Hsuffix : supported
                      (Pathlib.suffix
                         (Pathlib.resolved
                            (realpath (demo_world 200) "faces/readme.txt")))
                    = false) by (vm_compute; reflexivity).
  rewrite Hsuffix in Hcase. exact (proj2 Hcase).
Defined.

(** On [strict_world] the three failures of lines 161 and 164 are met:
    a NUL in the path, a user without home directory, a name too
    long. *)
Example unresolvable_paths_raise :
  load_fonts_from_path (String (ascii_of_nat 0) "fonts") strict_world
  = (Raised ValueError, strict_world)
  /\ load_fonts_from_path "~nosuchuser_xyz/fonts" strict_world
     = (Raised RuntimeError, strict_world)
  /\ load_fonts_from_path long_name strict_world
     = (Raised OSError, strict_world)
  /\ load_fonts_from_path "missing" strict_world
     = (Ok None, say (MsgPathMissing "/srv/missing") strict_world)
  /\ fst (load_fonts None (Some "~nosuchuser_xyz/fonts") strict_world)
     = Raised RuntimeError.
Proof. repeat split; vm_compute; reflexivity. Qed.






(* ================================================================== *)
(** * The remote fetcher: what a call does to the world *)

Lemma ensure_regular_get (d : FontFiles) (w w1 : World)
      (r : Result FontFiles) :
  ensure_regular d w = (r, w1) ->
  exists d1,
    r = Ok d1
    /\ forall key, Dict.get String.eqb d1 key
                   = if String.eqb key "regular" then regular_of d
                     else Dict.get String.eqb d key.
Proof.
  unfold ensure_regular, regular_of, Dict.mem.
  destruct (Dict.get String.eqb d "regular") as [v|] eqn:Ereg.
  - cbn [negb andb]. intros [= <- <-]. exists d. split; [reflexivity|].
    intro key. destruct (String.eqb key "regular") eqn:E; [|reflexivity].
    apply String.eqb_eq in E. now subst.
  - destruct d as [|[k0 v0] d].
    + intros [= <- <-]. exists []. split; [reflexivity|].
      intro key. now destruct (String.eqb key "regular").
    + cbn [negb andb Dict.truthy Dict.values List.map snd hd_error].
      set (d1 := Dict.set String.eqb ((k0, v0) :: d) "regular" v0).
      assert (Hkeys : exists key rest, Dict.keys d1 = key :: rest).
      { pose proof (set_nonempty String.eqb ((k0, v0) :: d) "regular" v0)
          as Hne.
        fold d1 in Hne. destruct d1 as [|[key v] rest]; [discriminate|].
        cbn. eauto. }
      destruct Hkeys as (key0 & rest & ->).
      intros [= <- <-]. exists d1. split; [reflexivity|].
      intro key. unfold d1. destruct (String.eqb key "regular") eqn:E.
      * apply String.eqb_eq in E. subst.
        apply get_set_same, String.eqb_eq.
      * apply get_set_other; [apply String.eqb_eq|].
        intros ->. now rewrite String.eqb_refl in E.
Qed.

Lemma duplicate_regular_get (role : string) (note : Msg) (d : FontFiles)
      (w w2 : World) (r : Result FontFiles) :
  duplicate_regular role note d w = (r, w2) ->
  exists d2,
    r = Ok d2
    /\ forall key, Dict.get String.eqb d2 key
                   = if String.eqb key role then
                       match Dict.get String.eqb d role with
                       | Some v => Some v
                       | None => Dict.get String.eqb d "regular"
                       end
                     else Dict.get String.eqb d key.
Proof.
  unfold duplicate_regular, copy_regular, Dict.mem.
  destruct (Dict.get String.eqb d role) as [v|] eqn:Erole.
  - cbn [negb andb]. intros [= <- <-]. exists d. split; [reflexivity|].
    intro key. destruct (String.eqb key role) eqn:E; [|reflexivity].
    apply String.eqb_eq in E. now subst.
  - cbn [negb andb].
    destruct (Dict.get String.eqb d "regular") as [v|] eqn:Ereg.
    + intros [= <- <-]. exists (Dict.set String.eqb d role v).
      split; [reflexivity|]. intro key.
      destruct (String.eqb key role) eqn:E.
      * apply String.eqb_eq in E. subst.
        apply get_set_same, String.eqb_eq.
      * apply get_set_other; [apply String.eqb_eq|].
        intros ->. now rewrite String.eqb_refl in E.
    + intros [= <- <-]. exists d. split; [reflexivity|].
      intro key. destruct (String.eqb key role) eqn:E; [|reflexivity].
      apply String.eqb_eq in E. now subst.
Qed.

Lemma fill_roles_filled (d : FontFiles) :
  exists d' msgs,
    (forall w, fill_roles d w = (Ok d', add_out msgs w))
    /\ (forall key, Dict.get String.eqb d' key = filled d key)
    /\ failures msgs = 0.
Proof.
  destruct (quiet_fill_roles d) as (r & msgs & Hquiet & Hrun).
  pose proof (Hrun (demo_world 200)) as H.
  unfold fill_roles in H.
  apply bind_inv in H. destruct H as [(d1 & w1 & H1 & H)|(e & H1 & _)].
  2: { apply ensure_regular_get in H1. destruct H1 as (? & ? & _).
       discriminate. }
  apply ensure_regular_get in H1. destruct H1 as (d1' & [= <-] & Hg1).
  apply bind_inv in H. destruct H as [(d2 & w2 & H2 & H)|(e & H2 & _)].
  2: { apply duplicate_regular_get in H2. destruct H2 as (? & ? & _).
       discriminate. }
  apply duplicate_regular_get in H2. destruct H2 as (d2' & [= <-] & Hg2).
  apply duplicate_regular_get in H. destruct H as (d3 & -> & Hg3).
  exists d3, msgs. split; [exact Hrun|]. split; [|exact Hquiet].
  intro key. rewrite Hg3, !Hg2, !Hg1. unfold filled. cbn.
  destruct (String.eqb key "regular") eqn:Er.
  - apply String.eqb_eq in Er. subst key. reflexivity.
  - destruct (String.eqb key "bold") eqn:Eb.
    + apply String.eqb_eq in Eb. subst key. reflexivity.
    + destruct (String.eqb key "light") eqn:El; [|reflexivity].
      apply String.eqb_eq in El. subst key. reflexivity.
Qed.

Lemma filled_keeps (d : FontFiles) (key v : string) :
  Dict.get String.eqb d key = Some v -> filled d key = Some v.
Proof.
  intro Hv. unfold filled, regular_of.
  destruct (String.eqb key "regular") eqn:Er.
  - apply String.eqb_eq in Er. subst key. now rewrite Hv.
  - rewrite Hv. now destruct (String.eqb key "bold" || String.eqb key "light").
Qed.

Lemma filled_from (d : FontFiles) (key v : string) :
  filled d key = Some v -> exists key0, Dict.get String.eqb d key0 = Some v.
Proof.
  assert (Hreg : regular_of d = Some v ->
                 exists key0, Dict.get String.eqb d key0 = Some v).
  { unfold regular_of.
    destruct (Dict.get String.eqb d "regular") as [x|] eqn:E.
    - intros [= ->]. eauto.
    - destruct d as [|[k0 v0] d]; [discriminate|]. cbn. intros [= ->].
      exists k0. now rewrite String.eqb_refl. }
  unfold filled. destruct (String.eqb key "regular"); [exact Hreg|].
  destruct (String.eqb key "bold" || String.eqb key "light"); [|eauto].
  destruct (Dict.get String.eqb d key) as [x|] eqn:E; [|exact Hreg].
  intros [= ->]. eauto.
Qed.

(** X4. Lines 116-128 never raise and never replace an entry.  Regular,
    when missing, takes the first value of the dictionary; bold and
    light, when missing, take the value of regular; every other key is
    left as it is.  An empty dictionary stays empty. *)
Theorem missing_roles_are_filled :
  forall d : FontFiles,
  exists d' msgs,
    (forall w, fill_roles d w = (Ok d', add_out msgs w))
    /\ (forall key, Dict.get String.eqb d' key = filled d key)
    /\ (forall key v, Dict.get String.eqb d key = Some v ->
                      Dict.get String.eqb d' key = Some v)
    /\ (d = [] <-> d' = []).
Proof.
  intro d. destruct (fill_roles_filled d) as (d3 & msgs & Hrun & Hget & _).
  exists d3, msgs. split; [exact Hrun|]. split; [exact Hget|].
  split; [|split].
  - intros key v Hv. rewrite Hget. now apply filled_keeps.
  - intros ->. destruct d3 as [|[k v] d3]; [reflexivity|].
    specialize (Hget k). unfold filled, regular_of in Hget.
    cbn in Hget. rewrite String.eqb_refl in Hget.
    destruct (String.eqb k "regular"); [discriminate|].
    destruct (String.eqb k "bold" || String.eqb k "light"); discriminate.
  - intros ->. destruct d as [|[k v] d]; [reflexivity|].
    pose proof (@filled_keeps ((k, v) :: d) k v) as Hk. cbn in Hk.
    rewrite String.eqb_refl in Hk. specialize (Hk eq_refl).
    rewrite <- Hget in Hk. discriminate.
Qed.

Lemma mkdir_parents_keeps (k : Key) (w w0 : World) :
  mkdir_parents k w = (Ok tt, w0) ->
  keeps w w0 /\ same_env w w0 /\ sent w0 = sent w /\ stdout w0 = stdout w.
Proof.
  unfold mkdir_parents.
  destruct (mkdir_walk [] k (nodes w)) as [ns|] eqn:E; [|discriminate].
  intros [= <-]. split; [|repeat split].
  intros k0 n H. unfold node_at in *. destruct k0 as [|c k0]; [exact H|].
  cbn [nodes set_nodes]. exact (mkdir_walk_extends _ _ _ E _ H).
Qed.

Lemma failures_say_error (font_family : string) (e : Exn) (w : World) :
  failures (stdout (say (MsgGoogleError font_family e) w))
  = failures (stdout w).
Proof. reflexivity. Qed.

(** All the run of lines 53-134 does: it returns also where the parse
    or [exists()] raised, having printed the error then. *)
Lemma handled_css_effects (font_family font_name_safe : string)
      (ws : list Z) (css_content : string) (w : World) :
  exists o w' reqs,
    handled_css font_family font_name_safe ws css_content w = (Ok o, w')
    /\ same_env w w'
    /\ keeps w w'
    /\ failures (stdout w) <= failures (stdout w')
    /\ sent w' = (reqs ++ sent w)%list
    /\ List.length reqs <= List.length ws
    /\ Forall (fun q =>
                 exists m u, parse_css css_content = Ok m
                             /\ In u (Dict.values m) /\ q = GetUrl u) reqs
    /\ (forall d, o = Some d ->
          (forall key p, Dict.get String.eqb d key = Some p ->
             cache_path_of font_name_safe p
             /\ node_at w' (realpath w p) <> None)
          /\ (failures (stdout w') = failures (stdout w) ->
              exists m,
                parse_css css_content = Ok m
                /\ forall weight p, In weight ws ->
                     target font_name_safe m weight = Some p ->
                     node_at w' (realpath w p) <> None)).
Proof.
  unfold handled_css, try_except, download_from_css.
  destruct (parse_css css_content) as [m|e] eqn:Eparse.
  2: { exists None, (say (MsgGoogleError font_family e) w), [].
       split; [reflexivity|]. split; [repeat split|].
       split; [now apply keeps_same_nodes|].
       split; [rewrite failures_say_error; lia|]. split; [reflexivity|].
       split; [simpl; lia|]. split; [constructor|discriminate]. }
  assert (Hparse : of_result (Ok m) w = (Ok m, w)) by reflexivity.
  rewrite bind_ok with (1 := Hparse).
  destruct (weights_loop_effects font_family font_name_safe m ws [] w)
    as (r & w3 & reqs & Hloop & Henv & Hk & Hf & Hsent & Hlen & Hreqs & Hok).
  assert (Hreqs' : Forall (fun q =>
                             exists m' u, Ok m = Ok m'
                                          /\ In u (Dict.values m')
                                          /\ q = GetUrl u) reqs).
  { eapply Forall_impl; [|exact Hreqs]. intros q (u & Hu & ->). eauto. }
  destruct r as [ff|e].
  2: { rewrite bind_raised with (1 := Hloop).
       exists None, (say (MsgGoogleError font_family e) w3), reqs.
       split; [reflexivity|]. split; [exact Henv|]. split; [exact Hk|].
       split; [rewrite failures_say_error; exact Hf|].
       split; [exact Hsent|]. split; [exact Hlen|].
       split; [exact Hreqs'|discriminate]. }
  rewrite bind_ok with (1 := Hloop).
  destruct (fill_roles_filled ff) as (d' & msgs & Hfill & Hget & Hquiet).
  rewrite bind_ok with (1 := Hfill w3). unfold ret.
  assert (Hout : failures (stdout (add_out msgs w3)) = failures (stdout w3))
    by (cbn [stdout add_out]; rewrite failures_app; lia).
  exists (if Dict.truthy d' then Some d' else None), (add_out msgs w3), reqs.
  split; [reflexivity|]. split; [exact Henv|]. split; [exact Hk|].
  split; [lia|]. split; [exact Hsent|]. split; [exact Hlen|].
  split; [exact Hreqs'|].
  intros d Hd. destruct (Dict.truthy d'); [|discriminate]. injection Hd as <-.
  destruct (Hok ff eq_refl) as (_ & Hvals & Hall). split.
  - intros key p Hp. rewrite Hget in Hp. apply filled_from in Hp.
    destruct Hp as (key0 & Hp).
    destruct (Hvals key0 p Hp) as [Hnil|[Hc Hn]]; [discriminate|].
    split; [exact Hc|exact Hn].
  - intro Hsame. exists m. split; [reflexivity|].
    intros weight p Hin Ht. exact (Hall ltac:(lia) weight p Hin Ht).
Qed.

Lemma reply_cases (r : Reply) :
  failing_reply r
  \/ exists status body,
       r = Response status body
       /\ Z.leb 400 status && Z.ltb status 600 = false.
Proof.
  destruct r as [| |status body]; [left; exact I | left; exact I |].
  destruct (Z.leb 400 status && Z.ltb status 600) eqn:Estatus;
    [left|right; eauto].
  apply andb_true_iff in Estatus. destruct Estatus as [Ha Hb].
  apply Z.leb_le in Ha. apply Z.ltb_lt in Hb. simpl. lia.
Qed.

(** All a call of [download_google_font] does. *)
Lemma download_google_font_effects (font_family : string)
      (weights : option (list Z)) (w : World) :
  let ws := requested weights in
  let request := GetCss font_family ws in
  (mkdir_parents (realpath w (Pathlib.str FONTS_CACHE_DIR)) w
   = (Raised OSError, w)
   /\ download_google_font font_family weights w = (Raised OSError, w))
  \/ (exists o w' reqs,
        download_google_font font_family weights w = (Ok o, w')
        /\ same_env w w'
        /\ keeps w w'
        /\ sent w' = (reqs ++ request :: sent w)%list
        /\ List.length reqs <= List.length ws
        /\ Forall (fun q =>
                     exists status body m u,
                       net w (List.length (sent w)) request
                       = Response status body
                       /\ parse_css body = Ok m
                       /\ In u (Dict.values m)
                       /\ q = GetUrl u) reqs
        /\ (forall d key p,
              o = Some d -> Dict.get String.eqb d key = Some p ->
              cache_path_of (safe_name font_family) p
              /\ node_at w' (realpath w' p) <> None)).
Proof.
  intros ws request.
  set (k := realpath w (Pathlib.str FONTS_CACHE_DIR)).
  destruct (mkdir_parents_run k w)
    as [Hraise|(w0 & Hmk & Hdirs & Hnet0 & Hreal0 & Hsent0 & Hout0)].
  { left. split; [exact Hraise|].
    exact (@download_google_font_no_dir font_family weights w Hraise). }
  right.
  destruct (mkdir_parents_keeps _ _ Hmk) as (Hkeep0 & Henv0 & _ & _).
  assert (Hreply0 : net w0 (List.length (sent w0)) request
                    = net w (List.length (sent w)) request)
    by now rewrite Hnet0, Hsent0.
  destruct (reply_cases (net w (List.length (sent w)) request))
    as [Hbad|(status & body & Ereply & Estatus)].
  - pose proof (@download_google_font_css_failure font_family weights w w0 Hmk
                  ltac:(fold ws; fold request; rewrite Hreply0; exact Hbad))
      as Hrun.
    eexists None, _, []. split; [exact Hrun|].
    split; [exact Henv0|].
    split.
    { eapply keeps_trans; [exact Hkeep0|]. now apply keeps_same_nodes. }
    split; [cbn; now rewrite Hsent0|]. split; [simpl; lia|].
    split; [constructor|]. discriminate.
  - pose proof (@download_google_font_answered font_family weights w w0
                  status body Hmk
                  ltac:(fold ws; fold request; rewrite Hreply0; exact Ereply)
                  Estatus) as Hrun.
    fold ws in Hrun.
    set (safe := safe_name font_family) in *.
    set (wq := after_request font_family ws w0) in *.
    destruct (handled_css_effects font_family safe ws body wq)
      as (o & w3 & reqs & Hcss & Henv3 & Hk3 & _ & Hsent3 & Hlen
          & Hreqs & Hvals).
    rewrite Hcss in Hrun.
    exists o, w3, reqs. split; [exact Hrun|].
    split; [exact (same_env_trans Henv0 Henv3)|].
    split.
    { eapply keeps_trans; [exact Hkeep0|].
      eapply keeps_trans; [|exact Hk3]. now apply keeps_same_nodes. }
    split; [rewrite Hsent3; cbn; now rewrite Hsent0|].
    split; [exact Hlen|]. split.
    { eapply Forall_impl; [|exact Hreqs].
      intros q (m & u & Hm & Hu & ->). exists status, body, m, u. auto. }
    intros d key p Hd Hp.
    destruct (Hvals d Hd) as (Hpaths & _).
    destruct (Hpaths key p Hp) as (Hc & Hn). split; [exact Hc|].
    assert (Hreal3 : realpath w3 = realpath wq) by apply Henv3.
    rewrite Hreal3. exact Hn.
Qed.

(* ================================================================== *)
(** * Fetching twice *)

(** The loop over the weights, run again.  When the loop has ended
    without a failed download, a second run on the file system it left
    ends as the first did, whether with a dictionary or with the
    exception of line 102, and does nothing but print. *)
Lemma weights_loop_again (font_family font_name_safe : string)
      (m : Dict.t Z string) (ws : list Z) :
  forall (ff : FontFiles) (w w' : World) (r : Result FontFiles),
    for_each ws (download_weight font_family font_name_safe m) ff w = (r, w') ->
    failures (stdout w') = failures (stdout w) ->
    forall v : World,
      same_env w v -> nodes v = nodes w' ->
      exists msgs,
        for_each ws (download_weight font_family font_name_safe m) ff v
        = (r, add_out msgs v).
Proof.
  induction ws as [|x ws IH]; intros ff w w' r Hrun Hquiet v Hev Hnv.
  - cbn in Hrun. injection Hrun as <- <-. exists []. cbn.
    unfold ret. now rewrite add_out_nil.
  - cbn [for_each] in *.
    assert (Hrealv : realpath v = realpath w) by apply Hev.
    assert (Hstatv : stat_error v = stat_error w) by apply Hev.
    pose proof (download_weight_step font_family font_name_safe m ff x w)
      as Hw.
    pose proof (download_weight_step font_family font_name_safe m ff x v)
      as Hv.
    cbv zeta in Hw, Hv. rewrite Hrealv, Hstatv in Hv.
    (* the rest of the first run, from the world [w1] after the turn *)
    assert (Hrest : forall ff1 w1 msgs1,
      same_env w w1 ->
      failures (stdout w) <= failures (stdout w1) ->
      for_each ws (download_weight font_family font_name_safe m) ff1 w1
      = (r, w') ->
      keeps w1 w'
      /\ (download_weight font_family font_name_safe m ff x v
          = (Ok ff1, add_out msgs1 v) ->
          exists msgs,
            (ff0 <- download_weight font_family font_name_safe m ff x ;;
             for_each ws (download_weight font_family font_name_safe m) ff0) v
            = (r, add_out msgs v))).
    { intros ff1 w1 msgs1 Henv1 Hf1 Hloop.
      destruct (weights_loop_effects font_family font_name_safe m ws ff1 w1)
        as (r' & w'' & reqs & Hloop' & _ & Hk & Hf & _).
      rewrite Hloop in Hloop'. injection Hloop' as <- <-.
      split; [exact Hk|]. intro Hturn.
      destruct (IH ff1 w1 w' r Hloop ltac:(lia) (add_out msgs1 v))
        as (msgs & Hagain).
      { exact (same_env_both Henv1 Hev). }
      { exact Hnv. }
      rewrite bind_ok with (1 := Hturn). rewrite Hagain.
      exists (msgs ++ msgs1)%list. now rewrite add_out_app. }
    destruct (target font_name_safe m x) as [p|].
    2: { destruct Hw as (msgs1 & Hq1 & Hturn1).
         destruct Hv as (msgs2 & Hq2 & Hturn2).
         rewrite bind_ok with (1 := Hturn1) in Hrun.
         destruct (@add_out_effects msgs1 w Hq1) as (He1 & _ & Hf1).
         destruct (Hrest ff (add_out msgs1 w) msgs2 He1 ltac:(lia) Hrun)
           as (_ & Hgo).
         exact (Hgo Hturn2). }
    destruct (node_at w (realpath w p)) as [n|] eqn:Enode.
    { destruct Hw as (msgs1 & Hq1 & Hturn1).
      rewrite bind_ok with (1 := Hturn1) in Hrun.
      destruct (@add_out_effects msgs1 w Hq1) as (He1 & Hk1 & Hf1).
      destruct (Hrest _ (add_out msgs1 w) [] He1 ltac:(lia) Hrun)
        as (Hk & _).
      assert (Hnv' : node_at v (realpath w p) = Some n).
      { rewrite (node_at_same_nodes w' v _ Hnv). apply Hk, Hk1, Enode. }
      rewrite Hnv' in Hv. destruct Hv as (msgs2 & Hq2 & Hturn2).
      destruct (Hrest _ (add_out msgs1 w) msgs2 He1 ltac:(lia) Hrun)
        as (_ & Hgo).
      exact (Hgo Hturn2). }
    destruct (stat_error w (realpath w p)) as [e|] eqn:Estat.
    { destruct Hw as (msgs1 & Hq1 & Hturn1).
      rewrite bind_raised with (1 := Hturn1) in Hrun.
      injection Hrun as <- <-.
      assert (Hnv' : node_at v (realpath w p) = None).
      { rewrite (node_at_same_nodes (add_out msgs1 w) v _ Hnv).
        exact Enode. }
      rewrite Hnv' in Hv. destruct Hv as (msgs2 & Hq2 & Hturn2).
      exists msgs2. now apply bind_raised. }
    destruct Hw as (u & stored & w1 & Hu & Hturn1 & He1 & Hsent1 & Hcase).
    rewrite bind_ok with (1 := Hturn1) in Hrun.
    destruct stored.
    + destruct Hcase as (Hk1 & Hp1 & Hf1).
      destruct (Hrest _ w1 [] He1 ltac:(lia) Hrun) as (Hk & _).
      assert (Hnv' : exists n, node_at v (realpath w p) = Some n).
      { rewrite (node_at_same_nodes w' v _ Hnv).
        destruct (node_at w1 (realpath w p)) as [n|] eqn:E; [|congruence].
        exists n. exact (Hk _ _ E). }
      destruct Hnv' as (n & Hnv'). rewrite Hnv' in Hv.
      destruct Hv as (msgs2 & Hq2 & Hturn2).
      destruct (Hrest _ w1 msgs2 He1 ltac:(lia) Hrun) as (_ & Hgo).
      exact (Hgo Hturn2).
    + destruct Hcase as (Hn1 & Hf1). exfalso.
      destruct (weights_loop_effects font_family font_name_safe m ws ff w1)
        as (r' & w'' & reqs & Hloop' & _ & _ & Hf & _).
      rewrite Hrun in Hloop'. injection Hloop' as <- <-. lia.
Qed.

(** Lines 53-134, run again on the file system a first run without
    failed download has left: the same result, and nothing but printed
    lines. *)
Lemma handled_css_again (font_family font_name_safe : string)
      (ws : list Z) (css_content : string) (w w' : World)
      (r : Result (option FontFiles)) :
  handled_css font_family font_name_safe ws css_content w = (r, w') ->
  failures (stdout w') = failures (stdout w) ->
  forall v : World,
    same_env w v -> nodes v = nodes w' ->
    exists msgs,
      handled_css font_family font_name_safe ws css_content v
      = (r, add_out msgs v).
Proof.
  unfold handled_css, try_except, download_from_css.
  intros Hrun Hquiet v Hev Hnv.
  destruct (parse_css css_content) as [m|e].
  2: { cbn in Hrun. injection Hrun as <- <-.
       exists [MsgGoogleError font_family e]. reflexivity. }
  assert (Hparse : forall u, of_result (Ok m) u = (Ok m, u)) by reflexivity.
  rewrite bind_ok with (1 := Hparse w) in Hrun.
  rewrite bind_ok with (1 := Hparse v).
  destruct (for_each ws (download_weight font_family font_name_safe m) [] w)
    as [r0 w3] eqn:Hloop.
  destruct r0 as [ff|e].
  - rewrite bind_ok with (1 := Hloop) in Hrun.
    destruct (fill_roles_filled ff) as (d' & msgs & Hfill & _ & Hq).
    rewrite bind_ok with (1 := Hfill w3) in Hrun. unfold ret in Hrun.
    injection Hrun as <- <-.
    assert (Hq3 : failures (stdout w3) = failures (stdout w)).
    { cbn [stdout add_out] in Hquiet. rewrite failures_app in Hquiet. lia. }
    destruct (@weights_loop_again font_family font_name_safe m ws [] w w3
                                  (Ok ff) Hloop Hq3 v Hev Hnv)
      as (msgs2 & Hagain).
    rewrite bind_ok with (1 := Hagain).
    rewrite bind_ok with (1 := Hfill (add_out msgs2 v)). unfold ret.
    exists (msgs ++ msgs2)%list. now rewrite add_out_app.
  - rewrite bind_raised with (1 := Hloop) in Hrun. cbn in Hrun.
    injection Hrun as <- <-.
    destruct (@weights_loop_again font_family font_name_safe m ws [] w w3
                                  (Raised e) Hloop Hquiet v Hev Hnv)
      as (msgs2 & Hagain).
    rewrite bind_raised with (1 := Hagain).
    exists (MsgGoogleError font_family e :: msgs2). reflexivity.
Qed.

(** C7, for a first call that reports no failed download.  Let
    [download_google_font] be called twice for the same family and
    weights, the style-sheet request being answered alike both times.
    If the first call reports no failed download, the second call
    returns what the first returned, leaves the file system as it is and
    sends nothing but the style-sheet request: every asset was fetched,
    if at all, by the first call.  When the first call returned a font
    set, every cache path the second call computes for a requested
    weight is an entry of the file system the first call left, so that
    line 102 finds it. *)
Theorem second_fetch_hits_cache :
  forall (font_family : string) (weights : option (list Z))
         (w w1 w2 : World) (r1 r2 : Result (option FontFiles)),
    let request := GetCss font_family (requested weights) in
    download_google_font font_family weights w = (r1, w1) ->
    download_google_font font_family weights w1 = (r2, w2) ->
    net w (List.length (sent w)) request
    = net w1 (List.length (sent w1)) request ->
    failures (stdout w1) = failures (stdout w) ->
    r2 = r1
    /\ nodes w2 = nodes w1
    /\ (sent w2 = sent w1 \/ sent w2 = request :: sent w1)
    /\ (forall d, r1 = Ok (Some d) ->
          exists status body weight_url_map,
            net w1 (List.length (sent w1)) request = Response status body
            /\ parse_css body = Ok weight_url_map
            /\ forall weight p,
                 In weight (requested weights) ->
                 target (safe_name font_family) weight_url_map weight
                 = Some p ->
                 node_at w1 (realpath w1 p) <> None
                 /\ node_at w2 (realpath w2 p) <> None).
Proof.
  intros font_family weights w w1 w2 r1 r2 request Hfirst Hsecond Hcss Hquiet.
  set (ws := requested weights) in *.
  set (k := realpath w (Pathlib.str FONTS_CACHE_DIR)).
  destruct (mkdir_parents_run k w)
    as [Hraise|(w0 & Hmk & Hdirs & Hnet0 & Hreal0 & Hsent0 & Hout0)].
  { (* the cache directory cannot be made *)
    rewrite (@download_google_font_no_dir font_family weights w Hraise)
      in Hfirst.
    injection Hfirst as <- <-.
    rewrite (@download_google_font_no_dir font_family weights w Hraise)
      in Hsecond.
    injection Hsecond as <- <-.
    split; [reflexivity|]. split; [reflexivity|]. split; [now left|].
    discriminate. }
  assert (Hreply0 : net w0 (List.length (sent w0)) request
                    = net w (List.length (sent w)) request)
    by now rewrite Hnet0, Hsent0.
  destruct (reply_cases (net w (List.length (sent w)) request))
    as [Hbad|(status & body & Ereply & Estatus)].
  { (* the style sheet is not obtained *)
    pose proof (@download_google_font_css_failure font_family weights w w0 Hmk
                  ltac:(fold ws; fold request; rewrite Hreply0; exact Hbad))
      as H1.
    rewrite H1 in Hfirst. injection Hfirst as <- <-.
    fold ws in Hsecond, Hcss, Hquiet. fold request in Hsecond, Hcss, Hquiet.
    set (w1 := say _ _) in *.
    assert (Hmk2 : mkdir_parents (realpath w1 (Pathlib.str FONTS_CACHE_DIR)) w1
                   = (Ok tt, w1)).
    { apply mkdir_parents_again.
      change (dirs_along [] (realpath w0 (Pathlib.str FONTS_CACHE_DIR))
                         (nodes w0)).
      rewrite Hreal0. exact Hdirs. }
    pose proof (@download_google_font_css_failure font_family weights w1 w1
                  Hmk2 ltac:(fold ws; fold request; rewrite <- Hcss; exact Hbad))
      as H2.
    rewrite H2 in Hsecond. injection Hsecond as <- <-.
    split; [reflexivity|]. split; [reflexivity|].
    split; [right; reflexivity|]. discriminate. }
  (* the style sheet is answered *)
  set (safe := safe_name font_family).
  rewrite (@download_google_font_answered font_family weights w w0 status body
             Hmk ltac:(fold ws; fold request; rewrite Hreply0; exact Ereply)
             Estatus) in Hfirst.
  fold ws safe in Hfirst.
  set (wq := after_request font_family ws w0) in *.
  destruct (handled_css_effects font_family safe ws body wq)
    as (o & w' & reqs & Hrun & Henv & Hk & _ & _ & _ & _ & Hpaths).
  rewrite Hrun in Hfirst. injection Hfirst as Hr1 Hw1. subst r1 w'.
  assert (Hreal1 : realpath w1 = realpath w).
  { destruct Henv as (_ & Hr & _). rewrite Hr. exact Hreal0. }
  assert (Hsame : failures (stdout w1) = failures (stdout wq))
    by (rewrite Hquiet; cbn [stdout after_request wq]; now rewrite Hout0).
  (* the second call *)
  assert (Hmk2 : mkdir_parents (realpath w1 (Pathlib.str FONTS_CACHE_DIR)) w1
                 = (Ok tt, w1)).
  { apply mkdir_parents_again. rewrite Hreal1. fold k.
    exact (@dirs_along_grows wq w1 k (keeps_grows Hk) [] Hdirs). }
  assert (Hreply2 : net w1 (List.length (sent w1)) request
                    = Response status body) by now rewrite <- Hcss.
  rewrite (@download_google_font_answered font_family weights w1 w1 status
             body Hmk2 Hreply2 Estatus) in Hsecond.
  fold ws safe in Hsecond.
  destruct (@handled_css_again font_family safe ws body wq w1 (Ok o) Hrun
              Hsame (after_request font_family ws w1) Henv eq_refl)
    as (msgs & Hagain).
  rewrite Hagain in Hsecond. injection Hsecond as <- <-.
  split; [reflexivity|]. split; [reflexivity|].
  split; [right; reflexivity|].
  intros d [= ->].
  destruct (Hpaths d eq_refl) as (_ & Hall).
  destruct (Hall Hsame) as (m & Hparse & Hthere).
  exists status, body, m. split; [exact Hreply2|]. split; [exact Hparse|].
  intros weight p Hin Ht.
  assert (Hp : node_at w1 (realpath w1 p) <> None).
  { rewrite Hreal1, <- Hreal0. exact (Hthere weight p Hin Ht). }
  split; exact Hp.
Qed.

Lemma second_fetch_hits_cache_witness :
  let w := demo_world 200 in
  let request := GetCss "Demo Sans" [300%Z; 400%Z; 700%Z] in
  let first := download_google_font "Demo Sans" None w in
  let second := download_google_font "Demo Sans" None (snd first) in
  fst second = fst first
  /\ nodes (snd second) = nodes (snd first)
  /\ (sent (snd second) = sent (snd first)
      \/ sent (snd second) = request :: sent (snd first))
  /\ (forall d, fst first = Ok (Some d) ->
        exists status body weight_url_map,
          net (snd first) (List.length (sent (snd first))) request
          = Response status body
          /\ parse_css body = Ok weight_url_map
          /\ forall weight p,
               In weight [300%Z; 400%Z; 700%Z] ->
               target (safe_name "Demo Sans") weight_url_map weight = Some p ->
               node_at (snd first) (realpath (snd first) p) <> None
               /\ node_at (snd second) (realpath (snd second) p) <> None).
Proof.
  cbv zeta.
  apply (@second_fetch_hits_cache "Demo Sans" None (demo_world 200)).
  - apply surjective_pairing.
  - apply surjective_pairing.
  - vm_compute. reflexivity.
  - vm_compute. reflexivity.
Defined.

(** C7 as it is worded fails when a download of the first call fails.
    On [flaky_world] the bold asset cannot be fetched; the style sheet is
    answered alike both times, yet the second call finds no file at the
    cache path of bold and requests the asset again. *)
Lemma failed_download_is_requested_again :
  let w := flaky_world in
  let request := GetCss "Demo Sans" [300%Z; 400%Z; 700%Z] in
  let first := download_google_font "Demo Sans" None w in
  let second := download_google_font "Demo Sans" None (snd first) in
  net w (List.length (sent w)) request
  = net (snd first) (List.length (sent (snd first))) request
  /\ (exists weight_url_map,
        parse_css demo_css = Ok weight_url_map
        /\ target "demo_sans" weight_url_map 700%Z
           = Some "fonts/cache/demo_sans_bold.woff2")
  /\ present (snd first)
             (realpath (snd first) "fonts/cache/demo_sans_bold.woff2")
     = false
  /\ sent (snd second)
     = GetUrl "https://fonts.gstatic.com/s/demo/v1/demo-700.woff2"
       :: request :: sent (snd first).
Proof.
  cbv zeta. split; [vm_compute; reflexivity|]. split.
  - eexists. split; vm_compute; reflexivity.
  - split; vm_compute; reflexivity.
Qed.

(** X5. [download_google_font] raises in one case only: the cache
    directory cannot be made.  Then it has sent and printed nothing and
    the world is as before; in every other case it returns. *)
Theorem download_raises_only_without_cache_dir :
  forall (font_family : string) (weights : option (list Z)) (w : World),
    (mkdir_parents (realpath w (Pathlib.str FONTS_CACHE_DIR)) w
     = (Raised OSError, w)
     /\ download_google_font font_family weights w = (Raised OSError, w))
    \/ (exists w0 result w',
          mkdir_parents (realpath w (Pathlib.str FONTS_CACHE_DIR)) w
          = (Ok tt, w0)
          /\ download_google_font font_family weights w = (Ok result, w')).
Proof.
  intros font_family weights w.
  destruct (download_google_font_effects font_family weights w)
    as [H|(o & w' & reqs & Hrun & _)]; [now left|right].
  destruct (mkdir_parents_run (realpath w (Pathlib.str FONTS_CACHE_DIR)) w)
    as [Hraise|(w0 & Hmk & _)].
  - rewrite (@download_google_font_no_dir font_family weights w Hraise)
      in Hrun. discriminate.
  - eauto.
Qed.

(** X6. A call of [download_google_font] changes and removes nothing
    that exists: every entry of the file system is afterwards what it
    was before, so a cached file is never rewritten. *)
Theorem download_keeps_what_exists :
  forall (font_family : string) (weights : option (list Z)) (w : World),
    keeps w (snd (download_google_font font_family weights w))
    /\ same_env w (snd (download_google_font font_family weights w)).
Proof.
  intros font_family weights w.
  destruct (download_google_font_effects font_family weights w)
    as [[_ ->]|(o & w' & reqs & -> & Henv & Hk & _)].
  - split; [apply keeps_refl|apply same_env_refl].
  - split; assumption.
Qed.

(** X7. A call of [download_google_font] that returns has sent the
    style-sheet request first and then at most one request per requested
    weight, each for a URL that lines 55-71 extracted from the answer. *)
Theorem requests_of_a_download :
  forall (font_family : string) (weights : option (list Z)) (w w' : World)
         (result : option FontFiles),
    let request := GetCss font_family (requested weights) in
    download_google_font font_family weights w = (Ok result, w') ->
    exists reqs,
      sent w' = (reqs ++ request :: sent w)%list
      /\ List.length reqs <= List.length (requested weights)
      /\ Forall (fun q =>
                   exists status body weight_url_map u,
                     net w (List.length (sent w)) request
                     = Response status body
                     /\ parse_css body = Ok weight_url_map
                     /\ In u (Dict.values weight_url_map)
                     /\ q = GetUrl u) reqs.
Proof.
  intros font_family weights w w' result request Hrun.
  destruct (download_google_font_effects font_family weights w)
    as [[_ H]|(o & w1 & reqs & H & _ & _ & Hsent & Hlen & Hreqs & _)];
    rewrite H in Hrun; [discriminate|].
  injection Hrun as _ <-. exists reqs. auto.
Qed.

Lemma requests_of_a_download_witness :
  let request := GetCss "Demo Sans" [300%Z; 400%Z; 700%Z] in
  let w := demo_world 200 in
  exists reqs,
    sent (snd (download_google_font "Demo Sans" None w))
    = (reqs ++ request :: sent w)%list
    /\ List.length reqs <= 3
    /\ Forall (fun q =>
                 exists status body weight_url_map u,
                   net w (List.length (sent w)) request = Response status body
                   /\ parse_css body = Ok weight_url_map
                   /\ In u (Dict.values weight_url_map)
                   /\ q = GetUrl u) reqs.
Proof.
  cbv zeta.
  apply (@requests_of_a_download "Demo Sans" None (demo_world 200)
           (snd (download_google_font "Demo Sans" None (demo_world 200)))
           (Some [("light", "fonts/cache/demo_sans_light.woff2");
                  ("regular", "fonts/cache/demo_sans_regular.woff2");
                  ("bold", "fonts/cache/demo_sans_bold.woff2")])).
  apply with_final_world. vm_compute. reflexivity.
Defined.

(** X8. Every path of a font set that [download_google_font] returns is
    a cache path of the family, for one of the three roles and one of the
    two formats, and a file is there when the call returns. *)
Theorem returned_paths_are_cached_files :
  forall (font_family : string) (weights : option (list Z)) (w w' : World)
         (d : FontFiles) (key p : string),
    download_google_font font_family weights w = (Ok (Some d), w') ->
    Dict.get String.eqb d key = Some p ->
    cache_path_of (safe_name font_family) p
    /\ node_at w' (realpath w' p) <> None.
Proof.
  intros font_family weights w w' d key p Hrun Hp.
  destruct (download_google_font_effects font_family weights w)
    as [[_ H]|(o & w1 & reqs & H & _ & _ & _ & _ & _ & Hvals)];
    rewrite H in Hrun; [discriminate|].
  injection Hrun as -> <-. exact (Hvals d key p eq_refl Hp).
Qed.

Lemma returned_paths_are_cached_files_witness :
  let w' := snd (download_google_font "Demo Sans" None flaky_world) in
  cache_path_of (safe_name "Demo Sans") "fonts/cache/demo_sans_regular.woff2"
  /\ node_at w' (realpath w' "fonts/cache/demo_sans_regular.woff2") <> None.
Proof.
  cbv zeta.
  apply (@returned_paths_are_cached_files "Demo Sans" None flaky_world
           (snd (download_google_font "Demo Sans" None flaky_world))
           [("light", "fonts/cache/demo_sans_light.woff2");
            ("regular", "fonts/cache/demo_sans_regular.woff2");
            ("bold", "fonts/cache/demo_sans_regular.woff2")]
           "bold").
  - apply with_final_world. vm_compute. reflexivity.
  - reflexivity.
Defined.

Lemma weights_loop_without_urls (font_family font_name_safe : string)
      (ws : list Z) :
  forall (ff : FontFiles) (w : World),
    for_each ws (download_weight font_family font_name_safe []) ff w
    = (Ok ff, w).
Proof.
  induction ws as [|x ws IH]; intros ff w; [reflexivity|].
  cbn [for_each]. unfold bind at 1.
  assert (download_weight font_family font_name_safe [] ff x w = (Ok ff, w))
    as -> by reflexivity.
  apply IH.
Qed.

(** X9. When the style sheet is answered and parsed to its end, but no
    block of it yields a weight and a URL, or when no weight is
    requested, the call returns [None] without a word: apart from the
    style-sheet request nothing is sent, nothing is printed and nothing
    is written. *)
Theorem nothing_to_fetch_yields_none_silently :
  forall (font_family : string) (weights : option (list Z)) (w w0 : World)
         (status : Z) (body : string) (weight_url_map : Dict.t Z string),
    mkdir_parents (realpath w (Pathlib.str FONTS_CACHE_DIR)) w = (Ok tt, w0) ->
    net w0 (List.length (sent w0)) (GetCss font_family (requested weights))
    = Response status body ->
    Z.leb 400 status && Z.ltb status 600 = false ->
    parse_css body = Ok weight_url_map ->
    requested weights = [] \/ weight_url_map = [] ->
    download_google_font font_family weights w
    = (Ok None, after_request font_family (requested weights) w0).
Proof.
  intros font_family weights w w0 status body m Hmk Hreply Hstatus Hparse
         Hnothing.
  rewrite (@download_google_font_answered font_family weights w w0 status body
             Hmk Hreply Hstatus).
  unfold handled_css, try_except, download_from_css. rewrite Hparse.
  assert (Hm : forall u, of_result (Ok m) u = (Ok m, u)) by reflexivity.
  rewrite bind_ok with (1 := Hm _).
  destruct Hnothing as [-> | ->]; [reflexivity|].
  rewrite bind_ok with (1 := weights_loop_without_urls _ _ _ _ _).
  reflexivity.
Qed.

Lemma nothing_to_fetch_yields_none_silently_witness :
  let w := blockless_world in
  let w0 := snd (mkdir_parents (realpath w (Pathlib.str FONTS_CACHE_DIR)) w) in
  download_google_font "Demo Sans" None w
  = (Ok None, after_request "Demo Sans" [300%Z; 400%Z; 700%Z] w0).
Proof.
  cbv zeta.
  apply (@nothing_to_fetch_yields_none_silently "Demo Sans" None
           blockless_world _ 200%Z "/* no such family */" []).
  - apply with_final_world. vm_compute. reflexivity.
  - reflexivity.
  - reflexivity.
  - vm_compute. reflexivity.
  - right. reflexivity.
Defined.

(** A style sheet with a weight of 4301 digits: line 66 raises, the
    handler of lines 132-134 prints the error, and the call returns
    [None]; so does a family whose cache path is too long for [stat] at
    line 102. *)
Example parse_and_stat_errors_are_handled :
  parse_css overlong_css = Raised ValueError
  /\ fst (download_google_font "Demo Sans" None overlong_world) = Ok None
  /\ hd_error (stdout (snd (download_google_font "Demo Sans" None
                                                 overlong_world)))
     = Some (MsgGoogleError "Demo Sans" ValueError)
  /\ fst (download_google_font long_name None strict_world) = Ok None
  /\ hd_error (stdout (snd (download_google_font long_name None strict_world)))
     = Some (MsgGoogleError long_name OSError).
Proof. repeat split; vm_compute; reflexivity. Qed.

(* ================================================================== *)
(** * The URLs of the style sheet *)

Lemma rx_lit (R : Type) (c : ascii) (pos : nat) (s : string) (caps : Re.Caps)
      (k : nat -> string -> Re.Caps -> option R) (x : R) :
  Re.rx (Re.Lit c) pos s caps k = Some x ->
  exists s', s = String c s' /\ k (S pos) s' caps = Some x.
Proof.
  cbn [Re.rx]. destruct s as [|c' s']; [discriminate|].
  destruct (Ascii.eqb c c') eqn:E; [|discriminate].
  apply Ascii.eqb_eq in E. subst. eauto.
Qed.

Lemma rx_class (R : Type) (p : ascii -> bool) (pos : nat) (s : string)
      (caps : Re.Caps) (k : nat -> string -> Re.Caps -> option R) (x : R) :
  Re.rx (Re.Class p) pos s caps k = Some x ->
  exists c s', s = String c s' /\ p c = true /\ k (S pos) s' caps = Some x.
Proof.
  cbn [Re.rx]. destruct s as [|c' s']; [discriminate|].
  destruct (p c') eqn:E; [|discriminate]. eauto.
Qed.

Lemma rx_cat (R : Type) (r1 r2 : Re.regex) (pos : nat) (s : string)
      (caps : Re.Caps) (k : nat -> string -> Re.Caps -> option R) :
  Re.rx (Re.Cat r1 r2) pos s caps k
  = Re.rx r1 pos s caps (fun pos' s' caps' => Re.rx r2 pos' s' caps' k).
Proof. reflexivity. Qed.

Lemma rx_group (R : Type) (i : nat) (r1 : Re.regex) (pos : nat) (s : string)
      (caps : Re.Caps) (k : nat -> string -> Re.Caps -> option R) :
  Re.rx (Re.Group i r1) pos s caps k
  = Re.rx r1 pos s caps
          (fun pos' s' caps' =>
             k pos' s' ((i, substring 0 (pos' - pos) s) :: caps')).
Proof. reflexivity. Qed.

Lemma rx_or (R : Type) (r1 r2 : Re.regex) (pos : nat) (s : string)
      (caps : Re.Caps) (k : nat -> string -> Re.Caps -> option R) :
  Re.rx (Re.Or r1 r2) pos s caps k
  = match Re.rx r1 pos s caps k with
    | Some x => Some x
    | None => Re.rx r2 pos s caps k
    end.
Proof. reflexivity. Qed.

Lemma rx_text (R : Type) (t : string) :
  t <> "" ->
  forall (pos : nat) (s : string) (caps : Re.Caps)
         (k : nat -> string -> Re.Caps -> option R) (x : R),
    Re.rx (Re.Text t) pos s caps k = Some x ->
    exists s', s = (t ++ s')%string
               /\ k (pos + String.length t) s' caps = Some x.
Proof.
  induction t as [|c t IH]; [congruence|]. intros _ pos s caps k x H.
  destruct t as [|c' t'].
  - change (Re.Text (String c "")) with (Re.Lit c) in H.
    apply rx_lit in H. destruct H as (s' & -> & H).
    exists s'. split; [reflexivity|]. cbn. now rewrite Nat.add_1_r.
  - change (Re.Text (String c (String c' t')))
      with (Re.Cat (Re.Lit c) (Re.Text (String c' t'))) in H.
    rewrite rx_cat in H. apply rx_lit in H.
    destruct H as (s1 & -> & H).
    apply IH in H; [|discriminate]. destruct H as (s' & -> & H).
    exists s'. split; [reflexivity|].
    replace (pos + String.length (String c (String c' t')))
      with (S pos + String.length (String c' t')) by (cbn; lia).
    exact H.
Qed.

Lemma rx_star_loop (R : Type) (r1 : Re.regex) (pos : nat) (s : string)
      (caps : Re.Caps) (k : nat -> string -> Re.Caps -> option R) :
  Re.rx (Re.Star r1) pos s caps k
  = star_loop r1 k (S (String.length s)) pos s caps.
Proof. reflexivity. Qed.

Lemma star_loop_class (R : Type) (p : ascii -> bool)
      (k : nat -> string -> Re.Caps -> option R) (fuel : nat) :
  forall (pos : nat) (s : string) (caps : Re.Caps) (x : R),
    star_loop (Re.Class p) k fuel pos s caps = Some x ->
    exists m s', s = (m ++ s')%string
                 /\ all_chars p m = true
                 /\ k (pos + String.length m) s' caps = Some x.
Proof.
  induction fuel as [|fuel IH]; intros pos s caps x H.
  - exists "", s. cbn in H. rewrite Nat.add_0_r. auto.
  - change (match Re.rx (Re.Class p) pos s caps
                        (fun pos' s' caps' =>
                           if Nat.ltb pos pos'
                           then star_loop (Re.Class p) k fuel pos' s' caps'
                           else None) with
            | Some y => Some y
            | None => k pos s caps
            end = Some x) in H.
    destruct (Re.rx (Re.Class p) pos s caps _) as [y|] eqn:E.
    + injection H as ->. apply rx_class in E.
      destruct E as (c & s1 & -> & Hp & E).
      assert (Nat.ltb pos (S pos) = true) as Hlt by (apply Nat.ltb_lt; lia).
      rewrite Hlt in E. apply IH in E.
      destruct E as (m & s' & -> & Hall & Hk).
      exists (String c m), s'. split; [reflexivity|]. split.
      * cbn. now rewrite Hp, Hall.
      * replace (pos + String.length (String c m))
          with (S pos + String.length m) by (cbn; lia).
        exact Hk.
    + exists "", s. rewrite Nat.add_0_r. auto.
Qed.

Lemma rx_plus_class (R : Type) (p : ascii -> bool) (pos : nat) (s : string)
      (caps : Re.Caps) (k : nat -> string -> Re.Caps -> option R) (x : R) :
  Re.rx (Re.Plus (Re.Class p)) pos s caps k = Some x ->
  exists m s', s = (m ++ s')%string
               /\ m <> ""
               /\ all_chars p m = true
               /\ k (pos + String.length m) s' caps = Some x.
Proof.
  unfold Re.Plus. rewrite rx_cat. intro H. apply rx_class in H.
  destruct H as (c & s1 & -> & Hp & H).
  rewrite rx_star_loop in H.
  apply star_loop_class in H. destruct H as (m & s' & -> & Hall & Hk).
  exists (String c m), s'. split; [reflexivity|]. split; [discriminate|].
  split.
  - cbn. now rewrite Hp, Hall.
  - replace (pos + String.length (String c m))
      with (S pos + String.length m) by (cbn; lia).
    exact Hk.
Qed.

Lemma substring_prefix (a b : string) :
  substring 0 (String.length a) (a ++ b) = a.
Proof.
  induction a as [|c a IH]; cbn.
  - now destruct b.
  - now rewrite IH.
Qed.

Lemma length_append (a b : string) :
  String.length (a ++ b) = String.length a + String.length b.
Proof. induction a as [|c a IH]; cbn; [reflexivity|now rewrite IH]. Qed.

Lemma append_assoc (a b c : string) :
  ((a ++ b) ++ c)%string = (a ++ (b ++ c))%string.
Proof. induction a as [|x a IH]; cbn; [reflexivity|now rewrite IH]. Qed.

(** What a match of line 69 captures. *)
Lemma url_re_match (pos : nat) (s : string) (m : Re.rmatch) :
  Re.match_at url_re pos s = Some m -> asset_url (group1 m).
Proof.
  unfold Re.match_at, url_re. rewrite rx_cat. intro H.
  apply rx_text in H; [|discriminate]. destruct H as (s1 & -> & H).
  rewrite rx_cat, rx_group, rx_cat in H.
  apply rx_text in H; [|discriminate]. destruct H as (s2 & Hs1 & H).
  rewrite rx_cat in H.
  apply rx_plus_class in H. destruct H as (mid & s3 & -> & Hmid & Hall & H).
  rewrite rx_cat in H.
  apply rx_lit in H. destruct H as (s4 & -> & H).
  rewrite rx_group, rx_or in H.
  set (p1 := pos + String.length "url(") in *.
  set (p4 := S (p1 + String.length "https://" + String.length mid)) in *.
  assert (Hext : exists ext s5,
             (ext = "woff2" \/ ext = "ttf")
             /\ s4 = (ext ++ String ")" s5)%string
             /\ group1 m
                = substring 0 (p4 + String.length ext - p1) s1).
  { match type of H with
    | match ?a with Some y => Some y | None => ?b end = _ =>
        destruct a as [y|] eqn:E; [injection H as ->|clear E; rename H into E]
    end.
    - apply rx_text in E; [|discriminate]. destruct E as (s5 & -> & E).
      apply rx_lit in E. destruct E as (s6 & -> & E).
      injection E as <-. exists "woff2", s6. auto.
    - apply rx_text in E; [|discriminate]. destruct E as (s5 & -> & E).
      apply rx_lit in E. destruct E as (s6 & -> & E).
      injection E as <-. exists "ttf", s6. auto. }
  destruct Hext as (ext & s5 & Hext & -> & ->).
  exists mid, ext. split; [|auto].
  rewrite Hs1.
  assert (Hlen : String.length ("https://" ++ mid ++ "." ++ ext)%string
                 = p4 + String.length ext - p1).
  { unfold p4. rewrite !length_append.
    change (String.length "https://") with 8.
    change (String.length ".") with 1. lia. }
  rewrite <- Hlen.
  replace ("https://" ++ (mid ++ String "." (ext ++ String ")" s5)))%string
    with (("https://" ++ mid ++ "." ++ ext) ++ String ")" s5)%string.
  - apply substring_prefix.
  - rewrite !append_assoc. cbn. rewrite ?append_assoc. reflexivity.
Qed.

Lemma search_at_match (r : Re.regex) (s : string) :
  forall (pos : nat) (m : Re.rmatch),
    Re.search_at r pos s = Some m ->
    exists pos' s' m',
      Re.match_at r pos' s' = Some m' /\ Re.m_groups m = Re.m_groups m'.
Proof.
  induction s as [|c s IH]; intros pos m H; cbn [Re.search_at] in H.
  - destruct (Re.match_at r pos "") as [m'|] eqn:E; [|discriminate].
    injection H as <-. eauto.
  - destruct (Re.match_at r pos (String c s)) as [m'|] eqn:E.
    + injection H as <-. eauto.
    + destruct (Re.search_at r (S pos) s) as [m1|] eqn:E1; [|discriminate].
      injection H as <-. destruct (IH _ _ E1) as (pos' & s' & m' & Hm & Hg).
      exists pos', s', m'. auto.
Qed.

Lemma block_url_shape (block u : string) :
  block_url block = Some u -> asset_url u.
Proof.
  unfold block_url, Re.search.
  destruct (Re.search_at url_re 0 block) as [m|] eqn:E; [|discriminate].
  intros [= <-]. apply search_at_match in E.
  destruct E as (pos' & s' & m' & Hm & Hg).
  apply url_re_match in Hm. unfold group1 in *. now rewrite Hg.
Qed.

Lemma values_set (K V : Type) (eqb : K -> K -> bool) (d : Dict.t K V)
      (k : K) (v x : V) :
  In x (Dict.values (Dict.set eqb d k v)) -> x = v \/ In x (Dict.values d).
Proof.
  induction d as [|[k' v'] d IH]; cbn.
  - intros [<-|[]]. now left.
  - destruct (eqb k k'); cbn.
    + intros [<-|H]; auto.
    + intros [<-|H]; auto. destruct (IH H); auto.
Qed.

Lemma parse_css_urls (css_content u : string) (m : Dict.t Z string) :
  parse_css css_content = Ok m -> In u (Dict.values m) -> asset_url u.
Proof.
  unfold parse_css.
  assert (Hloop : forall blocks m0 m1,
             parse_blocks blocks m0 = Ok m1 ->
             (forall x, In x (Dict.values m0) -> asset_url x) ->
             forall x, In x (Dict.values m1) -> asset_url x).
  { induction blocks as [|b blocks IH]; intros m0 m1 H Hm0;
      cbn [parse_blocks] in H; [now injection H as <-|].
    destruct (parse_block m0 b) as [m0'|e] eqn:Eb; [|discriminate].
    apply (IH _ _ H). intros x Hx. unfold parse_block in Eb.
    destruct (block_weight b) as [[w|e]|]; [| discriminate |].
    - destruct (block_url b) as [url|] eqn:Eurl.
      + injection Eb as <-. apply values_set in Hx.
        destruct Hx as [->|Hx]; [|auto].
        exact (block_url_shape _ Eurl).
      + injection Eb as <-. auto.
    - injection Eb as <-. auto. }
  intros H. apply (Hloop _ _ _ H). intros x [].
Qed.

(** X10. Every asset that [download_google_font] requests has a URL
    that starts with [https://], goes on with a non-empty part free of
    closing parentheses and ends in [.woff2] or [.ttf]: no other URL of
    the style sheet is ever fetched. *)
Theorem only_https_fonts_are_requested :
  forall (font_family : string) (weights : option (list Z)) (w : World)
         (u : string),
    In (GetUrl u) (sent (snd (download_google_font font_family weights w))) ->
    In (GetUrl u) (sent w) \/ asset_url u.
Proof.
  intros font_family weights w u.
  destruct (download_google_font_effects font_family weights w)
    as [[_ ->]|(o & w1 & reqs & -> & _ & _ & Hsent & _ & Hreqs & _)];
    cbn [snd]; [auto|].
  rewrite Hsent. intro Hin. apply in_app_or in Hin.
  destruct Hin as [Hin|[Hin|Hin]]; [|discriminate|now left].
  right. rewrite Forall_forall in Hreqs.
  destruct (Hreqs _ Hin) as (status & body & m & u' & _ & Hm & Hu & [= ->]).
  exact (@parse_css_urls body u' m Hm Hu).
Qed.

Lemma only_https_fonts_are_requested_witness :
  In (GetUrl "https://fonts.gstatic.com/s/demo/v1/demo-700.woff2")
     (sent flaky_world)
  \/ asset_url "https://fonts.gstatic.com/s/demo/v1/demo-700.woff2".
Proof.
  apply (@only_https_fonts_are_requested "Demo Sans" None flaky_world).
  vm_compute. tauto.
Defined.

(* ================================================================== *)
(** * The chain of [load_fonts] *)

Lemma reads_verify_fonts (items : list (string * string)) :
  reads (verify_fonts items).
Proof.
  induction items as [|[key path] items IH]; cbn [verify_fonts].
  - apply reads_ret.
  - apply reads_bind; [exact (reads_query (fun w => realpath w path))|].
    intro k.
    apply reads_bind; [exact (reads_query (fun w => present w k))|].
    intros [|]; cbn [negb]; [exact IH|reads_tac].
Qed.

Lemma reads_load_default_fonts : reads load_default_fonts.
Proof.
  unfold load_default_fonts.
  apply reads_bind; [apply reads_verify_fonts|]. intro. apply reads_ret.
Qed.

(** The local stage followed by the bundled stage: it returns after
    printing, or raises what [load_fonts_from_path] raises, the world
    being as before. *)
Lemma load_local_or_default_run (font_path : option string) (w : World) :
  (exists result msgs,
      load_local_or_default font_path w = (Ok result, add_out msgs w))
  \/ (exists p e,
        font_path = Some p
        /\ load_fonts_from_path p w = (Raised e, w)
        /\ load_local_or_default font_path w = (Raised e, w)).
Proof.
  unfold load_local_or_default.
  destruct font_path as [[|c p]|];
    try (left; apply reads_load_default_fonts).
  destruct (load_fonts_from_path_outcome (String c p) w)
    as [(fonts & msgs & Hl)|(e & Hl)].
  - left. rewrite bind_ok with (1 := Hl).
    destruct (truthy_fonts fonts); [exists fonts, msgs; reflexivity|].
    rewrite bind_ok with (1 := print_say _ _).
    destruct (reads_load_default_fonts (say MsgFailedPath (add_out msgs w)))
      as (r & msgs2 & H2).
    rewrite H2. exists r, (msgs2 ++ MsgFailedPath :: msgs)%list.
    unfold say. rewrite !add_out_app, <- app_assoc. reflexivity.
  - right. exists (String c p), e. split; [reflexivity|].
    split; [exact Hl|]. now apply bind_raised.
Qed.

Lemma load_fonts_local (font_family font_path : option string) :
  remote_family font_family = false ->
  load_fonts font_family font_path = load_local_or_default font_path.
Proof.
  unfold remote_family, load_fonts.
  destruct font_family as [[|c family]|]; try reflexivity.
  now destruct (String.eqb (Str.lower (String c family)) "roboto").
Qed.

(** X11. Without a family, with an empty family or with the family
    Roboto in any letter case, [load_fonts] stays on the machine: it
    sends nothing and writes nothing.  Either it returns, the world
    afterwards differing by printed lines only, or it raises what
    [load_fonts_from_path] raises on the given path, and then the world
    is as it was. *)
Theorem bundled_family_stays_local :
  forall (font_family font_path : option string) (w : World),
    remote_family font_family = false ->
    (exists result msgs,
        load_fonts font_family font_path w = (Ok result, add_out msgs w))
    \/ (exists p e,
          font_path = Some p
          /\ load_fonts_from_path p w = (Raised e, w)
          /\ load_fonts font_family font_path w = (Raised e, w)).
Proof.
  intros font_family font_path w Hlocal.
  rewrite (load_fonts_local _ font_path Hlocal).
  apply load_local_or_default_run.
Qed.

Lemma bundled_family_stays_local_witness :
  (exists result msgs,
      load_fonts (Some "ROBOTO") (Some "faces") roboto_world
      = (Ok result, add_out msgs roboto_world))
  \/ (exists p e,
        Some "faces" = Some p
        /\ load_fonts_from_path p roboto_world = (Raised e, roboto_world)
        /\ load_fonts (Some "ROBOTO") (Some "faces") roboto_world
           = (Raised e, roboto_world)).
Proof.
  apply bundled_family_stays_local. reflexivity.
Defined.

Lemma load_default_fonts_run (w : World) :
  exists msgs,
    load_default_fonts w
    = (Ok (if defaults_present w then Some default_fonts else None),
       add_out msgs w)
    /\ (defaults_present w = false ->
        exists p, In p (Dict.values default_fonts)
                  /\ node_at w (realpath w p) = None
                  /\ msgs = [MsgFontNotFound p]).
Proof.
  unfold load_default_fonts, defaults_present, default_fonts, present.
  unfold verify_fonts, bind, locate, os_path_exists, ret, print. simpl.
  destruct (node_at w (realpath w (os_path_join FONTS_DIR "Roboto-Bold.ttf")))
    eqn:Eb; simpl.
  2: { exists [MsgFontNotFound (os_path_join FONTS_DIR "Roboto-Bold.ttf")].
       split; [reflexivity|]. intros _. eexists. split; [left; reflexivity|].
       split; [exact Eb|reflexivity]. }
  destruct (node_at w
              (realpath w (os_path_join FONTS_DIR "Roboto-Regular.ttf")))
    eqn:Er; simpl.
  2: { exists [MsgFontNotFound (os_path_join FONTS_DIR "Roboto-Regular.ttf")].
       split; [reflexivity|]. intros _. eexists.
       split; [right; left; reflexivity|].
       split; [exact Er|reflexivity]. }
  destruct (node_at w (realpath w (os_path_join FONTS_DIR "Roboto-Light.ttf")))
    eqn:El; simpl.
  2: { exists [MsgFontNotFound (os_path_join FONTS_DIR "Roboto-Light.ttf")].
       split; [reflexivity|]. intros _. eexists.
       split; [right; right; left; reflexivity|].
       split; [exact El|reflexivity]. }
  exists []. split; [now rewrite add_out_nil|discriminate].
Qed.

Lemma load_local_or_default_stages (font_path : option string) (w w' : World)
      (r : Result (option FontFiles)) :
  load_local_or_default font_path w = (r, w') ->
  (exists e, r = Raised e)
  \/ (exists d, r = Ok (Some d))
  \/ (exists w0 msgs, w0 = add_out msgs w /\ load_default_fonts w0 = (r, w')).
Proof.
  unfold load_local_or_default.
  destruct font_path as [[|c p]|];
    try (intro H; right; right; exists w, []; rewrite add_out_nil; auto; fail).
  destruct (load_fonts_from_path_outcome (String c p) w)
    as [(fonts & msgs & Hl)|(e & Hl)].
  2: { rewrite bind_raised with (1 := Hl). intros [= <- _]. left. eauto. }
  rewrite bind_ok with (1 := Hl).
  destruct fonts as [d|]; cbn [truthy_fonts].
  - destruct (Dict.truthy d).
    + intros [= <- _]. right. left. eauto.
    + rewrite bind_ok with (1 := print_say _ _). intro H. right. right.
      exists (say MsgFailedPath (add_out msgs w)), (MsgFailedPath :: msgs).
      split; [reflexivity|exact H].
  - rewrite bind_ok with (1 := print_say _ _). intro H. right. right.
    exists (say MsgFailedPath (add_out msgs w)), (MsgFailedPath :: msgs).
    split; [reflexivity|exact H].
Qed.

(** Where a run of [load_fonts] ends. *)
Lemma load_fonts_stages (font_family font_path : option string) (w w' : World)
      (r : Result (option FontFiles)) :
  load_fonts font_family font_path w = (r, w') ->
  (exists e, r = Raised e)
  \/ (exists d, r = Ok (Some d))
  \/ (exists w0,
        load_default_fonts w0 = (r, w')
        /\ keeps w w0 /\ realpath w0 = realpath w).
Proof.
  intro H.
  assert (Hlocal : forall w1 r1 w1',
             keeps w w1 -> realpath w1 = realpath w ->
             load_local_or_default font_path w1 = (r1, w1') ->
             (exists e, r1 = Raised e)
             \/ (exists d, r1 = Ok (Some d))
             \/ (exists w0,
                   load_default_fonts w0 = (r1, w1')
                   /\ keeps w w0 /\ realpath w0 = realpath w)).
  { intros w1 r1 w1' Hk Hr H1. apply load_local_or_default_stages in H1.
    destruct H1 as [H1|[H1|(w0 & msgs & -> & H1)]];
      [now left|now right; left|right; right].
    exists (add_out msgs w1). split; [exact H1|]. split; [|exact Hr].
    eapply keeps_trans; [exact Hk|]. now apply keeps_same_nodes. }
  destruct (remote_family font_family) eqn:Eremote.
  2: { rewrite (load_fonts_local _ font_path Eremote) in H.
       exact (Hlocal _ _ _ (keeps_refl w) eq_refl H). }
  unfold remote_family in Eremote. unfold load_fonts in H.
  destruct font_family as [[|c family]|]; try discriminate.
  rewrite Eremote in H.
  rewrite bind_ok with (1 := print_say _ w) in H.
  set (w1 := say (MsgLoadingGoogle (String c family)) w) in *.
  destruct (download_google_font_effects (String c family) None w1)
    as [[_ Hrun]|(o & w2 & reqs & Hrun & (_ & Hreal & _) & Hk & _)].
  - rewrite bind_raised with (1 := Hrun) in H. injection H as <- _.
    left. eauto.
  - rewrite bind_ok with (1 := Hrun) in H.
    destruct (truthy_fonts o) eqn:Etruthy.
    + rewrite bind_ok with (1 := print_say _ _) in H.
      injection H as <- _. destruct o as [d|]; [|discriminate].
      right. left. eauto.
    + rewrite bind_ok with (1 := print_say _ _) in H.
      apply (Hlocal _ _ _) in H; [exact H| |exact Hreal].
      eapply keeps_trans; [|apply keeps_same_nodes; reflexivity].
      eapply keeps_trans; [apply keeps_same_nodes; reflexivity|exact Hk].
Qed.

(** X12. When [load_fonts] returns [None], its last line is the warning
    that a bundled file was not found, and that file is indeed absent:
    the whole resolution fails only at the last stage. *)
Theorem none_means_a_bundled_file_is_missing :
  forall (font_family font_path : option string) (w w' : World),
    load_fonts font_family font_path w = (Ok None, w') ->
    exists p,
      In p (Dict.values default_fonts)
      /\ node_at w' (realpath w' p) = None
      /\ hd_error (stdout w') = Some (MsgFontNotFound p).
Proof.
  intros font_family font_path w w' H.
  apply load_fonts_stages in H.
  destruct H as [(e & H)|[(d & H)|(w0 & H & _)]]; try discriminate.
  destruct (load_default_fonts_run w0) as (msgs & Hrun & Hmissing).
  rewrite Hrun in H. destruct (defaults_present w0); [discriminate|].
  destruct (Hmissing eq_refl) as (p & Hin & Hnode & ->).
  injection H as <-. exists p. auto.
Qed.

Lemma none_means_a_bundled_file_is_missing_witness :
  let w' := snd (load_fonts (Some "Roboto") (Some "missing") (demo_world 200)) in
  exists p,
    In p (Dict.values default_fonts)
    /\ node_at w' (realpath w' p) = None
    /\ hd_error (stdout w') = Some (MsgFontNotFound p).
Proof.
  cbv zeta.
  apply (@none_means_a_bundled_file_is_missing (Some "Roboto") (Some "missing")
           (demo_world 200)).
  apply with_final_world. vm_compute. reflexivity.
Defined.

(** X13. With the three bundled files on disk, [load_fonts] never
    returns [None]: whatever the family and the path, a call that
    returns yields a font set. *)
Theorem bundled_fonts_guarantee_a_font_set :
  forall (font_family font_path : option string) (w w' : World)
         (result : option FontFiles),
    defaults_present w = true ->
    load_fonts font_family font_path w = (Ok result, w') ->
    exists d, result = Some d /\ complete d.
Proof.
  intros font_family font_path w w' result Hpresent H.
  pose proof H as Hstage. apply load_fonts_stages in Hstage.
  destruct Hstage as [(e & Hr)|[(d & Hd)|(w0 & Hrun & Hk & Hreal)]];
    [discriminate| |].
  - injection Hd as ->. exists d. split; [reflexivity|].
    exact (load_fonts_complete _ _ _ H).
  - assert (Hpresent0 : defaults_present w0 = true).
    { unfold defaults_present in *. rewrite forallb_forall in *.
      intros item Hin. specialize (Hpresent item Hin).
      unfold present in *. rewrite Hreal.
      destruct (node_at w (realpath w (snd item))) as [n|] eqn:E;
        [|discriminate].
      now rewrite (Hk _ _ E). }
    destruct (load_default_fonts_run w0) as (msgs & Hrun0 & _).
    rewrite Hrun0, Hpresent0 in Hrun. injection Hrun as <- _.
    exists default_fonts. split; [reflexivity|apply default_fonts_complete].
Qed.

Lemma bundled_fonts_guarantee_a_font_set_witness :
  exists d,
    fst (load_fonts (Some "Demo Sans") (Some "missing") offline_world)
    = Ok (Some d)
    /\ complete d.
Proof.
  destruct (@bundled_fonts_guarantee_a_font_set
              (Some "Demo Sans") (Some "missing") offline_world
              (snd (load_fonts (Some "Demo Sans") (Some "missing")
                               offline_world))
              (Some default_fonts))
    as (d & Hd & Hc).
  - reflexivity.
  - apply with_final_world. vm_compute. reflexivity.
  - exists d. split; [|exact Hc]. injection Hd as <-. vm_compute. reflexivity.
Defined.

(** X14. A family that sends [load_fonts] to the network makes it raise
    when the cache directory cannot be made: the exception of line 30
    leaves [load_fonts] as well, and neither the local path nor the
    bundled fonts are tried. *)
Theorem blocked_cache_dir_stops_load_fonts :
  forall (font_family font_path : option string) (family : string) (w : World),
    font_family = Some family ->
    remote_family font_family = true ->
    mkdir_parents (realpath w (Pathlib.str FONTS_CACHE_DIR)) w
    = (Raised OSError, w) ->
    load_fonts font_family font_path w
    = (Raised OSError, say (MsgLoadingGoogle family) w).
Proof.
  intros font_family font_path family w -> Hremote Hmk.
  unfold remote_family in Hremote. unfold load_fonts.
  destruct family as [|c family]; [discriminate|]. rewrite Hremote.
  rewrite bind_ok with (1 := print_say _ w).
  apply bind_raised.
  apply download_google_font_no_dir.
  unfold mkdir_parents in *. cbn [nodes realpath say add_out].
  destruct (mkdir_walk [] (realpath w (Pathlib.str FONTS_CACHE_DIR)) (nodes w));
    [discriminate|reflexivity].
Qed.

Lemma blocked_cache_dir_stops_load_fonts_witness :
  load_fonts (Some "Demo Sans") (Some "missing") blocked_world
  = (Raised OSError, say (MsgLoadingGoogle "Demo Sans") blocked_world).
Proof.
  apply blocked_cache_dir_stops_load_fonts.
  - reflexivity.
  - reflexivity.
  - reflexivity.
Defined.

(* ================================================================== *)
(** * fix_unicode.py: what the script writes *)

Lemma replace_app (old : N) (new a b : FixUnicode.Text) :
  FixUnicode.replace old new (a ++ b)
  = (FixUnicode.replace old new a ++ FixUnicode.replace old new b)%list.
Proof. unfold FixUnicode.replace. apply flat_map_app. Qed.

Lemma fix_line_app (a b : FixUnicode.Text) :
  FixUnicode.fix_line (a ++ b)
  = (FixUnicode.fix_line a ++ FixUnicode.fix_line b)%list.
Proof. unfold FixUnicode.fix_line. now rewrite !replace_app. Qed.

Lemma fix_line_concat (lines : list FixUnicode.Text) :
  concat (List.map FixUnicode.fix_line lines)
  = FixUnicode.fix_line (concat lines).
Proof.
  induction lines as [|l lines IH]; [reflexivity|].
  cbn [List.map concat]. now rewrite fix_line_app, IH.
Qed.

Lemma concat_readlines (s : FixUnicode.Text) :
  concat (FixUnicode.readlines s) = s.
Proof.
  induction s as [|c s IH]; [reflexivity|]. cbn [FixUnicode.readlines].
  destruct (N.eqb c FixUnicode.LF).
  - cbn. now rewrite IH.
  - destruct (FixUnicode.readlines s) as [|line lines]; cbn in *.
    + now rewrite <- IH.
    + now rewrite <- IH.
Qed.

(** X15. The script rewrites one file and no other: what it writes is
    the text it read, every check mark, warning sign, ballot x and black
    circle replaced, on whatever line they stand and not only in print
    statements.  Without the file it stops at line 3 and writes
    nothing. *)
Theorem script_replaces_throughout :
  forall files : FixUnicode.Files,
    FixUnicode.fix_unicode files
    = match files FixUnicode.FILE with
      | None => None
      | Some content =>
          Some (fun name =>
                  if String.eqb name FixUnicode.FILE
                  then Some (FixUnicode.fix_line
                               (FixUnicode.universal_newlines content))
                  else files name,
                [FixUnicode.DONE])
      end.
Proof.
  intro files. unfold FixUnicode.fix_unicode.
  destruct (files FixUnicode.FILE) as [content|]; [|reflexivity].
  cbv zeta. now rewrite fix_line_concat, concat_readlines.
Qed.

Lemma in_replace (old x : N) (new line : FixUnicode.Text) :
  In x (FixUnicode.replace old new line) ->
  In x new \/ (x <> old /\ In x line).
Proof.
  unfold FixUnicode.replace. intro H. apply in_flat_map in H.
  destruct H as (c & Hc & H). destruct (N.eqb c old) eqn:E; [now left|].
  destruct H as [<-|[]]. right. split; [|exact Hc].
  intros ->. now rewrite N.eqb_refl in E.
Qed.

Lemma replace_absent (old : N) (new line : FixUnicode.Text) :
  ~ In old line -> FixUnicode.replace old new line = line.
Proof.
  unfold FixUnicode.replace. induction line as [|c line IH]; [reflexivity|].
  intro H. cbn [flat_map]. destruct (N.eqb c old) eqn:E.
  - apply N.eqb_eq in E. subst. exfalso. apply H. now left.
  - cbn. rewrite IH; [reflexivity|]. intro Hin. apply H. now right.
Qed.

(** Where a code point of a fixed line comes from. *)
Lemma in_fix_line (x : N) (line : FixUnicode.Text) :
  In x (FixUnicode.fix_line line) ->
  In x (FixUnicode.text_of "[+]!X*") \/ (~ In x FixUnicode.symbols /\ In x line).
Proof.
  unfold FixUnicode.fix_line. cbv zeta. intro H.
  apply in_replace in H. destruct H as [H|[H4 H]]; [left; cbn in *; tauto|].
  apply in_replace in H. destruct H as [H|[H3 H]]; [left; cbn in *; tauto|].
  apply in_replace in H. destruct H as [H|[H2 H]]; [left; cbn in *; tauto|].
  apply in_replace in H. destruct H as [H|[H1 H]]; [left; cbn in *; tauto|].
  right. split; [|exact H]. cbn. intros [E|[E|[E|[E|[]]]]]; congruence.
Qed.

Lemma fix_line_clean (line : FixUnicode.Text) :
  (forall x, In x FixUnicode.symbols -> ~ In x line) ->
  FixUnicode.fix_line line = line.
Proof.
  intro H. unfold FixUnicode.fix_line. cbv zeta.
  rewrite (@replace_absent FixUnicode.CHECK_MARK) by (apply H; cbn; tauto).
  rewrite (@replace_absent FixUnicode.WARNING_SIGN) by (apply H; cbn; tauto).
  rewrite (@replace_absent FixUnicode.BALLOT_X) by (apply H; cbn; tauto).
  apply replace_absent. apply H. cbn. tauto.
Qed.

Lemma universal_newlines_plain (s : FixUnicode.Text) :
  ~ In FixUnicode.CR s -> FixUnicode.universal_newlines s = s.
Proof.
  induction s as [|c s IH]; [reflexivity|]. intro H.
  cbn [FixUnicode.universal_newlines]. destruct (N.eqb c FixUnicode.CR) eqn:E.
  - apply N.eqb_eq in E. subst. exfalso. apply H. now left.
  - rewrite IH; [reflexivity|]. intro Hin. apply H. now right.
Qed.

Lemma universal_newlines_no_cr (s : FixUnicode.Text) :
  ~ In FixUnicode.CR (FixUnicode.universal_newlines s).
Proof.
  assert (H : forall n s, List.length s <= n ->
                          ~ In FixUnicode.CR (FixUnicode.universal_newlines s)).
  { clear s. induction n as [|n IH]; intros s Hlen.
    - destruct s; [intros []|cbn in Hlen; lia].
    - destruct s as [|c rest]; [intros []|].
      cbn [FixUnicode.universal_newlines]. cbn in Hlen.
      destruct (N.eqb c FixUnicode.CR) eqn:E.
      + intros [Hin|Hin]; [discriminate|].
        destruct rest as [|c' rest']; [exact Hin|].
        destruct (N.eqb c' FixUnicode.LF).
        * apply (IH rest'); [cbn in Hlen; lia|exact Hin].
        * apply (IH (c' :: rest')); [cbn in *; lia|exact Hin].
      + intros [Hin|Hin].
        * subst. now rewrite N.eqb_refl in E.
        * apply (IH rest); [lia|exact Hin]. }
  exact (H (List.length s) s (le_n _)).
Qed.

(** The text the script writes for the text it read. *)
Lemma fix_unicode_run (files : FixUnicode.Files) (content : FixUnicode.Text) :
  files FixUnicode.FILE = Some content ->
  FixUnicode.fix_unicode files
  = Some (fun name =>
            if String.eqb name FixUnicode.FILE
            then Some (FixUnicode.fix_line
                         (FixUnicode.universal_newlines content))
            else files name,
          [FixUnicode.DONE]).
Proof.
  intro H. unfold FixUnicode.fix_unicode. rewrite H. cbv zeta.
  now rewrite fix_line_concat, concat_readlines.
Qed.

(** X16. After the script the file holds none of the four symbols, and
    no carriage return. *)
Theorem no_symbol_is_left :
  forall (files files' : FixUnicode.Files) (out : list string)
         (content' : FixUnicode.Text) (x : N),
    FixUnicode.fix_unicode files = Some (files', out) ->
    files' FixUnicode.FILE = Some content' ->
    In x (FixUnicode.CR :: FixUnicode.symbols) ->
    ~ In x content'.
Proof.
  intros files files' out content' x Hrun Hfile Hx Hin.
  destruct (files FixUnicode.FILE) as [content|] eqn:E.
  2: { unfold FixUnicode.fix_unicode in Hrun. rewrite E in Hrun.
       discriminate. }
  rewrite (fix_unicode_run files E) in Hrun. injection Hrun as <- _.
  cbn in Hfile. injection Hfile as <-.
  apply in_fix_line in Hin. destruct Hin as [Hin|[Hsym Hin]].
  - cbn in Hx, Hin.
    destruct Hx as [<-|[<-|[<-|[<-|[<-|[]]]]]];
      repeat (destruct Hin as [Hin|Hin]; [discriminate|]); exact Hin.
  - destruct Hx as [<-|Hx]; [|contradiction].
    exact (universal_newlines_no_cr _ Hin).
Qed.

Lemma no_symbol_is_left_witness :
  ~ In FixUnicode.BLACK_CIRCLE
       (FixUnicode.fix_line (FixUnicode.universal_newlines FixUnicode.sample)).
Proof.
  apply (@no_symbol_is_left
           FixUnicode.sample_files
           (fun name =>
              if String.eqb name FixUnicode.FILE
              then Some (FixUnicode.fix_line
                           (FixUnicode.universal_newlines FixUnicode.sample))
              else FixUnicode.sample_files name)
           [FixUnicode.DONE]
           (FixUnicode.fix_line
              (FixUnicode.universal_newlines FixUnicode.sample))
           FixUnicode.BLACK_CIRCLE).
  - reflexivity.
  - reflexivity.
  - cbn. tauto.
Defined.

(** X17. Running the script a second time changes nothing: it writes
    back the text the first run wrote. *)
Theorem second_run_changes_nothing :
  forall (files files' : FixUnicode.Files) (out : list string),
    FixUnicode.fix_unicode files = Some (files', out) ->
    exists files'',
      FixUnicode.fix_unicode files' = Some (files'', out)
      /\ forall name, files'' name = files' name.
Proof.
  intros files files' out Hrun.
  destruct (files FixUnicode.FILE) as [content|] eqn:E.
  2: { unfold FixUnicode.fix_unicode in Hrun. rewrite E in Hrun.
       discriminate. }
  rewrite (fix_unicode_run files E) in Hrun. injection Hrun as <- <-.
  set (written := FixUnicode.fix_line (FixUnicode.universal_newlines content)).
  eexists. split.
  - apply fix_unicode_run. cbn. reflexivity.
  - intro name. cbn. destruct (String.eqb name FixUnicode.FILE);
      [|reflexivity].
    f_equal. fold written.
    assert (Hcr : ~ In FixUnicode.CR written).
    { intro Hin. apply in_fix_line in Hin.
      destruct Hin as [Hin|[_ Hin]].
      - cbn in Hin.
        repeat (destruct Hin as [Hin|Hin]; [discriminate|]); exact Hin.
      - exact (universal_newlines_no_cr _ Hin). }
    rewrite (@universal_newlines_plain written Hcr).
    apply fix_line_clean. intros x Hx Hin. apply in_fix_line in Hin.
    destruct Hin as [Hin|[Hsym _]]; [|contradiction].
    cbn in Hx, Hin.
    destruct Hx as [<-|[<-|[<-|[<-|[]]]]];
      repeat (destruct Hin as [Hin|Hin]; [discriminate|]); exact Hin.
Qed.

Lemma second_run_changes_nothing_witness :
  exists files'',
    FixUnicode.fix_unicode
      (fun name =>
         if String.eqb name FixUnicode.FILE
         then Some (FixUnicode.fix_line
                      (FixUnicode.universal_newlines FixUnicode.sample))
         else FixUnicode.sample_files name)
    = Some (files'', [FixUnicode.DONE])
    /\ forall name,
         files'' name
         = if String.eqb name FixUnicode.FILE
           then Some (FixUnicode.fix_line
                        (FixUnicode.universal_newlines FixUnicode.sample))
           else FixUnicode.sample_files name.
Proof.
  apply (@second_run_changes_nothing FixUnicode.sample_files).
  apply fix_unicode_run. reflexivity.
Defined.

(** X18. A file without any of the four symbols and without carriage
    return is written back as it was. *)
Theorem plain_file_is_unchanged :
  forall (files : FixUnicode.Files) (content : FixUnicode.Text),
    files FixUnicode.FILE = Some content ->
    (forall x, In x (FixUnicode.CR :: FixUnicode.symbols) -> ~ In x content) ->
    exists files',
      FixUnicode.fix_unicode files = Some (files', [FixUnicode.DONE])
      /\ forall name, files' name = files name.
Proof.
  intros files content Hfile Hplain.
  eexists. split; [exact (fix_unicode_run files Hfile)|].
  intro name. cbn. destruct (String.eqb name FixUnicode.FILE) eqn:E;
    [|reflexivity].
  apply String.eqb_eq in E. subst name. rewrite Hfile. f_equal.
  rewrite (@universal_newlines_plain content) by (apply Hplain; now left).
  apply fix_line_clean. intros x Hx. apply Hplain. now right.
Qed.

Lemma plain_file_is_unchanged_witness :
  exists files',
    FixUnicode.fix_unicode
      (fun name => if String.eqb name FixUnicode.FILE
                   then Some (FixUnicode.text_of "print('ok')") else None)
    = Some (files', [FixUnicode.DONE])
    /\ forall name,
         files' name
         = if String.eqb name FixUnicode.FILE
           then Some (FixUnicode.text_of "print('ok')") else None.
Proof.
  apply (@plain_file_is_unchanged
           (fun name => if String.eqb name FixUnicode.FILE
                        then Some (FixUnicode.text_of "print('ok')") else None)
           (FixUnicode.text_of "print('ok')")).
  - reflexivity.
  - intros x Hx Hin. cbn in Hx, Hin.
    destruct Hx as [<-|[<-|[<-|[<-|[<-|[]]]]]];
      repeat (destruct Hin as [Hin|Hin]; [discriminate|]); exact Hin.
Defined.

(* ================================================================== *)
(** * The local stage of [load_fonts] *)

Lemma local_stage_success (p : string) (w0 w' : World) (d : FontFiles) :
  p <> "" ->
  load_fonts_from_path p w0 = (Ok (Some d), w') ->
  load_local_or_default (Some p) w0 = (Ok (Some d), w').
Proof.
  intros Hp Hrun. unfold load_local_or_default.
  destruct p as [|c p]; [congruence|].
  rewrite bind_ok with (1 := Hrun). cbn [truthy_fonts].
  now rewrite (@complete_truthy d (@load_fonts_from_path_complete _ _ _ _ Hrun)).
Qed.

(** X19. When no download is tried, or the download came back empty,
    a path from which [load_fonts_from_path] loads a font set decides
    the call: [load_fonts] returns that font set and stops in the world
    of the local stage, so the bundled fonts are not looked at. *)
Theorem local_path_answers_before_bundled_fonts :
  forall (font_family : option string) (p : string) (w w0 w' : World)
         (d : FontFiles),
    p <> "" ->
    (remote_family font_family = false /\ w0 = w)
    \/ (exists family fonts w1,
          font_family = Some family
          /\ remote_family font_family = true
          /\ download_google_font family None
               (say (MsgLoadingGoogle family) w) = (Ok fonts, w1)
          /\ truthy_fonts fonts = false
          /\ w0 = say (MsgFailedTryLocal family) w1) ->
    load_fonts_from_path p w0 = (Ok (Some d), w') ->
    load_fonts font_family (Some p) w = (Ok (Some d), w').
Proof.
  intros font_family p w w0 w' d Hp Hstage Hrun.
  pose proof (@local_stage_success p w0 w' d Hp Hrun) as Hlocal.
  destruct Hstage as [[Hrem ->]|(family & fonts & w1 & -> & Hrem & Hdl & Hempty & ->)].
  - unfold load_fonts. destruct font_family as [[|c f]|]; try exact Hlocal.
    cbn [remote_family] in Hrem. rewrite Hrem. exact Hlocal.
  - destruct family as [|c f]; [discriminate|].
    unfold load_fonts. cbn [remote_family] in Hrem. rewrite Hrem.
    rewrite bind_ok with (1 := print_say _ w).
    rewrite bind_ok with (1 := Hdl). rewrite Hempty.
    rewrite bind_ok with (1 := print_say _ w1). exact Hlocal.
Qed.

Lemma local_path_answers_before_bundled_fonts_witness :
  defaults_present offline_demo_world = false
  /\ fst (load_fonts (Some "Demo Sans") (Some "faces") offline_demo_world)
     = Ok (Some [("bold", "/srv/faces/Demo-Bold.TTF");
                 ("regular", "/srv/faces/thin_400.otf");
                 ("light", "/srv/faces/thin_400.otf")]).
Proof.
  split; [reflexivity|].
  pose (w1 := snd (download_google_font "Demo Sans" None
                     (say (MsgLoadingGoogle "Demo Sans") offline_demo_world))).
  pose (w0 := say (MsgFailedTryLocal "Demo Sans") w1).
  pose (w' := snd (load_fonts_from_path "faces" w0)).
  rewrite (@local_path_answers_before_bundled_fonts
             (Some "Demo Sans") "faces" offline_demo_world w0 w'
             [("bold", "/srv/faces/Demo-Bold.TTF");
                 ("regular", "/srv/faces/thin_400.otf");
                 ("light", "/srv/faces/thin_400.otf")]).
  - reflexivity.
  - discriminate.
  - right. exists "Demo Sans", None, w1.
    repeat split.
  - apply with_final_world. vm_compute. reflexivity.
Defined.
